(** * SkoolKit HTML writer: tiles, frames, snapshots and the tile-grid macros

    A shallow embedding of the parts of [skoolkit/skoolhtml.py] that build
    8x8 tiles (class [Udg]), frames (class [Frame]), the snapshot stack of
    [HtmlWriter], the address-range expansion [_get_udg_addresses], the
    screenshot grid and the [#UDGARRAY] macro, together with the properties
    the specification states about them.

    Python integers are [Z]; Python lists are Rocq lists; a [str] is a
    [string]; exceptions are the [Raise] outcomes of [result]; the mutable
    writer object is a record threaded through a state-and-exception monad. *)

From Stdlib Require Import ZArith Lia Bool Ascii String.
From stdpp Require Import base gmap strings list pretty.

Local Open Scope Z_scope.

(** ** Python values, exceptions and sequence primitives *)

Module Py.

(** The exceptions the modelled code can raise.  [OutOfFuel] is not a
    Python exception: it is the outcome of a [while] loop of the model
    that was given too few iterations. *)
Inductive exn :=
| IndexError
| KeyError (key : string)
| ValueError
| TypeError
| ZeroDivisionError
| MacroParsingError (msg : string)
| SkoolKitError (msg : string)
| OutOfFuel.

Inductive result (A : Type) :=
| Ok (a : A)
| Raise (e : exn).
Arguments Ok {A} a.
Arguments Raise {A} e.

Definition bind {A B} (r : result A) (k : A -> result B) : result B :=
  match r with
  | Ok a => k a
  | Raise e => Raise e
  end.

Definition is_ok {A} (r : result A) : bool :=
  match r with Ok _ => true | Raise _ => false end.

(** [len(l)] *)
Definition len {A} (l : list A) : Z := Z.of_nat (length l).

(** Index normalisation of [l[i]]: a negative index counts from the end. *)
Definition norm_index (n i : Z) : option nat :=
  let j := if i <? 0 then i + n else i in
  if (0 <=? j) && (j <? n) then Some (Z.to_nat j) else None.

(** [l[i]], raising [IndexError] out of range. *)
Definition getitem {A} (l : list A) (i : Z) : result A :=
  match norm_index (len l) i with
  | Some j => match l !! j with Some a => Ok a | None => Raise IndexError end
  | None => Raise IndexError
  end.

(** [l[i] = v], raising [IndexError] out of range. *)
Definition setitem {A} (l : list A) (i : Z) (v : A) : result (list A) :=
  match norm_index (len l) i with
  | Some j => Ok (<[j:=v]> l)
  | None => Raise IndexError
  end.

(** [range(a, b)] *)
Definition range (a b : Z) : list Z :=
  map (fun k => a + Z.of_nat k) (seq 0 (Z.to_nat (b - a))).

(** Bound normalisation of a slice [l[a:b]] (positive step). *)
Definition clamp (n i : Z) : Z :=
  let j := if i <? 0 then i + n else i in
  if j <? 0 then 0 else if n <? j then n else j.

(** [l[start:stop:step]] for a positive [step]; a slice never raises. *)
Definition slice_step {A} (l : list A) (start stop step : Z) : list A :=
  let n := len l in
  let s := clamp n start in
  let e := clamp n stop in
  let count := if e <=? s then 0 else (e - s + step - 1) / step in
  omap (fun k => l !! Z.to_nat (s + Z.of_nat k * step)) (seq 0 (Z.to_nat count)).

(** [l * num]: list repetition, empty when [num <= 0]. *)
Definition repeat_list {A} (l : list A) (num : Z) : list A :=
  concat (replicate (Z.to_nat num) l).

(** Truth value of an [int] used as a condition. *)
Definition truthy (z : Z) : bool := negb (z =? 0).

(** Truth value of a list-or-None used as a condition ([if self.mask:]). *)
Definition truthy_list {A} (m : option (list A)) : bool :=
  match m with
  | Some (_ :: _) => true
  | _ => false
  end.

End Py.

Import Py.

Notation "'let*' x := e 'in' k" := (Py.bind e (fun x => k))
  (at level 10, x name, e at level 100, k at level 200).

(** ** Tiles (class [Udg]) *)

(** The byte flip table of the module. *)
Definition FLIP : list Z := [
    0; 128; 64; 192; 32; 160; 96; 224; 16; 144; 80; 208; 48; 176; 112; 240;
    8; 136; 72; 200; 40; 168; 104; 232; 24; 152; 88; 216; 56; 184; 120; 248;
    4; 132; 68; 196; 36; 164; 100; 228; 20; 148; 84; 212; 52; 180; 116; 244;
    12; 140; 76; 204; 44; 172; 108; 236; 28; 156; 92; 220; 60; 188; 124; 252;
    2; 130; 66; 194; 34; 162; 98; 226; 18; 146; 82; 210; 50; 178; 114; 242;
    10; 138; 74; 202; 42; 170; 106; 234; 26; 154; 90; 218; 58; 186; 122; 250;
    6; 134; 70; 198; 38; 166; 102; 230; 22; 150; 86; 214; 54; 182; 118; 246;
    14; 142; 78; 206; 46; 174; 110; 238; 30; 158; 94; 222; 62; 190; 126; 254;
    1; 129; 65; 193; 33; 161; 97; 225; 17; 145; 81; 209; 49; 177; 113; 241;
    9; 137; 73; 201; 41; 169; 105; 233; 25; 153; 89; 217; 57; 185; 121; 249;
    5; 133; 69; 197; 37; 165; 101; 229; 21; 149; 85; 213; 53; 181; 117; 245;
    13; 141; 77; 205; 45; 173; 109; 237; 29; 157; 93; 221; 61; 189; 125; 253;
    3; 131; 67; 195; 35; 163; 99; 227; 19; 147; 83; 211; 51; 179; 115; 243;
    11; 139; 75; 203; 43; 171; 107; 235; 27; 155; 91; 219; 59; 187; 123; 251;
    7; 135; 71; 199; 39; 167; 103; 231; 23; 151; 87; 215; 55; 183; 119; 247;
    15; 143; 79; 207; 47; 175; 111; 239; 31; 159; 95; 223; 63; 191; 127; 255
  ].

Module Udg.

(** [Udg(attr, data, mask=None)] *)
Record t := Make {
  attr : Z;
  data : list Z;
  mask : option (list Z)
}.

(** [Udg.__eq__]: attribute, data and mask all compare equal. *)
Definition eqb (u v : t) : bool :=
  bool_decide (attr u = attr v) && bool_decide (data u = data v)
  && bool_decide (mask u = mask v).

(** The inner [for byte in tile_data] loop of [_rotate_tile], for the
    bit [b]. *)
Definition rotate_byte (b : Z) (tile_data : list Z) : Z :=
  fold_left
    (fun rbyte byte =>
       let rbyte := rbyte / 2 in
       if truthy (Z.land byte b) then rbyte + 128 else rbyte)
    tile_data 0.

(** The [while b < 129] loop of [_rotate_tile]. *)
Fixpoint rotate_loop (fuel : nat) (b : Z) (tile_data rotated : list Z)
  : result (list Z) :=
  if b <? 129 then
    match fuel with
    | O => Raise OutOfFuel
    | S fuel =>
        rotate_loop fuel (b * 2) tile_data (rotated ++ [rotate_byte b tile_data])
    end
  else Ok rotated.

(** [Udg._rotate_tile]: [b] doubles from 1 while below 129, so eight
    iterations are all the loop can make. *)
Definition _rotate_tile (tile_data : list Z) : result (list Z) :=
  let* rotated := rotate_loop 8 1 tile_data [] in
  Ok (rev rotated).

(** One iteration of the [for i in range(8)] loop of [flip]. *)
Definition flip_byte (u : t) (i : Z) : result t :=
  let* d := getitem (data u) i in
  let* fd := getitem FLIP d in
  let* data' := setitem (data u) i fd in
  if truthy_list (mask u) then
    match mask u with
    | Some m =>
        let* x := getitem m i in
        let* fx := getitem FLIP x in
        let* m' := setitem m i fx in
        Ok (Make (attr u) data' (Some m'))
    | None => Ok (Make (attr u) data' None)
    end
  else Ok (Make (attr u) data' (mask u)).

Fixpoint flip_bytes (u : t) (indices : list Z) : result t :=
  match indices with
  | [] => Ok u
  | i :: indices => let* u' := flip_byte u i in flip_bytes u' indices
  end.

(** [Udg.flip] *)
Definition flip (u : t) (flip : Z) : result t :=
  let* u1 := (if truthy (Z.land flip 1) then flip_bytes u (range 0 8) else Ok u) in
  if truthy (Z.land flip 2) then
    Ok (Make (attr u1) (rev (data u1))
          (if truthy_list (mask u1) then option_map (@rev Z) (mask u1) else mask u1))
  else Ok u1.

(** The body of the [for i in range(rotate & 3)] loop of [rotate]. *)
Definition rotate_once (u : t) : result t :=
  let* data' := _rotate_tile (data u) in
  if truthy_list (mask u) then
    match mask u with
    | Some m => let* m' := _rotate_tile m in Ok (Make (attr u) data' (Some m'))
    | None => Ok (Make (attr u) data' None)
    end
  else Ok (Make (attr u) data' (mask u)).

Fixpoint rotate_times (n : nat) (u : t) : result t :=
  match n with
  | O => Ok u
  | S n => let* u' := rotate_once u in rotate_times n u'
  end.

(** [Udg.rotate] *)
Definition rotate (u : t) (rotate : Z) : result t :=
  rotate_times (Z.to_nat (Z.land rotate 3)) u.

(** [Udg.copy] *)
Definition copy (u : t) : t :=
  if truthy_list (mask u) then Make (attr u) (data u) (mask u)
  else Make (attr u) (data u) None.

(** A tile of the data model: eight bitmap bytes and, when there is a
    mask, eight mask bytes. *)
Definition is_byte (b : Z) : Prop := 0 <= b < 256.

Definition wf (u : t) : Prop :=
  length (data u) = 8%nat /\ Forall is_byte (data u) /\
  match mask u with
  | Some m => length m = 8%nat /\ Forall is_byte m
  | None => True
  end.

End Udg.

(** ** Strings ([str]) *)

Module Str.

Local Open Scope string_scope.

Definition chars (s : string) : list ascii := list_ascii_of_string s.
Definition of_chars (l : list ascii) : string := string_of_list_ascii l.

(** [len(s)] *)
Definition len (s : string) : Z := Z.of_nat (String.length s).

(** Truth value of a [str] used as a condition. *)
Definition truthy (s : string) : bool := negb (String.eqb s "").

(** [s[i]] *)
Definition getitem (s : string) (i : Z) : result ascii :=
  Py.getitem (chars s) i.

(** [s[start:stop]]; [None] is an omitted bound. *)
Definition slice (s : string) (start stop : option Z) : string :=
  let l := chars s in
  let n := Py.len l in
  let a := match start with Some i => clamp n i | None => 0 end in
  let b := match stop with Some i => clamp n i | None => n end in
  of_chars (take (Z.to_nat (b - a)) (drop (Z.to_nat a) l)).

(** [c in s] *)
Definition contains (c : ascii) (s : string) : bool :=
  existsb (Ascii.eqb c) (chars s).

(** [s.split(sep, maxsplit)] for a one-character separator; [None] is
    no limit.  [cur] holds the characters of the part being read. *)
Fixpoint split_from (sep : ascii) (maxsplit : option nat) (s cur : string)
  : list string :=
  match s with
  | EmptyString => [cur]
  | String c s' =>
      if Ascii.eqb c sep then
        match maxsplit with
        | Some O => split_from sep maxsplit s' (cur ++ String c "")
        | Some (S m) => cur :: split_from sep (Some m) s' ""
        | None => cur :: split_from sep None s' ""
        end
      else split_from sep maxsplit s' (cur ++ String c "")
  end.

Definition split (sep : ascii) (maxsplit : option nat) (s : string) : list string :=
  split_from sep maxsplit s "".

Definition reverse (s : string) : string := of_chars (rev (chars s)).

(** [s.rsplit(sep, maxsplit)]: as [split], scanning from the right. *)
Definition rsplit (sep : ascii) (maxsplit : option nat) (s : string) : list string :=
  rev (map reverse (split sep maxsplit (reverse s))).

(** [s.partition(sep)] for a one-character separator. *)
Definition partition (sep : ascii) (s : string) : string * string * string :=
  match split sep (Some 1%nat) s with
  | [a; b] => (a, String sep "", b)
  | _ => (s, "", "")
  end.

Definition lower_char (c : ascii) : ascii :=
  let n := nat_of_ascii c in
  if (65 <=? n)%nat && (n <=? 90)%nat then ascii_of_nat (n + 32) else c.

(** [s.lower()] on ASCII text. *)
Definition lower (s : string) : string := of_chars (map lower_char (chars s)).

(** [s.replace(c, '')] *)
Definition remove_char (c : ascii) (s : string) : string :=
  of_chars (filter (fun d => d <> c) (chars s)).

(** [sep.join(parts)] *)
Fixpoint join (sep : string) (parts : list string) : string :=
  match parts with
  | [] => ""
  | [p] => p
  | p :: rest => p ++ sep ++ join sep rest
  end.

(** The double-quote character, for messages that quote a value. *)
Definition dquote : string := String (ascii_of_nat 34) "".

End Str.

(** ** Integer parameters *)

Definition digit_value (c : ascii) : option Z :=
  let n := Z.of_nat (nat_of_ascii c) in
  if (48 <=? n) && (n <=? 57) then Some (n - 48)
  else if (97 <=? n) && (n <=? 102) then Some (n - 87)
  else if (65 <=? n) && (n <=? 70) then Some (n - 55)
  else None.

Fixpoint parse_digits (base : Z) (s : string) (acc : Z) : option Z :=
  match s with
  | EmptyString => Some acc
  | String c s' =>
      match digit_value c with
      | Some d => if d <? base then parse_digits base s' (acc * base + d) else None
      | None => None
      end
  end.

(** Modelled from the spec: [get_int_param] of the package module, which is
    not among the sources at hand.  An integer literal is decimal or
    [$]-prefixed hexadecimal; anything else raises [ValueError]. *)
Definition get_int_param (num_str : string) : result Z :=
  match num_str with
  | EmptyString => Raise ValueError
  | String "$" EmptyString => Raise ValueError
  | String "$" hex =>
      match parse_digits 16 hex 0 with Some n => Ok n | None => Raise ValueError end
  | _ =>
      match parse_digits 10 num_str 0 with Some n => Ok n | None => Raise ValueError end
  end.

(** [[f(x) for x in l]] where [f] may raise. *)
Fixpoint map_result {A B} (f : A -> result B) (l : list A) : result (list B) :=
  match l with
  | [] => Ok []
  | x :: l => let* y := f x in let* ys := map_result f l in Ok (y :: ys)
  end.

(** [try: e except ValueError: raise MacroParsingError(msg)] *)
Definition reraise_value_error {A} (r : result A) (msg : string) : result A :=
  match r with
  | Raise ValueError => Raise (MacroParsingError msg)
  | _ => r
  end.

(** ** Address ranges ([HtmlWriter._get_udg_addresses]) *)

(** An address specification is an [int] or a [str]. *)
Inductive addr_spec :=
| AddrInt (n : Z)
| AddrStr (s : string).

(** The [while address <= end_address] loop. *)
Fixpoint addresses_loop (fuel : nat) (address end_address h_step v_step width : Z)
    (addresses : list Z) : result (list Z) :=
  if address <=? end_address then
    match fuel with
    | O => Raise OutOfFuel
    | S fuel =>
        let addresses := addresses ++ [address] in
        if width =? 0 then Raise ZeroDivisionError
        else
          let address :=
            if truthy (Py.len addresses mod width) then address + h_step
            else address + (v_step - (width - 1) * h_step) in
          addresses_loop fuel address end_address h_step v_step width addresses
    end
  else Ok addresses.

Definition invalid_range_msg (addr_spec : string) : string :=
  ("Invalid address range specification: " ++ addr_spec)%string.

Definition _get_udg_addresses (fuel : nat) (spec : addr_spec) (width : Z)
  : result (list Z) :=
  match spec with
  | AddrInt n => Ok [n]
  | AddrStr addr_spec =>
      let* addr_num :=
        (if Str.contains "x" addr_spec then
           match Str.split "x" (Some 1%nat) addr_spec with
           | [addr; num] =>
               let* num := reraise_value_error (get_int_param num)
                             (invalid_range_msg addr_spec) in
               Ok (addr, num)
           | _ => Raise ValueError
           end
         else Ok (addr_spec, 1)) in
      let '(addr, num) := addr_num in
      let* elements :=
        reraise_value_error
          (map_result get_int_param (Str.split "-" (Some 3%nat) addr))
          (invalid_range_msg addr_spec) in
      let elements :=
        if Py.len elements <? 2 then elements ++ [default 0 (head elements)]
        else elements in
      let elements := if Py.len elements <? 3 then elements ++ [1] else elements in
      let elements :=
        if Py.len elements <? 4
        then elements ++ [default 0 (elements !! 2%nat) * width]
        else elements in
      match elements with
      | [address; end_address; h_step; v_step] =>
          let* addresses :=
            addresses_loop fuel address end_address h_step v_step width [] in
          Ok (repeat_list addresses num)
      | _ => Raise ValueError
      end
  end.

(** ** Frames (class [Frame]) *)

Module Frame.

(** The [mask] argument is [False], [True] or an [int]. *)
Inductive mask_arg :=
| MaskBool (b : bool)
| MaskInt (z : Z).

Record t := Make {
  _udgs : list (list Udg.t);
  _scale : Z;
  mask : Z;
  _x : Z;
  _y : Z;
  _full_width : Z;
  _full_height : Z;
  _width : Z;
  _height : Z;
  delay : Z;
  trans : Z
}.

(** [v or d] for an optional [int] [v]: [None] and [0] both give [d]. *)
Definition or_else (v : option Z) (d : Z) : Z :=
  match v with
  | Some z => if truthy z then z else d
  | None => d
  end.

(** [Frame.__init__]; [udgs[0]] raises [IndexError] on an empty grid. *)
Definition init (udgs : list (list Udg.t)) (scale : Z) (mask : mask_arg)
    (x y : Z) (width height : option Z) (delay : Z) : result t :=
  let mask :=
    match mask with
    | MaskBool false => 0
    | MaskBool true => 1
    | MaskInt z => z
    end in
  let* row0 := getitem udgs 0 in
  let full_width := 8 * Py.len row0 * scale in
  let full_height := 8 * Py.len udgs * scale in
  Ok (Make udgs scale mask x y full_width full_height
        (Z.min (or_else width full_width) (full_width - x))
        (Z.min (or_else height full_height) (full_height - y))
        delay 0).

(** The properties [udgs], [scale], [x], [y], [width], [height]. *)
Definition udgs (f : t) := _udgs f.
Definition scale (f : t) := _scale f.
Definition x (f : t) := _x f.
Definition y (f : t) := _y f.
Definition width (f : t) := _width f.
Definition height (f : t) := _height f.

(** The property [cropped]. *)
Definition cropped (f : t) : bool :=
  negb (_width f =? _full_width f) || negb (_height f =? _full_height f).

(** [frame.delay = delay] *)
Definition set_delay (f : t) (d : Z) : t :=
  Make (_udgs f) (_scale f) (mask f) (_x f) (_y f) (_full_width f)
    (_full_height f) (_width f) (_height f) d (trans f).

End Frame.

(** The default arguments of [Frame(udgs, scale=1, mask=0, x=0, y=0,
    width=None, height=None, delay=32)] that the callers leave out. *)
Definition DEFAULT_DELAY : Z := 32.

(** ** The writer object ([HtmlWriter] with its [FileInfo]) *)

(** A cropping rectangle [(x, y, width, height)]. *)
Definition crop_rect : Type := Z * Z * option Z * option Z.

(** One call of the image encoder, [image_writer.write_image(frames, f,
    img_format)], with the path the file [f] was opened at. *)
Record encoder_call := EncoderCall {
  call_path : string;
  call_frames : list Frame.t;
  call_format : string
}.

(** The fields of the writer the modelled methods use.  Snapshots are
    Python lists, shared by reference: [heap] maps a reference to the
    bytes of the list object, [snapshot] is the reference held by
    [self.snapshot] and [_snapshots] the list of [(snapshot, name)] pairs.
    [files] is the set of paths of the regular files that exist, and
    [encoder_calls] the calls made to the image encoder so far. *)
Record HtmlWriter := MakeWriter {
  heap : gmap nat (list Z);
  snapshot : nat;
  _snapshots : list (nat * string);
  frames : gmap string Frame.t;
  paths : gmap string string;
  default_image_format : string;
  odir : string;
  replace_images : bool;
  files : gset string;
  encoder_calls : list encoder_call
}.

Definition set_heap (w : HtmlWriter) (h : gmap nat (list Z)) : HtmlWriter :=
  MakeWriter h (snapshot w) (_snapshots w) (frames w) (paths w)
    (default_image_format w) (odir w) (replace_images w) (files w) (encoder_calls w).

Definition set_snapshot (w : HtmlWriter) (s : nat) : HtmlWriter :=
  MakeWriter (heap w) s (_snapshots w) (frames w) (paths w)
    (default_image_format w) (odir w) (replace_images w) (files w) (encoder_calls w).

Definition set_snapshots (w : HtmlWriter) (l : list (nat * string)) : HtmlWriter :=
  MakeWriter (heap w) (snapshot w) l (frames w) (paths w)
    (default_image_format w) (odir w) (replace_images w) (files w) (encoder_calls w).

Definition set_frames (w : HtmlWriter) (f : gmap string Frame.t) : HtmlWriter :=
  MakeWriter (heap w) (snapshot w) (_snapshots w) f (paths w)
    (default_image_format w) (odir w) (replace_images w) (files w) (encoder_calls w).

Definition set_files (w : HtmlWriter) (f : gset string) : HtmlWriter :=
  MakeWriter (heap w) (snapshot w) (_snapshots w) (frames w) (paths w)
    (default_image_format w) (odir w) (replace_images w) f (encoder_calls w).

Definition set_encoder_calls (w : HtmlWriter) (c : list encoder_call) : HtmlWriter :=
  MakeWriter (heap w) (snapshot w) (_snapshots w) (frames w) (paths w)
    (default_image_format w) (odir w) (replace_images w) (files w) c.

(** The bytes of the current snapshot, [self.snapshot]. *)
Definition current (w : HtmlWriter) : list Z := heap w !!! snapshot w.

(** The snapshot part of [HtmlWriter.__init__]:
    [self.snapshot = self.parser.snapshot] and
    [self._snapshots = [(self.snapshot, '')]], one list object shared by
    both. *)
Definition init_snapshots (parser_snapshot : list Z) (w : HtmlWriter) : HtmlWriter :=
  set_snapshots (set_snapshot (set_heap w (<[0%nat := parser_snapshot]> (heap w))) 0%nat)
    [(0%nat, EmptyString)].

(** A method of the writer: it returns or raises, and leaves the writer in
    a new state either way. *)
Definition M (A : Type) : Type := HtmlWriter -> result A * HtmlWriter.

Definition ret {A} (a : A) : M A := fun w => (Ok a, w).
Definition raise {A} (e : exn) : M A := fun w => (Raise e, w).
Definition lift {A} (r : result A) : M A := fun w => (r, w).
Definition bindM {A B} (m : M A) (k : A -> M B) : M B :=
  fun w =>
    match m w with
    | (Ok a, w') => k a w'
    | (Raise e, w') => (Raise e, w')
    end.

Notation "'let!' x := e 'in' k" := (bindM e (fun x => k))
  (at level 10, x name, e at level 100, k at level 200).

(** *** The snapshot stack *)

(** [HtmlWriter.get_snapshot_name] *)
Definition get_snapshot_name : M string :=
  fun w => (let* top := getitem (_snapshots w) (-1) in Ok (snd top), w).

(** [HtmlWriter.pop_snapshot]: [list.pop()] raises [IndexError] on an
    empty list and removes the last entry otherwise. *)
Definition pop_snapshot : M unit :=
  fun w =>
    match rev (_snapshots w) with
    | [] => (Raise IndexError, w)
    | top :: rest =>
        (Ok tt, set_snapshot (set_snapshots w (rev rest)) (fst top))
    end.

(** [HtmlWriter.push_snapshot]: [self.snapshot[:]] is a new list object
    with the bytes of the current one. *)
Definition push_snapshot (name : string) : M unit :=
  fun w =>
    let copy := fresh (dom (heap w)) in
    (Ok tt,
     set_snapshots (set_heap w (<[copy := current w]> (heap w)))
       (_snapshots w ++ [(copy, name)])).

(** Modelled from the spec: the write of the poke-style macros
    ([skoolmacro.parse_pokes], which is handed [self.snapshot] and is not
    among the sources at hand), as the item assignment
    [snapshot[addr] = v] on the current snapshot's list object. *)
Definition poke (addr v : Z) : M unit :=
  fun w =>
    match setitem (current w) addr v with
    | Ok l => (Ok tt, set_heap w (<[snapshot w := l]> (heap w)))
    | Raise e => (Raise e, w)
    end.

(** Every reference the writer holds is to a list object. *)
Definition refs_ok (w : HtmlWriter) : Prop :=
  is_Some (heap w !! snapshot w) /\
  Forall (fun e => is_Some (heap w !! fst e)) (_snapshots w).

(** *** Files ([FileInfo]) *)

(** The module-level function [join]: the path components that are
    more than slashes, joined by a slash. *)
Definition join (path_components : list string) : string :=
  Str.join "/"
    (filter (fun c => Str.truthy (Str.remove_char "/" c) = true) path_components).

(** [FileInfo.file_exists] *)
Definition file_exists (w : HtmlWriter) (fname : string) : bool :=
  bool_decide (join [odir w; fname] ∈ files w).

(** [FileInfo.need_image], which [HtmlWriter.need_image] defers to. *)
Definition need_image (w : HtmlWriter) (image_path : string) : bool :=
  replace_images w || negb (file_exists w image_path).

(** [FileInfo.open_file(name, mode='wb')]: the file exists from then on. *)
Definition open_file (name : string) : M unit :=
  fun w => (Ok tt, set_files w ({[ join [odir w; name] ]} ∪ files w)).

(** *** Screenshots *)

(** [HtmlWriter._get_screen_udg] *)
Definition _get_screen_udg (w : HtmlWriter) (row col df_addr af_addr : Z)
  : result Udg.t :=
  let* attr := getitem (current w) (af_addr + 32 * row + col) in
  let address := df_addr + 2048 * (row / 8) + 32 * (row mod 8) + col in
  Ok (Udg.Make attr (slice_step (current w) address (address + 2048) 256) None).

(** [HtmlWriter.screenshot] *)
Definition screenshot (w : HtmlWriter) (x y w_ h df_addr af_addr : Z)
  : result (list (list Udg.t)) :=
  let width := Z.min w_ (32 - x) in
  let height := Z.min h (24 - y) in
  map_result
    (fun r =>
       map_result (fun c => _get_screen_udg w r c df_addr af_addr)
         (range x (x + width)))
    (range y (y + height)).

(** *** Whole-grid transforms *)

(** [HtmlWriter.flip_udgs] *)
Definition flip_udgs (udgs : list (list Udg.t)) (flip : Z)
  : result (list (list Udg.t)) :=
  let* udgs := map_result (map_result (fun udg => Udg.flip udg flip)) udgs in
  let udgs := if truthy (Z.land flip 1) then map (@rev Udg.t) udgs else udgs in
  Ok (if truthy (Z.land flip 2) then rev udgs else udgs).

(** [udgs[j][i]] *)
Definition grid_item (udgs : list (list Udg.t)) (j i : Z) : result Udg.t :=
  let* row := getitem udgs j in getitem row i.

(** [HtmlWriter.rotate_udgs] *)
Definition rotate_udgs (udgs : list (list Udg.t)) (rotate : Z)
  : result (list (list Udg.t)) :=
  let* udgs := map_result (map_result (fun udg => Udg.rotate udg rotate)) udgs in
  if Z.land rotate 3 =? 1 then
    let* row0 := getitem udgs 0 in
    map_result
      (fun i =>
         let* column :=
           map_result (fun j => grid_item udgs j i) (range 0 (Py.len udgs)) in
         Ok (rev column))
      (range 0 (Py.len row0))
  else if Z.land rotate 3 =? 2 then
    Ok (map (@rev Udg.t) (rev udgs))
  else if Z.land rotate 3 =? 3 then
    let* row0 := getitem udgs 0 in
    let* rotated :=
      map_result
        (fun i => map_result (fun j => grid_item udgs j i) (range 0 (Py.len udgs)))
        (range 0 (Py.len row0)) in
    Ok (rev rotated)
  else Ok udgs.

(** *** Image paths and image files *)

Definition is_image_suffix (s : string) : bool :=
  let ext := Str.lower (Str.slice s (Some (-4)) None) in
  String.eqb ext ".png" || String.eqb ext ".gif".

(** [HtmlWriter.image_path]; [None] for a blank [fname]. *)
Definition image_path (w : HtmlWriter) (fname path_id : string)
  : result (option string) :=
  if Str.truthy fname then
    let suffix :=
      if is_image_suffix fname then EmptyString
      else ("." ++ default_image_format w)%string in
    let* c := Str.getitem fname 0 in
    if Ascii.eqb c "/" then
      Ok (Some (Str.slice fname (Some 1) None ++ suffix)%string)
    else
      match paths w !! path_id with
      | Some dir => Ok (Some (join [dir; (fname ++ suffix)%string]))
      | None =>
          Raise (SkoolKitError
                   ("Unknown path ID '" ++ path_id ++ "' for image file '"
                      ++ fname ++ "'")%string)
      end
  else Ok None.

(** [HtmlWriter._get_image_format] *)
Definition _get_image_format (image_path : string) : result string :=
  let img_file_ext := Str.slice (Str.lower image_path) (Some (-4)) None in
  if String.eqb img_file_ext ".png" then Ok "png"%string
  else if String.eqb img_file_ext ".gif" then Ok "gif"%string
  else Raise (SkoolKitError ("Unsupported image file format: " ++ image_path)%string).

(** [HtmlWriter.write_animated_image]: the image format is worked out,
    the file opened, and the encoder called once with the frames. *)
Definition write_animated_image (image_path : string) (frames : list Frame.t)
  : M unit :=
  let! img_format := lift (_get_image_format image_path) in
  let! f := open_file image_path in
  fun w =>
    (Ok tt,
     set_encoder_calls w
       (encoder_calls w ++ [EncoderCall image_path frames img_format])).

(** [HtmlWriter.write_image(image_path, udgs, crop_rect, scale, mask)] *)
Definition write_image (image_path : string) (udgs : list (list Udg.t))
    (crop : crop_rect) (scale : Z) (mask : Frame.mask_arg) : M unit :=
  let '(x, y, width, height) := crop in
  let! frame := lift (Frame.init udgs scale mask x y width height DEFAULT_DELAY) in
  write_animated_image image_path [frame].

(** ** The image macros *)

(** A parsed macro parameter: an [int], a [str], or [None] for a blank. *)
Inductive pyval :=
| VInt (z : Z)
| VStr (s : string)
| VNone.

(** A parameter used as a number.  The parameters at the indexes that must
    evaluate to an integer are [int]s when the parser returns. *)
Definition as_int (v : pyval) : result Z :=
  match v with
  | VInt z => Ok z
  | _ => Raise TypeError
  end.

(** A parameter used as an address specification. *)
Definition as_addr_spec (v : pyval) : result addr_spec :=
  match v with
  | VInt z => Ok (AddrInt z)
  | VStr s => Ok (AddrStr s)
  | VNone => Raise TypeError
  end.

Definition truthy_str (s : option string) : bool :=
  match s with
  | Some s => Str.truthy s
  | None => false
  end.

(** [end < len(text) and text[end] == c] *)
Definition char_at (text : string) (i : Z) (c : ascii) : result bool :=
  if i <? Str.len text then
    let* d := Str.getitem text i in Ok (Ascii.eqb d c)
  else Ok false.

(** [for x in l: s = body(s, x)] in a method of the writer. *)
Fixpoint for_each {A S} (body : S -> A -> M S) (l : list A) (s : S) : M S :=
  match l with
  | [] => ret s
  | x :: l => let! s' := body s x in for_each body l s'
  end.

(** [for x in l: s = body(s, x)] where the body may raise. *)
Fixpoint fold_result {A S} (body : S -> A -> result S) (l : list A) (s : S)
  : result S :=
  match l with
  | [] => Ok s
  | x :: l => let* s' := body s x in fold_result body l s'
  end.

(** The header parameters of [#UDGARRAY]. *)
Record ua_params := UaParams {
  ua_width : Z;
  ua_def_attr : Z;
  ua_scale : Z;
  ua_def_step : Z;
  ua_def_inc : Z;
  ua_flip : Z;
  ua_rotate : Z;
  ua_mask_type : Z
}.

(** The variables of [expand_udgarray] that its [while] loop updates. *)
Record ua_state := UaState {
  ua_end : Z;
  ua_fname : option string;
  ua_crop : crop_rect;
  ua_udg_array : list (list Udg.t);
  ua_has_masks : bool
}.

(** [if len(udg_array[-1]) == width: udg_array.append([udg])
     else: udg_array[-1].append(udg)] *)
Definition append_udg (udg_array : list (list Udg.t)) (width : Z) (udg : Udg.t)
  : result (list (list Udg.t)) :=
  let* last_row := getitem udg_array (-1) in
  if Py.len last_row =? width then Ok (udg_array ++ [[udg]])
  else setitem udg_array (-1) (last_row ++ [udg]).

(** [mask_addresses += [None] * (len(udg_addresses) - len(mask_addresses))] *)
Definition pad_masks (udg_addresses mask_addresses : list Z) : list (option Z) :=
  map Some mask_addresses
  ++ repeat_list [None] (Py.len udg_addresses - Py.len mask_addresses).

(** The tile at [u], with the mask at [m] when there is one. *)
Definition build_udg (w : HtmlWriter) (attr step inc mask_step : Z)
    (u : Z) (m : option Z) : result Udg.t :=
  let* udg_bytes :=
    map_result
      (fun n => let* b := getitem (current w) (u + n * step) in Ok ((b + inc) mod 256))
      (range 0 8) in
  match m with
  | Some m =>
      let* mask :=
        map_result (fun n => getitem (current w) (m + n * mask_step)) (range 0 8) in
      Ok (Udg.Make attr udg_bytes (Some mask))
  | None => Ok (Udg.Make attr udg_bytes None)
  end.

Section Macros.

(** The parsers of [skoolmacro] and of the package module, and the
    template renderer behind [img_element], are collaborators that are
    not among the sources at hand; the macros are modelled over them.

    - [parse_params text index except_chars only_chars] returns
      [(end, params, p_text)];
    - [get_params param_string num defaults ints names] returns the
      parameter values;
    - [parse_ints text index] is the call with
      [defaults=(0, 0, None, None)] and
      [names=('x', 'y', 'width', 'height')], returning [end] and the
      four values;
    - [parse_int num_str] returns the integer or [None];
    - [img_element cwd image_path] is the rendered element. *)
Variable parse_params :
  string -> Z -> string -> string -> result (Z * string * option string).
Variable get_params :
  string -> Z -> list pyval -> option (list Z) -> list string -> result (list pyval).
Variable parse_ints : string -> Z -> result (Z * crop_rect).
Variable parse_int : string -> option Z.
Variable img_element : string -> string -> string.

(** [HtmlWriter.parse_image_params]; the values are returned as a list,
    after [end], the image path and the cropping rectangle. *)
Definition parse_image_params (w : HtmlWriter) (text : string) (index num : Z)
    (defaults : list pyval) (path_id : option string) (fname chars : string)
    (ints : option (list Z)) (names : list string)
  : result (Z * option string * crop_rect * list pyval) :=
  let named := negb (bool_decide (names = [])) in
  let valid_chars := ("$0123456789abcdefABCDEF," ++ chars)%string in
  let valid_chars :=
    if named then (valid_chars ++ "ghijklmnopqrstuvwxyz=")%string else valid_chars in
  let num := if named then Py.len names else num in
  let* parsed := parse_params text index EmptyString valid_chars in
  let '(end_, param_string, p_text) := parsed in
  let* params := get_params param_string num defaults ints names in
  if num <? Py.len params then
    Raise (MacroParsingError
             ("Too many parameters (expected " ++ pretty num ++ "): '"
                ++ Str.slice text (Some index) (Some end_) ++ "'")%string)
  else
    let* has_crop := char_at text end_ "{" in
    let* cropped :=
      (if has_crop then
         let* ints_parsed := parse_ints text (end_ + 1) in
         let '(end1, crop) := ints_parsed in
         let* closing := parse_params text end1 EmptyString "}" in
         let '(end2, _, p_text2) := closing in
         Ok (end2, crop, p_text2)
       else Ok (end_, (0, 0, None, None), p_text)) in
    let '(end_, crop, p_text) := cropped in
    let fname := if truthy_str p_text then default fname p_text else fname in
    let* img_path :=
      (if truthy_str path_id then image_path w fname (default EmptyString path_id)
       else Ok (Some fname)) in
    Ok (end_, img_path, crop, params).

(** *** The frame-composition form *)

(** The body of the loop over the frame clauses; the state is the
    default delay and the frames collected so far.  The frames are the
    objects of [self.frames], so the list holds their identifiers and
    [frame.delay = delay] updates the object in the cache. *)
Definition frame_clause (text : string) (index end_ : Z)
    (st : Z * list string) (frame_param : string) : M (Z * list string) :=
  let '(default_delay, collected) := st in
  let! chosen :=
    match Str.rsplit "," (Some 1%nat) frame_param with
    | [frame_id; delay_str] =>
        match parse_int delay_str with
        | None =>
            raise (MacroParsingError
                     ("Invalid delay parameter: " ++ Str.dquote ++ delay_str
                        ++ Str.dquote)%string)
        | Some delay => ret (frame_id, delay, delay)
        end
    | _ => ret (frame_param, default_delay, default_delay)
    end in
  let '(frame_id, delay, default_delay) := chosen in
  if negb (Str.truthy frame_id) then
    raise (MacroParsingError
             ("Missing frame ID: #UDGARRAY"
                ++ Str.slice text (Some index) (Some end_))%string)
  else
    fun w =>
      match frames w !! frame_id with
      | None =>
          (Raise (MacroParsingError
                    ("No such frame: " ++ Str.dquote ++ frame_id ++ Str.dquote)%string),
           w)
      | Some frame =>
          (Ok (default_delay, collected ++ [frame_id]),
           set_frames w (<[frame_id := Frame.set_delay frame delay]> (frames w)))
      end.

(** [HtmlWriter._expand_udgarray_with_frames] *)
Definition _expand_udgarray_with_frames (text : string) (index : Z) (cwd : string)
  : M (Z * string) :=
  let! parsed := lift (parse_params text index " (" EmptyString) in
  let '(end_, frame_params, fname) := parsed in
  if negb (truthy_str fname) then
    raise (MacroParsingError
             ("Missing filename: #UDGARRAY"
                ++ Str.slice text (Some index) (Some end_))%string)
  else
    let! resolved :=
      (fun w => (image_path w (default EmptyString fname) "UDGImagePath", w)) in
    match resolved with
    | None => raise TypeError
    | Some img_path =>
        let! need := (fun w => (Ok (need_image w img_path), w)) in
        let! written :=
          (if need : bool then
             let! looped :=
               for_each (frame_clause text index end_)
                 (Str.split ";" None (Str.slice frame_params (Some 1) None))
                 (32, []) in
             let! collected :=
               (fun w => (Ok (omap (fun id => frames w !! id) (snd looped)), w)) in
             write_animated_image img_path collected
           else ret tt) in
        ret (end_, img_element cwd img_path)
    end.

(** *** The direct-source form *)

(** The header: [parse_image_params(text, index, 8, (56, 2, 1, 0, 0, 0,
    1), None)], unpacked into the eight parameters. *)
Definition ua_header (w : HtmlWriter) (text : string) (index : Z)
  : result (ua_params * ua_state) :=
  let* parsed :=
    parse_image_params w text index 8
      [VInt 56; VInt 2; VInt 1; VInt 0; VInt 0; VInt 0; VInt 1]
      None EmptyString EmptyString None [] in
  let '(end_, fname, crop, params) := parsed in
  match params with
  | [width; def_attr; scale; def_step; def_inc; flip; rotate; mask_type] =>
      let* width := as_int width in
      let* def_attr := as_int def_attr in
      let* scale := as_int scale in
      let* def_step := as_int def_step in
      let* def_inc := as_int def_inc in
      let* flip := as_int flip in
      let* rotate := as_int rotate in
      let* mask_type := as_int mask_type in
      Ok (UaParams width def_attr scale def_step def_inc flip rotate mask_type,
          UaState end_ fname crop [[]] false)
  | _ => Raise ValueError
  end.

(** The optional mask part of a clause: [(end, fname, crop_rect,
    mask_addresses, mask_step)], with no addresses when the clause has
    no colon. *)
Definition ua_mask_part (fuel : nat) (w : HtmlWriter) (text : string)
    (width step : Z) (end_ : Z) (fname : option string) (crop : crop_rect)
  : result (Z * option string * crop_rect * list Z * Z) :=
  let* has_mask := char_at text end_ ":" in
  if has_mask : bool then
    let* parsed :=
      parse_image_params w text (end_ + 1) 2 [VInt step] None EmptyString "-x"
        (Some [1]) [] in
    let '(end_, fname, crop, params) := parsed in
    match params with
    | [mask_addr; mask_step] =>
        let* mask_addr := as_addr_spec mask_addr in
        let* mask_step := as_int mask_step in
        let* mask_addresses := _get_udg_addresses fuel mask_addr width in
        Ok (end_, fname, crop, mask_addresses, mask_step)
    | _ => Raise ValueError
    end
  else Ok (end_, fname, crop, [], 0).

(** The body of the [while end < len(text) and text[end] == ';'] loop:
    one source clause. *)
Definition ua_clause (fuel : nat) (w : HtmlWriter) (text : string) (p : ua_params)
    (st : ua_state) : result ua_state :=
  let* parsed :=
    parse_image_params w text (ua_end st + 1) 4
      [VInt (ua_def_attr p); VInt (ua_def_step p); VInt (ua_def_inc p)]
      None EmptyString "-x" (Some [1; 2; 3]) [] in
  let '(end_, fname, crop, params) := parsed in
  match params with
  | [address; attr; step; inc] =>
      let* address := as_addr_spec address in
      let* attr := as_int attr in
      let* step := as_int step in
      let* inc := as_int inc in
      let* udg_addresses := _get_udg_addresses fuel address (ua_width p) in
      let* masked := ua_mask_part fuel w text (ua_width p) step end_ fname crop in
      let '(end_, fname, crop, mask_addresses, mask_step) := masked in
      let has_masks := 0 <? Py.len mask_addresses in
      let* udg_array :=
        fold_result
          (fun udg_array um =>
             let* udg := build_udg w attr step inc mask_step (fst um) (snd um) in
             append_udg udg_array (ua_width p) udg)
          (zip udg_addresses (pad_masks udg_addresses mask_addresses))
          (ua_udg_array st) in
      Ok (UaState end_ fname crop udg_array has_masks)
  | _ => Raise ValueError
  end.

(** The [while] loop over the source clauses; [n] bounds its
    iterations. *)
Fixpoint ua_loop (n fuel : nat) (w : HtmlWriter) (text : string) (p : ua_params)
    (st : ua_state) : result ua_state :=
  let* more := char_at text (ua_end st) ";" in
  if more : bool then
    match n with
    | O => Raise OutOfFuel
    | S n => let* st' := ua_clause fuel w text p st in ua_loop n fuel w text p st'
    end
  else Ok st.

(** [self.frames[frame] = Frame(udg_array, scale, mask_type, *crop_rect)] *)
Definition store_frame (frame : string) (udg_array : list (list Udg.t))
    (scale mask_type : Z) (crop : crop_rect) : M unit :=
  let '(x, y, width, height) := crop in
  let! f :=
    lift (Frame.init udg_array scale (Frame.MaskInt mask_type) x y width height
            DEFAULT_DELAY) in
  fun w => (Ok tt, set_frames w (<[frame := f]> (frames w))).

(** The part of [expand_udgarray] after the loop. *)
Definition ua_finish (text : string) (index : Z) (cwd : string) (p : ua_params)
    (st : ua_state) : M (Z * string) :=
  let mask_type := if ua_has_masks st then ua_mask_type p else 0 in
  let end_ := ua_end st in
  if negb (truthy_str (ua_fname st)) then
    raise (MacroParsingError
             ("Missing filename: #UDGARRAY"
                ++ Str.slice text (Some index) (Some end_))%string)
  else
    let '(fname, sep, frame) := Str.partition "*" (default EmptyString (ua_fname st)) in
    let frame := if Str.truthy sep && negb (Str.truthy frame) then fname else frame in
    if negb (Str.truthy fname) && negb (Str.truthy frame) then
      raise (MacroParsingError
               ("Missing filename or frame ID: #UDGARRAY"
                  ++ Str.slice text (Some index) (Some end_))%string)
    else
      let! img_path := (fun w => (image_path w fname "UDGImagePath", w)) in
      let! need :=
        (fun w => (Ok (truthy_str img_path
                       && need_image w (default EmptyString img_path)), w)) in
      let! rendered :=
        (if Str.truthy frame || need then
           let! flipped :=
             lift (if truthy (ua_flip p) then flip_udgs (ua_udg_array st) (ua_flip p)
                   else Ok (ua_udg_array st)) in
           let! udg_array :=
             lift (if truthy (ua_rotate p) then rotate_udgs flipped (ua_rotate p)
                   else Ok flipped) in
           let! stored :=
             (if Str.truthy frame
              then store_frame frame udg_array (ua_scale p) mask_type (ua_crop st)
              else ret tt) in
           if need : bool then
             write_image (default EmptyString img_path) udg_array (ua_crop st)
               (ua_scale p) (Frame.MaskInt mask_type)
           else ret tt
         else ret tt) in
      if truthy_str img_path then
        ret (end_, img_element cwd (default EmptyString img_path))
      else ret (end_, EmptyString).

(** [HtmlWriter.expand_udgarray]; [fuel] bounds the iterations of each
    [while] loop. *)
Definition expand_udgarray (fuel : nat) (text : string) (index : Z) (cwd : string)
  : M (Z * string) :=
  let! framed := (fun w => (char_at text index "*", w)) in
  if framed : bool then _expand_udgarray_with_frames text index cwd
  else
    let! header := (fun w => (ua_header w text index, w)) in
    let! st := (fun w => (ua_loop fuel fuel w text (fst header) (snd header), w)) in
    ua_finish text index cwd (fst header) st.

End Macros.

(** ** Definitions used to state the properties *)

(** The entry of the flip table for [b]. *)
Definition flip_of (b : Z) : Z := default b (FLIP !! Z.to_nat b).

(** A list whose first [k] bytes have been replaced by their flip-table
    entries. *)
Definition flipped_to (k : nat) (l : list Z) : list Z :=
  map flip_of (take k l) ++ drop k l.

(** The values [b] takes in the loop of [_rotate_tile]: the bits of a
    byte, least significant first. *)
Definition planes : list Z := [1; 2; 4; 8; 16; 32; 64; 128].

(** The byte the inner loop of [_rotate_tile] builds from the outcomes of
    its bit tests: the first outcome ends up in bit 0. *)
Definition pack (outcomes : list bool) : Z :=
  fold_left (fun (rbyte : Z) (c : bool) => if c then rbyte / 2 + 128 else rbyte / 2)
    outcomes 0.

(** The bits of a byte, least significant first, as the bit test of
    [_rotate_tile] reads them. *)
Definition bits (d : Z) : list bool := map (fun b => truthy (Z.land d b)) planes.

(** What [_rotate_tile] returns for a bitmap: a row per bit plane, the
    most significant plane first. *)
Definition quarter_turn (tile_data : list Z) : list Z :=
  rev (map (fun b => Udg.rotate_byte b tile_data) planes).

(** The mask type the part of [expand_udgarray] after the loop hands to
    [Frame] and to [write_image]. *)
Definition passed_mask_type (p : ua_params) (st : ua_state) : Z :=
  if ua_has_masks st then ua_mask_type p else 0.

(** The frame identifier of a clause [id[,delay]] of the
    frame-composition form, as [frame_clause] splits it. *)
Definition clause_frame_id (frame_param : string) : string :=
  match Str.rsplit "," (Some 1%nat) frame_param with
  | [frame_id; _] => frame_id
  | _ => frame_param
  end.

(** The delay of a clause, when it has one, is an integer. *)
Definition clause_delay_ok (parse_int : string -> option Z) (frame_param : string)
  : bool :=
  match Str.rsplit "," (Some 1%nat) frame_param with
  | [_; delay_str] => bool_decide (is_Some (parse_int delay_str))
  | _ => true
  end.

(** A clause that [frame_clause] accepts: a valid delay, if any, and the
    identifier of a cached frame. *)
Definition clause_resolves (parse_int : string -> option Z)
    (cache : gmap string Frame.t) (frame_param : string) : Prop :=
  clause_delay_ok parse_int frame_param = true /\
  Str.truthy (clause_frame_id frame_param) = true /\
  is_Some (cache !! clause_frame_id frame_param).

(** A writer with no snapshot, no frames, no paths and no files. *)
Definition blank_writer : HtmlWriter :=
  MakeWriter ∅ 0%nat [] ∅ ∅ "png" EmptyString false ∅ [].

(** A tile of eight zero bytes. *)
Definition blank_udg : Udg.t := Udg.Make 56 [0; 0; 0; 0; 0; 0; 0; 0] None.

(** *** Reference collaborators

    Executable stand-ins for the parsers the macros are modelled over,
    used to run the macros on concrete text. *)

Fixpoint take_while {A} (f : A -> bool) (l : list A) : list A :=
  match l with
  | [] => []
  | a :: l => if f a then a :: take_while f l else []
  end.

(** Modelled from the spec: [skoolmacro.parse_params], which is not among
    the sources at hand.  The parameter string is the longest run of
    characters from [only_chars] (or, when that is empty, of characters
    outside [except_chars]) starting at [index]; a parenthesised text that
    follows it is [p_text]. *)
Definition ref_parse_params (text : string) (index : Z)
    (except_chars only_chars : string) : result (Z * string * option string) :=
  let rest := Str.chars (Str.slice text (Some index) None) in
  let allowed c :=
    if Str.truthy only_chars then Str.contains c only_chars
    else negb (Str.contains c except_chars) in
  let params := take_while allowed rest in
  let end_ := index + Py.len params in
  match drop (length params) rest with
  | "("%char :: after =>
      let p_text := take_while (fun c => negb (Ascii.eqb c ")")) after in
      match drop (length p_text) after with
      | _ :: _ => Ok (end_ + Py.len p_text + 2, Str.of_chars params,
                      Some (Str.of_chars p_text))
      | [] => Raise (MacroParsingError "No closing bracket")
      end
  | _ => Ok (end_, Str.of_chars params, None)
  end.

(** The value of the parameter at index [i]. *)
Definition ref_param_value (ints : option (list Z)) (i : Z) (p : string)
  : result pyval :=
  if negb (Str.truthy p) then Ok VNone
  else if match ints with None => true | Some l => bool_decide (i ∈ l) end then
    let* n := reraise_value_error (get_int_param p)
                ("Cannot parse integer '" ++ p ++ "'")%string in
    Ok (VInt n)
  else Ok (VStr p).

Fixpoint ref_param_values (ints : option (list Z)) (i : Z) (ps : list string)
  : result (list pyval) :=
  match ps with
  | [] => Ok []
  | p :: ps =>
      let* v := ref_param_value ints i p in
      let* vs := ref_param_values ints (i + 1) ps in
      Ok (v :: vs)
  end.

(** The defaults fill the blanks among the last [len(defaults)] of [num]
    values. *)
Fixpoint ref_fill_defaults (req : nat) (values defaults : list pyval) : list pyval :=
  match req, values with
  | O, v :: values =>
      match v, defaults with
      | VNone, d :: defaults => d :: ref_fill_defaults O values defaults
      | _, _ :: defaults => v :: ref_fill_defaults O values defaults
      | _, [] => v :: values
      end
  | O, [] => []
  | S req, v :: values => v :: ref_fill_defaults req values defaults
  | S req, [] => []
  end.

(** Modelled from the spec: [skoolmacro.get_params], which is not among
    the sources at hand.  Comma-separated values fill the parameter slots
    from the left, the defaults stand in for the blank trailing slots, and
    a value that must be an integer is a decimal or [$]-prefixed
    hexadecimal literal. *)
Definition ref_get_params (param_string : string) (num : Z) (defaults : list pyval)
    (ints : option (list Z)) (names : list string) : result (list pyval) :=
  let parts :=
    if Str.truthy param_string then Str.split "," None param_string else [] in
  let* values := ref_param_values ints 0 parts in
  let req := num - Py.len defaults in
  if Py.len values <? req then Raise (MacroParsingError "Not enough parameters")
  else
    let padded := values ++ repeat_list [VNone] (num - Py.len values) in
    Ok (ref_fill_defaults (Z.to_nat req) padded defaults).

(** Modelled from the spec: [skoolmacro.parse_ints] for the cropping
    rectangle, which is not among the sources at hand: four integers
    [x,y,width,height] with defaults [(0, 0, None, None)]. *)
Definition ref_parse_ints (text : string) (index : Z) : result (Z * crop_rect) :=
  let* parsed := ref_parse_params text index EmptyString "$0123456789abcdefABCDEF," in
  let '(end_, param_string, _) := parsed in
  let* values :=
    ref_get_params param_string 4 [VInt 0; VInt 0; VNone; VNone] None [] in
  match values with
  | [VInt x; VInt y; width; height] =>
      let opt v := match v with VInt z => Some z | _ => None end in
      Ok (end_, (x, y, opt width, opt height))
  | _ => Raise (MacroParsingError "Too many parameters")
  end.

(** Modelled from the spec: [parse_int] of the package module, which is
    not among the sources at hand: the integer, or [None]. *)
Definition ref_parse_int (num_str : string) : option Z :=
  match get_int_param num_str with
  | Ok n => Some n
  | Raise _ => None
  end.

(** A rendering of the image element that shows the path. *)
Definition ref_img_element (cwd image_path : string) : string :=
  ("<img src=" ++ image_path ++ " />")%string.

(** [expand_udgarray] over the reference collaborators. *)
Definition ref_expand_udgarray (fuel : nat) (text : string) (index : Z) (cwd : string)
  : M (Z * string) :=
  expand_udgarray ref_parse_params ref_get_params ref_parse_ints ref_parse_int
    ref_img_element fuel text index cwd.

(** A writer with a snapshot of 24 bytes whose image directory is
    [images/udgs]. *)
Definition demo_writer (replace_images : bool) (files : gset string) : HtmlWriter :=
  MakeWriter {[ 0%nat := [1; 2; 3; 4; 5; 6; 7; 8; 255; 254; 253; 252;
                           251; 250; 249; 248; 17; 18; 19; 20; 21; 22; 23; 24] ]}
    0%nat [(0%nat, EmptyString)] ∅
    {[ "UDGImagePath"%string := "images/udgs"%string ]}
    "png" "html" replace_images files [].

(** The path of the image [img] of [demo_writer], as a file. *)
Definition demo_files : gset string := {[ "html/images/udgs/img.png"%string ]}.

(** A tile-grid invocation of width 1 with two source clauses: the tile
    at 0 with its mask at 8, then the tile at 16 with no mask. *)
Definition demo_text : string := "1;0:8;16(img)".

(** The header parameters of [demo_text] (the defaults but for the
    width; the mask type is 1) and the states of the loop over its
    clauses on [demo_writer]. *)
Definition demo_params : ua_params := UaParams 1 56 2 1 0 0 0 1.

Definition demo_tile1 : Udg.t :=
  Udg.Make 56 [1; 2; 3; 4; 5; 6; 7; 8] (Some [255; 254; 253; 252; 251; 250; 249; 248]).

Definition demo_tile2 : Udg.t := Udg.Make 56 [17; 18; 19; 20; 21; 22; 23; 24] None.

Definition demo_state0 : ua_state :=
  UaState 1 (Some EmptyString) (0, 0, None, None) [[]] false.

Definition demo_state1 : ua_state :=
  UaState 5 (Some EmptyString) (0, 0, None, None) [[demo_tile1]] true.

Definition demo_state2 : ua_state :=
  UaState 13 (Some "img"%string) (0, 0, None, None) [[demo_tile1]; [demo_tile2]] false.

(** [demo_writer] with the frame [f1] in its cache. *)
Definition demo_writer_with_frame (replace_images : bool) (files : gset string)
  : HtmlWriter :=
  set_frames (demo_writer replace_images files)
    {[ "f1"%string :=
         Frame.Make [[demo_tile2]] 2 0 0 0 16 16 16 16 DEFAULT_DELAY 0 ]}.

(** ** Further definitions used to state the properties *)

(** The bitmap or mask of a tile after [flip] with mode [m]: the bytes
    replaced by their flip-table entries when bit 0 is set, then the rows
    reversed when bit 1 is set. *)
Definition flip_rows (m : Z) (l : list Z) : list Z :=
  let l := if truthy (Z.land m 1) then map flip_of l else l in
  if truthy (Z.land m 2) then rev l else l.

(** A tile of the data model after [flip] with mode [m]. *)
Definition flipped_tile (m : Z) (u : Udg.t) : Udg.t :=
  Udg.Make (Udg.attr u) (flip_rows m (Udg.data u)) (flip_rows m <$> Udg.mask u).

(** The bitmap or mask of a tile after [n] quarter turns. *)
Fixpoint quarter_turns (n : nat) (l : list Z) : list Z :=
  match n with
  | O => l
  | S n => quarter_turns n (quarter_turn l)
  end.

(** A grid whose tiles are all tiles of the data model. *)
Definition grid_wf (udgs : list (list Udg.t)) : Prop := Forall (Forall Udg.wf) udgs.

(** A grid after [flip_udgs] with mode [m], its tiles being tiles of the
    data model: the tiles flipped, each row reversed when bit 0 is set,
    the rows reversed when bit 1 is set. *)
Definition flipped_grid (m : Z) (udgs : list (list Udg.t)) : list (list Udg.t) :=
  let udgs := map (map (flipped_tile m)) udgs in
  let udgs := if truthy (Z.land m 1) then map (@rev Udg.t) udgs else udgs in
  if truthy (Z.land m 2) then rev udgs else udgs.

(** The [k]-th address of a range read in rows of [width] addresses:
    [k mod width] horizontal steps and [k / width] vertical steps away from
    the first address. *)
Definition nth_address (address h_step v_step width k : Z) : Z :=
  address + (k mod width) * h_step + (k / width) * v_step.

(** The operations of the snapshot macros, one after the other: [#PUSHS]
    ([push_snapshot]), a one-byte [#POKES] ([poke]) and [#POPS]
    ([pop_snapshot]). *)
Inductive snapshot_op :=
| OpPush (name : string)
| OpPoke (addr v : Z)
| OpPop.

Definition run_op (op : snapshot_op) : M unit :=
  match op with
  | OpPush name => push_snapshot name
  | OpPoke addr v => poke addr v
  | OpPop => pop_snapshot
  end.

Fixpoint run_ops (ops : list snapshot_op) : M unit :=
  match ops with
  | [] => ret tt
  | op :: ops => let! done := run_op op in run_ops ops
  end.

(** The operations are well nested above [depth] saved snapshots: no pop
    takes more than was pushed, and all that was pushed is popped. *)
Fixpoint nested (depth : nat) (ops : list snapshot_op) : bool :=
  match ops with
  | [] => Nat.eqb depth 0
  | OpPush _ :: ops => nested (S depth) ops
  | OpPoke _ _ :: ops => nested depth ops
  | OpPop :: ops =>
      match depth with
      | O => false
      | S depth => nested depth ops
      end
  end.

(** The address of a poke is an index of a list of [n] bytes. *)
Definition poke_in_range (n : Z) (op : snapshot_op) : bool :=
  match op with
  | OpPoke addr _ => (- n <=? addr) && (addr <? n)
  | _ => true
  end.

(** The saved entries [entries] are set apart in [w]: they are distinct
    list objects, none of them the current snapshot, each with as many
    bytes as the current snapshot. *)
Definition set_apart (w : HtmlWriter) (entries : list (nat * string)) : Prop :=
  is_Some (heap w !! snapshot w) /\
  NoDup (map fst entries) /\
  ~ In (snapshot w) (map fst entries) /\
  Forall (fun e => exists bytes, heap w !! fst e = Some bytes /\
                                 length bytes = length (current w)) entries.

(** ** Blank lines ([HtmlWriter._remove_blank_lines]) *)

Definition newline : ascii := ascii_of_nat 10.

(** [html.replace('\n\n', '\n')]: the occurrences that do not overlap,
    from the left, each replaced by one newline. *)
Fixpoint replace_blank (html : string) : string :=
  match html with
  | String a (String b rest as tl) =>
      if Ascii.eqb a newline && Ascii.eqb b newline
      then String newline (replace_blank rest)
      else String a (replace_blank tl)
  | _ => html
  end.

(** ['\n\n' in html] *)
Fixpoint has_blank (html : string) : bool :=
  match html with
  | String a (String b _ as tl) =>
      (Ascii.eqb a newline && Ascii.eqb b newline) || has_blank tl
  | _ => false
  end.

(** [HtmlWriter._remove_blank_lines]; [fuel] bounds the iterations of the
    [while] loop. *)
Fixpoint _remove_blank_lines (fuel : nat) (html : string) : result string :=
  if has_blank html then
    match fuel with
    | O => Raise OutOfFuel
    | S fuel => _remove_blank_lines fuel (replace_blank html)
    end
  else Ok html.

(** The text with every run of newlines cut down to one newline: a
    newline that another newline follows is left out. *)
Fixpoint squeeze (html : string) : string :=
  match html with
  | String a (String b _ as tl) =>
      if Ascii.eqb a newline && Ascii.eqb b newline then squeeze tl
      else String a (squeeze tl)
  | _ => html
  end.

(** The characters of the text that are not newlines. *)
Fixpoint visible (html : string) : string :=
  match html with
  | EmptyString => EmptyString
  | String a tl => if Ascii.eqb a newline then visible tl else String a (visible tl)
  end.

(** ** Font and screen tiles *)

(** [HtmlWriter.get_font_udg_array]: a slice never raises, so neither
    does the method. *)
Definition get_font_udg_array (w : HtmlWriter) (address attr : Z) (message : string)
  : list (list Udg.t) :=
  [map (fun c =>
          let a := address + 8 * (Z.of_nat (nat_of_ascii c) - 32) in
          Udg.Make attr (slice_step (current w) a (a + 8) 1) None)
       (Str.chars message)].

(** The address of pixel row [n] of the screen tile at [(row, col)], for
    a display file at [df_addr]. *)
Definition screen_byte_address (df_addr row col n : Z) : Z :=
  df_addr + 2048 * (row / 8) + 32 * (row mod 8) + col + 256 * n.

(** ** The grid of a tile-grid macro *)

(** A grid filled in rows of [width] tiles: every row but the last holds
    [width] tiles, and the last row at most [width]. *)
Definition rows_filled (width : Z) (g : list (list Udg.t)) : Prop :=
  exists rows last_row,
    g = rows ++ [last_row] /\
    Forall (fun r => Py.len r = width) rows /\
    Py.len last_row <= width.

(** ** Image file names *)

(** The last four characters of a text, in lower case: what
    [image_path] and [_get_image_format] compare with [.png] and
    [.gif]. *)
Definition image_ext (s : string) : string :=
  Str.of_chars (map Str.lower_char (drop (length (Str.chars s) - 4) (Str.chars s))).

(** ** The screenshot macro *)

Section ScreenMacro.

(** The collaborators of the image macros, as for [#UDGARRAY]. *)
Variable parse_params :
string -> Z -> string -> string -> result (Z * string * option string).
Variable get_params :
string -> Z -> list pyval -> option (list Z) -> list string -> result (list pyval).
Variable parse_ints : string -> Z -> result (Z * crop_rect).
Variable img_element : string -> string -> string.

(** The call of [parse_image_params] that [expand_scr] makes. *)
Definition scr_params (w : HtmlWriter) (text : string) (index : Z)
: result (Z * option string * crop_rect * list pyval) :=
parse_image_params parse_params get_params parse_ints w text index 7
  [VInt 1; VInt 0; VInt 0; VInt 32; VInt 24; VInt 16384; VInt 22528]
  (Some "ScreenshotImagePath"%string) "scr" EmptyString None [].

(** [HtmlWriter.expand_scr].  The seven parameters are unpacked from what
  the parser returns, and read as integers where the image is built. *)
Definition expand_scr (text : string) (index : Z) (cwd : string) : M (Z * string) :=
let! parsed := (fun w => (scr_params w text index, w)) in
let '(end_, scr_path, crop, params) := parsed in
match params with
| [scale; x; y; w_; h; df_addr; af_addr] =>
    match scr_path with
    | None => raise TypeError
    | Some scr_path =>
        let! need := (fun w => (Ok (need_image w scr_path), w)) in
        let! written :=
          (if need : bool then
             let! udgs :=
               (fun w =>
                  ((let* x := as_int x in
                    let* y := as_int y in
                    let* w_ := as_int w_ in
                    let* h := as_int h in
                    let* df_addr := as_int df_addr in
                    let* af_addr := as_int af_addr in
                    screenshot w x y w_ h df_addr af_addr), w)) in
             let! scale := lift (as_int scale) in
             write_image scr_path udgs crop scale (Frame.MaskBool false)
           else ret tt) in
        ret (end_, img_element cwd scr_path)
    end
| _ => raise ValueError
end.

End ScreenMacro.

(** [expand_scr] over the reference collaborators. *)
Definition ref_expand_scr (text : string) (index : Z) (cwd : string) : M (Z * string) :=
  expand_scr ref_parse_params ref_get_params ref_parse_ints ref_img_element
    text index cwd.

(** A writer with a snapshot of 768 bytes whose screenshot directory is
    [images/scr]. *)
Definition scr_writer (replace_images : bool) (files : gset string) : HtmlWriter :=
  MakeWriter {[ 0%nat := replicate 768 7 ]} 0%nat [(0%nat, EmptyString)] ∅
    {[ "ScreenshotImagePath"%string := "images/scr"%string ]}
    "png" "html" replace_images files [].

(** ** The delays of a frame composition *)

(** The identifier and the delay of each frame clause: a clause without
    a delay takes the delay of the nearest clause before it that has one,
    or [dflt] when there is none. *)
Fixpoint clause_delays (parse_int : string -> option Z) (dflt : Z)
    (clauses : list string) : list (string * Z) :=
  match clauses with
  | [] => []
  | c :: cs =>
      match Str.rsplit "," (Some 1%nat) c with
      | [frame_id; delay_str] =>
          let d := default dflt (parse_int delay_str) in
          (frame_id, d) :: clause_delays parse_int d cs
      | _ => (c, dflt) :: clause_delays parse_int dflt cs
      end
  end.

(** The last delay that the pairs give to the frame [id], or [d0] when
    they give it none. *)
Definition last_delay (pairs : list (string * Z)) (id : string) (d0 : Z) : Z :=
  fold_left (fun d p => if String.eqb (fst p) id then snd p else d) pairs d0.

(** The cache of frames after the delays of the pairs are set, in
    order. *)
Fixpoint set_delays (pairs : list (string * Z)) (cache : gmap string Frame.t)
  : gmap string Frame.t :=
  match pairs with
  | [] => cache
  | p :: ps =>
      set_delays ps
        match cache !! fst p with
        | Some f => <[fst p := Frame.set_delay f (snd p)]> cache
        | None => cache
        end
  end.

(** ** Rotations of a grid *)

(** A tile of the data model after [n] quarter turns. *)
Definition turned_tile (n : nat) (u : Udg.t) : Udg.t :=
  Udg.Make (Udg.attr u) (quarter_turns n (Udg.data u))
    (quarter_turns n <$> Udg.mask u).

(** The grid of [rows] rows and [cols] columns that has the tile [f i j]
    in row [i] and column [j]. *)
Definition grid_of (rows cols : nat) (f : nat -> nat -> Udg.t) : list (list Udg.t) :=
  map (fun i => map (f i) (seq 0 cols)) (seq 0 rows).

(** The tile in row [i] and column [j] of a grid. *)
Definition tile_at (g : list (list Udg.t)) (i j : nat) : Udg.t :=
  nth j (nth i g []) blank_udg.

(** A grid of [rows] rows of [cols] tiles each. *)
Definition rectangular (rows cols : nat) (g : list (list Udg.t)) : Prop :=
  length g = rows /\ Forall (fun row => length row = cols) g.

(** The grid [grid_of rows cols f] after [k] quarter turns clockwise,
    tiles and arrangement. *)
Definition rotated_grid (k rows cols : nat) (f : nat -> nat -> Udg.t)
  : list (list Udg.t) :=
  match k with
  | 0%nat => grid_of rows cols f
  | 1%nat => grid_of cols rows (fun i j => turned_tile 1 (f (rows - 1 - j)%nat i))
  | 2%nat =>
      grid_of rows cols
        (fun i j => turned_tile 2 (f (rows - 1 - i)%nat (cols - 1 - j)%nat))
  | _ => grid_of cols rows (fun i j => turned_tile 3 (f j (cols - 1 - i)%nat))
  end.

(** * Properties *)

(** ** Python sequences *)

Lemma norm_index_nat (n : nat) (len : Z) :
  Z.of_nat n < len -> norm_index len (Z.of_nat n) = Some n.
Proof.
  intros Hn. unfold norm_index.
  destruct (Z.ltb_spec (Z.of_nat n) 0) as [?|_]; [lia|].
  destruct (Z.leb_spec 0 (Z.of_nat n)) as [_|?]; [|lia].
  destruct (Z.ltb_spec (Z.of_nat n) len) as [_|?]; [|lia].
  simpl. by rewrite Nat2Z.id.
Qed.

Lemma getitem_nat {A} (l : list A) (n : nat) (x : A) :
  l !! n = Some x -> getitem l (Z.of_nat n) = Ok x.
Proof.
  intros Hx. unfold getitem, Py.len.
  rewrite norm_index_nat; [by rewrite Hx|].
  apply lookup_lt_Some in Hx. lia.
Qed.

Lemma norm_index_in_range (len i : Z) :
  - len <= i < len -> exists j, norm_index len i = Some j /\ (Z.of_nat j < len).
Proof.
  intros Hi. unfold norm_index.
  destruct (i <? 0) eqn:E; [apply Z.ltb_lt in E | apply Z.ltb_ge in E].
  - replace (0 <=? i + len) with true by (symmetry; apply Z.leb_le; lia).
    replace (i + len <? len) with true by (symmetry; apply Z.ltb_lt; lia).
    simpl. eexists. split; [done|lia].
  - replace (0 <=? i) with true by (symmetry; apply Z.leb_le; lia).
    replace (i <? len) with true by (symmetry; apply Z.ltb_lt; lia).
    simpl. eexists. split; [done|lia].
Qed.

Lemma getitem_in_range {A} (l : list A) (i : Z) :
  - Py.len l <= i < Py.len l -> exists x, getitem l i = Ok x.
Proof.
  intros Hi. unfold getitem.
  destruct (norm_index_in_range _ _ Hi) as (j & -> & Hj).
  destruct (lookup_lt_is_Some_2 l j) as [x ->]; [unfold Py.len in Hj; lia|].
  eauto.
Qed.

Lemma setitem_nat {A} (l : list A) (n : nat) (v : A) :
  (n < length l)%nat -> setitem l (Z.of_nat n) v = Ok (<[n:=v]> l).
Proof.
  intros Hn. unfold setitem, Py.len. rewrite norm_index_nat; [done|lia].
Qed.

Lemma range_0_nat (n : nat) : range 0 (Z.of_nat n) = map Z.of_nat (seq 0 n).
Proof.
  unfold range. rewrite Z.sub_0_r, Nat2Z.id. apply map_ext. intros; lia.
Qed.

Lemma truthy_list_length {A} (l : list A) :
  (0 < length l)%nat -> truthy_list (Some l) = true.
Proof. destruct l; simpl; [lia|done]. Qed.

(** ** Tiles: flipping *)

Lemma FLIP_table_checked :
  forallb
    (fun n =>
       let f := flip_of (Z.of_nat n) in
       (0 <=? f) && (f <? 256) && (flip_of f =? Z.of_nat n)
       && bool_decide (FLIP !! n = Some f))
    (seq 0 256) = true.
Proof. vm_compute. reflexivity. Qed.

Lemma FLIP_byte (b : Z) :
  Udg.is_byte b ->
  Udg.is_byte (flip_of b) /\ flip_of (flip_of b) = b
  /\ FLIP !! Z.to_nat b = Some (flip_of b).
Proof.
  intros [Hlo Hhi].
  pose proof FLIP_table_checked as Hall.
  rewrite forallb_forall in Hall.
  specialize (Hall (Z.to_nat b)).
  rewrite Z2Nat.id in Hall by lia.
  assert (Hin : In (Z.to_nat b) (seq 0 256)) by (apply in_seq; lia).
  apply Hall in Hin.
  repeat (apply andb_prop in Hin as [Hin ?]).
  apply bool_decide_eq_true in H.
  unfold Udg.is_byte. repeat split; try lia; done.
Qed.

Lemma getitem_FLIP (b : Z) : Udg.is_byte b -> getitem FLIP b = Ok (flip_of b).
Proof.
  intros Hb. destruct (FLIP_byte b Hb) as (_ & _ & Hl).
  rewrite <- (Z2Nat.id b) at 1 by (destruct Hb; lia).
  by apply getitem_nat.
Qed.

Lemma map_flip_of_involutive (l : list Z) :
  Forall Udg.is_byte l -> map flip_of (map flip_of l) = l.
Proof.
  induction 1 as [|b l Hb _ IH]; simpl; [done|].
  rewrite IH. by destruct (FLIP_byte b Hb) as (_ & -> & _).
Qed.

Lemma map_flip_of_bytes (l : list Z) :
  Forall Udg.is_byte l -> Forall Udg.is_byte (map flip_of l).
Proof.
  induction 1 as [|b l Hb _ IH]; simpl; constructor; [|done].
  by destruct (FLIP_byte b Hb).
Qed.

Lemma flipped_to_length k l : length (flipped_to k l) = length l.
Proof.
  unfold flipped_to. rewrite length_app, length_map, length_take, length_drop. lia.
Qed.

Lemma flipped_to_lookup k l x :
  l !! k = Some x -> flipped_to k l !! k = Some x.
Proof.
  intros Hx. unfold flipped_to.
  pose proof (lookup_lt_Some _ _ _ Hx) as Hk.
  rewrite lookup_app_r; rewrite length_map, length_take; [|lia].
  replace (k - k `min` length l)%nat with 0%nat by lia.
  rewrite lookup_drop. by rewrite Nat.add_0_r.
Qed.

Lemma flipped_to_step k l x :
  l !! k = Some x -> <[k := flip_of x]> (flipped_to k l) = flipped_to (S k) l.
Proof.
  intros Hx. unfold flipped_to.
  pose proof (lookup_lt_Some _ _ _ Hx) as Hk.
  rewrite insert_app_r_alt; rewrite length_map, length_take; [|lia].
  replace (k - k `min` length l)%nat with 0%nat by lia.
  rewrite (drop_S _ _ _ Hx). simpl.
  rewrite (take_S_r _ _ _ Hx), map_app. simpl.
  by rewrite <- app_assoc.
Qed.

Lemma flip_byte_step (a : Z) (d : list Z) (m : option (list Z)) (k : nat) :
  (k < length d)%nat -> Forall Udg.is_byte d ->
  match m with
  | Some m => length m = length d /\ Forall Udg.is_byte m
  | None => True
  end ->
  Udg.flip_byte (Udg.Make a (flipped_to k d) (flipped_to k <$> m)) (Z.of_nat k)
  = Ok (Udg.Make a (flipped_to (S k) d) (flipped_to (S k) <$> m)).
Proof.
  intros Hk Hd Hm.
  destruct (lookup_lt_is_Some_2 d k Hk) as [x Hx].
  assert (Udg.is_byte x) as Hbx.
  { rewrite Forall_lookup in Hd. eauto. }
  unfold Udg.flip_byte. simpl.
  rewrite (getitem_nat _ _ _ (flipped_to_lookup _ _ _ Hx)). simpl.
  rewrite getitem_FLIP by done. simpl.
  rewrite setitem_nat by (rewrite flipped_to_length; lia). simpl.
  rewrite flipped_to_step by done.
  destruct m as [m|]; simpl; [|done].
  destruct Hm as [Hlen Hbm].
  assert (k < length m)%nat as Hkm by lia.
  destruct (lookup_lt_is_Some_2 m k Hkm) as [y Hy].
  assert (Udg.is_byte y) as Hby.
  { rewrite Forall_lookup in Hbm. eauto. }
  change (match flipped_to k m with [] => false | _ :: _ => true end)
    with (truthy_list (Some (flipped_to k m))).
  rewrite truthy_list_length by (rewrite flipped_to_length; lia).
  rewrite (getitem_nat _ _ _ (flipped_to_lookup _ _ _ Hy)). simpl.
  rewrite getitem_FLIP by done. simpl.
  rewrite setitem_nat by (rewrite flipped_to_length; lia). simpl.
  by rewrite flipped_to_step.
Qed.

Lemma flip_bytes_from (a : Z) (d : list Z) (m : option (list Z)) (n k : nat) :
  (k + n = length d)%nat -> Forall Udg.is_byte d ->
  match m with
  | Some m => length m = length d /\ Forall Udg.is_byte m
  | None => True
  end ->
  Udg.flip_bytes (Udg.Make a (flipped_to k d) (flipped_to k <$> m))
    (map Z.of_nat (seq k n))
  = Ok (Udg.Make a (map flip_of d) (map flip_of <$> m)).
Proof.
  revert k. induction n as [|n IH]; intros k Hkn Hd Hm; simpl.
  - unfold flipped_to. rewrite Nat.add_0_r in Hkn. subst k.
    rewrite firstn_all, drop_all, app_nil_r.
    destruct m as [m|]; simpl; [|done].
    destruct Hm as [<- _]. by rewrite firstn_all, drop_all, app_nil_r.
  - rewrite flip_byte_step by (done || lia). simpl.
    apply IH; [lia|done|done].
Qed.

(** Flipping the bytes of a tile of the data model applies the table to
    every byte of the bitmap and of the mask. *)
Lemma flip_bytes_wf (u : Udg.t) :
  Udg.wf u ->
  Udg.flip_bytes u (range 0 8)
  = Ok (Udg.Make (Udg.attr u) (map flip_of (Udg.data u)) (map flip_of <$> Udg.mask u)).
Proof.
  intros (Hlen & Hd & Hm). destruct u as [a d m]; simpl in *.
  replace (range 0 8) with (map Z.of_nat (seq 0 8)) by reflexivity.
  assert (Hm' : match m with
                | Some m => length m = length d /\ Forall Udg.is_byte m
                | None => True
                end).
  { destruct m; [|done]. destruct Hm. split; [congruence|done]. }
  destruct m as [m|].
  - exact (flip_bytes_from a d (Some m) 8 0 ltac:(simpl; lia) Hd Hm').
  - exact (flip_bytes_from a d None 8 0 ltac:(simpl; lia) Hd I).
Qed.

Lemma wf_flipped (a : Z) (d : list Z) (m : option (list Z)) :
  Udg.wf (Udg.Make a d m) -> Udg.wf (Udg.Make a (map flip_of d) (map flip_of <$> m)).
Proof.
  intros (Hlen & Hd & Hm); simpl in *. repeat split; simpl.
  - by rewrite length_map.
  - by apply map_flip_of_bytes.
  - destruct m as [m|]; simpl; [|done]. destruct Hm.
    split; [by rewrite length_map | by apply map_flip_of_bytes].
Qed.

Lemma wf_reversed (a : Z) (d : list Z) (m : option (list Z)) :
  Udg.wf (Udg.Make a d m) -> Udg.wf (Udg.Make a (rev d) (@rev Z <$> m)).
Proof.
  intros (Hlen & Hd & Hm); simpl in *. repeat split; simpl.
  - by rewrite length_rev.
  - by apply Forall_rev.
  - destruct m as [m|]; simpl; [|done]. destruct Hm.
    split; [by rewrite length_rev | by apply Forall_rev].
Qed.

(** On a tile of the data model the mask test [if self.mask:] succeeds
    exactly when there is a mask. *)
Lemma wf_mask_truthy (u : Udg.t) :
  Udg.wf u ->
  (if truthy_list (Udg.mask u) then option_map (@rev Z) (Udg.mask u) else Udg.mask u)
  = (@rev Z <$> Udg.mask u).
Proof.
  intros (_ & _ & Hm). destruct (Udg.mask u) as [m|]; [|done].
  destruct Hm as [Hlen _]. destruct m; [done|done].
Qed.

(** What [flip] returns for each mode, on a tile of the data model. *)
Lemma flip_wf (u : Udg.t) (m : Z) :
  Udg.wf u -> m = 1 \/ m = 2 \/ m = 3 ->
  Udg.flip u m =
  Ok (Udg.Make (Udg.attr u)
        (if m =? 1 then map flip_of (Udg.data u)
         else if m =? 2 then rev (Udg.data u)
         else rev (map flip_of (Udg.data u)))
        (if m =? 1 then map flip_of <$> Udg.mask u
         else if m =? 2 then @rev Z <$> Udg.mask u
         else @rev Z <$> (map flip_of <$> Udg.mask u))).
Proof.
  intros Hwf [-> | [-> | ->]]; unfold Udg.flip.
  - change (truthy (Z.land 1 1)) with true.
    change (truthy (Z.land 1 2)) with false. cbv iota.
    by rewrite flip_bytes_wf.
  - change (truthy (Z.land 2 1)) with false.
    change (truthy (Z.land 2 2)) with true. cbv iota. simpl.
    by rewrite wf_mask_truthy.
  - change (truthy (Z.land 3 1)) with true.
    change (truthy (Z.land 3 2)) with true. cbv iota.
    rewrite flip_bytes_wf by done.
    destruct u as [a d mk].
    pose proof (wf_mask_truthy _ (wf_flipped a d mk Hwf)) as Hmask.
    cbn [Py.bind Udg.attr Udg.data Udg.mask] in *.
    by rewrite Hmask.
Qed.

(** C5: for every tile of the data model, with or without a mask, and
    every flip mode 1, 2 or 3, flipping twice with that mode gives back
    the tile: the same attribute, bitmap and mask. *)
Theorem flip_twice_is_identity (u : Udg.t) (m : Z) :
  Udg.wf u -> m = 1 \/ m = 2 \/ m = 3 ->
  (let* u' := Udg.flip u m in Udg.flip u' m) = Ok u.
Proof.
  intros Hwf Hm. destruct u as [a d mk].
  pose proof Hwf as (Hlen & Hd & Hmk). simpl in Hlen, Hd, Hmk.
  rewrite (flip_wf _ m Hwf Hm). simpl.
  destruct Hm as [-> | [-> | ->]]; simpl.
  - rewrite (flip_wf _ 1 (wf_flipped a d mk Hwf)) by auto. simpl.
    rewrite map_flip_of_involutive by done.
    destruct mk as [mk|]; simpl; [|done].
    destruct Hmk. by rewrite map_flip_of_involutive.
  - rewrite (flip_wf _ 2 (wf_reversed a d mk Hwf)) by auto. simpl.
    rewrite rev_involutive.
    destruct mk as [mk|]; simpl; [|done]. by rewrite rev_involutive.
  - pose proof (wf_reversed _ _ _ (wf_flipped a d mk Hwf)) as Hwf'.
    rewrite (flip_wf _ 3 Hwf') by auto. simpl.
    rewrite map_rev, rev_involutive, map_flip_of_involutive by done.
    destruct mk as [mk|]; simpl; [|done].
    destruct Hmk. by rewrite map_rev, rev_involutive, map_flip_of_involutive.
Qed.

Lemma flip_twice_is_identity_witness :
  let u := Udg.Make 56 [1; 2; 4; 8; 16; 32; 64; 255]
             (Some [128; 0; 3; 0; 0; 7; 0; 1]) in
  (let* u' := Udg.flip u 3 in Udg.flip u' 3) = Ok u.
Proof.
  apply flip_twice_is_identity.
  - unfold Udg.wf, Udg.is_byte; simpl.
    repeat split; repeat constructor; lia.
  - right; right; reflexivity.
Defined.

(** ** Tiles: rotating *)

(** The loop of [_rotate_tile] ends within its eight iterations. *)
Lemma _rotate_tile_total (tile_data : list Z) :
  Udg._rotate_tile tile_data
  = Ok (rev (map (fun b => Udg.rotate_byte b tile_data) [1; 2; 4; 8; 16; 32; 64; 128])).
Proof. reflexivity. Qed.

Lemma rotate_once_total (u : Udg.t) : exists u', Udg.rotate_once u = Ok u'.
Proof.
  unfold Udg.rotate_once. rewrite _rotate_tile_total.
  destruct (Udg.mask u) as [m|].
  - rewrite (_rotate_tile_total m).
    destruct (truthy_list (Some m)); cbn [Py.bind]; eauto.
  - cbn [Py.bind truthy_list]. eauto.
Qed.

(** C6: for every tile, [rotate] with 4 returns the tile itself, and
    rotating by 1 twice is rotating by 2, mask included; the rotations
    return a tile, they do not raise. *)
Theorem rotate_four_and_twice (u : Udg.t) :
  Udg.rotate u 4 = Ok u /\
  (let* u' := Udg.rotate u 1 in Udg.rotate u' 1) = Udg.rotate u 2 /\
  exists u2, Udg.rotate u 2 = Ok u2.
Proof.
  split; [reflexivity|].
  unfold Udg.rotate. simpl.
  destruct (rotate_once_total u) as [u1 H1]. rewrite H1. simpl.
  destruct (rotate_once_total u1) as [u2 H2]. rewrite H2. simpl.
  split; [reflexivity|eauto].
Qed.

(** *** Rotation as a quarter turn

    The specification adds that two rotations are the flip of both axes
    and four are the identity; on the tiles of the data model the bit
    shuffling of [_rotate_tile] has these properties. *)

Lemma rotate_byte_pack (b : Z) (tile_data : list Z) :
  Udg.rotate_byte b tile_data = pack (map (fun d => truthy (Z.land d b)) tile_data).
Proof.
  unfold Udg.rotate_byte, pack. generalize 0.
  induction tile_data as [|d l IH]; intros acc; simpl; [done|].
  rewrite <- IH. by destruct (truthy (Z.land d b)).
Qed.

Ltac by_all_bits :=
  intros;
  repeat match goal with c : bool |- _ => destruct c end;
  vm_compute; reflexivity.

Lemma pack_bit_0 c0 c1 c2 c3 c4 c5 c6 c7 :
  truthy (Z.land (pack [c0; c1; c2; c3; c4; c5; c6; c7]) 1) = c0.
Proof. by_all_bits. Qed.
Lemma pack_bit_1 c0 c1 c2 c3 c4 c5 c6 c7 :
  truthy (Z.land (pack [c0; c1; c2; c3; c4; c5; c6; c7]) 2) = c1.
Proof. by_all_bits. Qed.
Lemma pack_bit_2 c0 c1 c2 c3 c4 c5 c6 c7 :
  truthy (Z.land (pack [c0; c1; c2; c3; c4; c5; c6; c7]) 4) = c2.
Proof. by_all_bits. Qed.
Lemma pack_bit_3 c0 c1 c2 c3 c4 c5 c6 c7 :
  truthy (Z.land (pack [c0; c1; c2; c3; c4; c5; c6; c7]) 8) = c3.
Proof. by_all_bits. Qed.
Lemma pack_bit_4 c0 c1 c2 c3 c4 c5 c6 c7 :
  truthy (Z.land (pack [c0; c1; c2; c3; c4; c5; c6; c7]) 16) = c4.
Proof. by_all_bits. Qed.
Lemma pack_bit_5 c0 c1 c2 c3 c4 c5 c6 c7 :
  truthy (Z.land (pack [c0; c1; c2; c3; c4; c5; c6; c7]) 32) = c5.
Proof. by_all_bits. Qed.
Lemma pack_bit_6 c0 c1 c2 c3 c4 c5 c6 c7 :
  truthy (Z.land (pack [c0; c1; c2; c3; c4; c5; c6; c7]) 64) = c6.
Proof. by_all_bits. Qed.
Lemma pack_bit_7 c0 c1 c2 c3 c4 c5 c6 c7 :
  truthy (Z.land (pack [c0; c1; c2; c3; c4; c5; c6; c7]) 128) = c7.
Proof. by_all_bits. Qed.

(** The flip table reverses the bits of a byte. *)
Lemma flip_of_pack c0 c1 c2 c3 c4 c5 c6 c7 :
  flip_of (pack [c0; c1; c2; c3; c4; c5; c6; c7])
  = pack [c7; c6; c5; c4; c3; c2; c1; c0].
Proof. by_all_bits. Qed.

Lemma bytes_pack_checked :
  forallb (fun n => pack (bits (Z.of_nat n)) =? Z.of_nat n) (seq 0 256) = true.
Proof. vm_compute. reflexivity. Qed.

(** A byte is the packing of its eight bits. *)
Lemma byte_unpack (d : Z) :
  Udg.is_byte d ->
  exists c0 c1 c2 c3 c4 c5 c6 c7, d = pack [c0; c1; c2; c3; c4; c5; c6; c7].
Proof.
  intros [Hlo Hhi].
  pose proof bytes_pack_checked as Hall. rewrite forallb_forall in Hall.
  specialize (Hall (Z.to_nat d)). rewrite Z2Nat.id in Hall by lia.
  assert (In (Z.to_nat d) (seq 0 256)) as Hin by (apply in_seq; lia).
  apply Hall, Z.eqb_eq in Hin. unfold bits, planes in Hin. simpl map in Hin.
  do 8 eexists. symmetry. exact Hin.
Qed.

(** Two quarter turns of a bitmap: the rows in reverse order, each with
    its bits reversed. *)
Lemma _rotate_tile_twice (tile_data : list Z) :
  length tile_data = 8%nat -> Forall Udg.is_byte tile_data ->
  (let* once := Udg._rotate_tile tile_data in Udg._rotate_tile once)
  = Ok (rev (map flip_of tile_data)).
Proof.
  intros Hlen Hbytes.
  destruct tile_data as [|d0 [|d1 [|d2 [|d3 [|d4 [|d5 [|d6 [|d7 [|]]]]]]]]];
    try discriminate.
  repeat match goal with
         | H : Forall _ (_ :: _) |- _ => inversion H; clear H; subst
         end.
  repeat match goal with
         | H : Udg.is_byte ?d |- _ =>
             let E := fresh in
             destruct (byte_unpack d H) as (? & ? & ? & ? & ? & ? & ? & ? & E);
             clear H; subst d
         end.
  rewrite _rotate_tile_total. cbn [Py.bind]. rewrite _rotate_tile_total.
  f_equal. cbn [map rev app]. rewrite !rotate_byte_pack. cbn [map].
  rewrite !pack_bit_0, !pack_bit_1, !pack_bit_2, !pack_bit_3,
    !pack_bit_4, !pack_bit_5, !pack_bit_6, !pack_bit_7.
  rewrite !flip_of_pack. reflexivity.
Qed.

Lemma _rotate_tile_quarter_turn (tile_data : list Z) :
  Udg._rotate_tile tile_data = Ok (quarter_turn tile_data).
Proof. reflexivity. Qed.

Lemma quarter_turn_twice (tile_data : list Z) :
  length tile_data = 8%nat -> Forall Udg.is_byte tile_data ->
  quarter_turn (quarter_turn tile_data) = rev (map flip_of tile_data).
Proof.
  intros Hlen Hbytes. pose proof (_rotate_tile_twice _ Hlen Hbytes) as H.
  rewrite !_rotate_tile_quarter_turn in H. cbn [Py.bind] in H.
  rewrite _rotate_tile_quarter_turn in H. by injection H.
Qed.

Lemma rotate_once_unmasked (a : Z) (d : list Z) :
  Udg.rotate_once (Udg.Make a d None) = Ok (Udg.Make a (quarter_turn d) None).
Proof. reflexivity. Qed.

Lemma rotate_once_masked (a : Z) (d m : list Z) :
  m <> [] ->
  Udg.rotate_once (Udg.Make a d (Some m))
  = Ok (Udg.Make a (quarter_turn d) (Some (quarter_turn m))).
Proof. intros Hm. destruct m; [done|reflexivity]. Qed.

(** Rotating a tile of the data model by 2 is flipping it on both
    axes. *)
Lemma rotate_twice_is_flip_both (u : Udg.t) :
  Udg.wf u -> Udg.rotate u 2 = Udg.flip u 3.
Proof.
  intros Hwf. rewrite (flip_wf u 3 Hwf) by auto.
  change (3 =? 1) with false. change (3 =? 2) with false. cbv iota.
  destruct u as [a d mk]. destruct Hwf as (Hlen & Hd & Hmk).
  cbn [Udg.attr Udg.data Udg.mask] in *.
  unfold Udg.rotate. change (Z.to_nat (Z.land 2 3)) with 2%nat.
  cbn [Udg.rotate_times].
  destruct mk as [m|].
  - destruct Hmk as [Hmlen Hm].
    rewrite rotate_once_masked by (by destruct m). cbn [Py.bind].
    rewrite rotate_once_masked by done. cbn [Py.bind].
    by rewrite !quarter_turn_twice.
  - rewrite rotate_once_unmasked. cbn [Py.bind].
    rewrite rotate_once_unmasked. cbn [Py.bind].
    by rewrite quarter_turn_twice.
Qed.

(** Four quarter turns give back a tile of the data model. *)
Lemma rotate_four_quarter_turns (u : Udg.t) :
  Udg.wf u ->
  (let* half := Udg.rotate u 2 in Udg.rotate half 2) = Ok u.
Proof.
  intros Hwf. destruct u as [a d mk].
  pose proof Hwf as (Hlen & Hd & Hmk). simpl in Hlen, Hd, Hmk.
  rewrite (rotate_twice_is_flip_both _ Hwf), (flip_wf _ 3 Hwf) by auto.
  change (3 =? 1) with false. change (3 =? 2) with false. cbv iota.
  cbn [Py.bind Udg.attr Udg.data Udg.mask].
  pose proof (wf_reversed _ _ _ (wf_flipped a d mk Hwf)) as Hwf'.
  rewrite (rotate_twice_is_flip_both _ Hwf'), (flip_wf _ 3 Hwf') by auto.
  change (3 =? 1) with false. change (3 =? 2) with false. cbv iota.
  cbn [Udg.attr Udg.data Udg.mask].
  rewrite map_rev, rev_involutive, map_flip_of_involutive by done.
  destruct mk as [mk|]; simpl; [|done].
  destruct Hmk. by rewrite map_rev, rev_involutive, map_flip_of_involutive.
Qed.

(** ** Frames *)

(** C4, as amended: for every frame built from a grid of [r >= 1] rows
    and [c] columns with scale [s], crop offset [(x, y)] and requested
    width and height, the full width is [8*c*s], the full height is
    [8*r*s], the effective width is the minimum of the requested width and
    the full width less [x], and likewise the effective height, where a
    request that is absent or 0 counts as the full dimension; and the
    frame is cropped exactly when an effective dimension differs from the
    full one. *)
Theorem frame_dimensions (udgs : list (list Udg.t)) (r c : nat) (s : Z)
    (mask : Frame.mask_arg) (x y : Z) (width height : option Z) (delay : Z) :
  length udgs = r -> (1 <= r)%nat -> Forall (fun row => length row = c) udgs ->
  exists f,
    Frame.init udgs s mask x y width height delay = Ok f /\
    Frame._full_width f = 8 * Z.of_nat c * s /\
    Frame._full_height f = 8 * Z.of_nat r * s /\
    Frame.width f =
      Z.min (match width with
             | Some v => if v =? 0 then 8 * Z.of_nat c * s else v
             | None => 8 * Z.of_nat c * s
             end)
        (8 * Z.of_nat c * s - x) /\
    Frame.height f =
      Z.min (match height with
             | Some v => if v =? 0 then 8 * Z.of_nat r * s else v
             | None => 8 * Z.of_nat r * s
             end)
        (8 * Z.of_nat r * s - y) /\
    (Frame.cropped f = true <->
     Frame.width f <> Frame._full_width f \/ Frame.height f <> Frame._full_height f).
Proof.
  intros Hr Hpos Hc.
  destruct udgs as [|row0 rest]; [simpl in Hr; lia|].
  assert (length row0 = c) as Hrow0 by (by inversion Hc).
  unfold Frame.init.
  change (getitem (row0 :: rest) 0) with (Ok (A:=list Udg.t) row0).
  cbn [Py.bind]. eexists. split; [reflexivity|].
  unfold Frame.width, Frame.height, Frame.cropped, Py.len, Frame.or_else, truthy.
  cbn [Frame._full_width Frame._full_height Frame._width Frame._height].
  rewrite Hrow0, Hr.
  repeat split.
  - by destruct width as [v|]; [destruct (v =? 0)|].
  - by destruct height as [v|]; [destruct (v =? 0)|].
  - intros H. apply orb_prop in H as [H|H]; apply negb_true_iff, Z.eqb_neq in H; auto.
  - intros [H|H]; apply Z.eqb_neq in H; rewrite H; simpl; [done|apply orb_true_r].
Qed.

Lemma frame_dimensions_witness :
  exists f,
    Frame.init [[blank_udg; blank_udg]] 2 (Frame.MaskInt 0) 3 0 (Some 5) None 32 = Ok f /\
    Frame._full_width f = 32 /\ Frame._full_height f = 16 /\
    Frame.width f = 5 /\ Frame.height f = 16 /\
    (Frame.cropped f = true <->
     Frame.width f <> Frame._full_width f \/ Frame.height f <> Frame._full_height f).
Proof.
  apply (frame_dimensions [[blank_udg; blank_udg]] 1 2 2 (Frame.MaskInt 0) 3 0
           (Some 5) None 32).
  - reflexivity.
  - lia.
  - repeat constructor.
Defined.

(** C4 as stated fails for a requested width of 0: the frame of a single
    tile at scale 1 gets the full width 8, not [min 0 (8 - 0)]. *)
Lemma frame_zero_request_counterexample :
  exists f,
    Frame.init [[blank_udg]] 1 (Frame.MaskInt 0) 0 0 (Some 0) None 32 = Ok f /\
    Frame._full_width f = 8 /\
    Frame.width f = 8 /\
    Frame.width f <> Z.min 0 (Frame._full_width f - 0).
Proof. eexists. split; [reflexivity|]. vm_compute. repeat split; discriminate. Qed.

(** A grid with no rows makes no frame: [udgs[0]] raises. *)
Lemma frame_init_empty_grid s mask x y width height delay :
  Frame.init [] s mask x y width height delay = Raise IndexError.
Proof. reflexivity. Qed.

(** ** The snapshot stack *)

Lemma refs_ok_init (bytes : list Z) (w : HtmlWriter) :
  refs_ok (init_snapshots bytes w).
Proof.
  unfold refs_ok, init_snapshots; simpl. split.
  - rewrite lookup_insert_eq. eauto.
  - constructor; [|constructor]. simpl. rewrite lookup_insert_eq. eauto.
Qed.

(** The methods of the snapshot stack keep the references of the writer
    valid. *)
Lemma refs_ok_push (name : string) (w : HtmlWriter) :
  refs_ok w -> refs_ok (snd (push_snapshot name w)).
Proof.
  intros [Hs Hst]. unfold refs_ok, push_snapshot; simpl.
  assert (forall l, is_Some (heap w !! l) ->
                    is_Some (<[fresh (dom (heap w)) := current w]> (heap w) !! l))
    as Hkeep.
  { intros l Hl. rewrite lookup_insert. case_decide; eauto. }
  split; [by apply Hkeep|].
  apply Forall_app. split.
  - eapply Forall_impl; [exact Hst|]. intros e He. by apply Hkeep.
  - constructor; [|constructor]. simpl. rewrite lookup_insert_eq. eauto.
Qed.

Lemma refs_ok_poke (addr v : Z) (w : HtmlWriter) :
  refs_ok w -> refs_ok (snd (poke addr v w)).
Proof.
  intros [Hs Hst]. unfold poke.
  destruct (setitem (current w) addr v) as [l|e]; simpl; [|done].
  assert (forall r, is_Some (heap w !! r) ->
                    is_Some (<[snapshot w := l]> (heap w) !! r)) as Hkeep.
  { intros r Hr. rewrite lookup_insert. case_decide; eauto. }
  split; [by apply Hkeep|].
  eapply Forall_impl; [exact Hst|]. intros e He. by apply Hkeep.
Qed.

Lemma refs_ok_pop (w : HtmlWriter) :
  refs_ok w -> refs_ok (snd (pop_snapshot w)).
Proof.
  intros [Hs Hst]. unfold pop_snapshot.
  destruct (rev (_snapshots w)) as [|top rest] eqn:Hrev; simpl; [done|].
  assert (_snapshots w = rev rest ++ [top]) as Hstack.
  { rewrite <- (rev_involutive (_snapshots w)), Hrev. reflexivity. }
  rewrite Hstack in Hst. apply Forall_app in Hst as [Hrest Htop].
  split; [by inversion Htop|done].
Qed.

(** The copy made by [push_snapshot] is a new list object. *)
Lemma push_copy_is_new (w : HtmlWriter) :
  is_Some (heap w !! snapshot w) -> fresh (dom (heap w)) <> snapshot w.
Proof.
  intros Hs Heq. apply elem_of_dom in Hs.
  rewrite <- Heq in Hs. by apply is_fresh in Hs.
Qed.

Lemma pop_snapshot_last (w : HtmlWriter) (stack : list (nat * string))
    (top : nat * string) :
  _snapshots w = stack ++ [top] ->
  pop_snapshot w = (Ok tt, set_snapshot (set_snapshots w stack) (fst top)).
Proof.
  intros Hs. unfold pop_snapshot. rewrite Hs, rev_app_distr. simpl.
  by rewrite rev_involutive.
Qed.

Lemma pop_snapshot_empty (w : HtmlWriter) :
  _snapshots w = [] -> pop_snapshot w = (Raise IndexError, w).
Proof. intros Hs. unfold pop_snapshot. by rewrite Hs. Qed.

(** C1, as amended: on a stack whose only entry is the base snapshot,
    [pop_snapshot] raises nothing: it removes the base entry, which leaves
    the stack empty, and makes the snapshot of that entry the current one;
    it is the next pop, on the empty stack, that raises ([IndexError]) and
    leaves the writer as it is. *)
Theorem pop_snapshot_base_only (w : HtmlWriter) (base : nat) (name : string) :
  _snapshots w = [(base, name)] ->
  exists w',
    pop_snapshot w = (Ok tt, w') /\
    _snapshots w' = [] /\
    snapshot w' = base /\
    heap w' = heap w /\
    pop_snapshot w' = (Raise IndexError, w').
Proof.
  intros Hs. eexists. split.
  - by apply (pop_snapshot_last w [] (base, name)).
  - repeat split.
Qed.

Lemma pop_snapshot_base_only_witness :
  exists w',
    pop_snapshot (init_snapshots [1; 2; 3] blank_writer) = (Ok tt, w') /\
    _snapshots w' = [] /\
    snapshot w' = 0%nat /\
    heap w' = heap (init_snapshots [1; 2; 3] blank_writer) /\
    pop_snapshot w' = (Raise IndexError, w').
Proof.
  apply (pop_snapshot_base_only (init_snapshots [1; 2; 3] blank_writer) 0%nat
           EmptyString).
  reflexivity.
Defined.

(** C1 as stated fails on the writer as [__init__] leaves it: the pop of
    the base-only stack returns, and the base entry is gone. *)
Lemma pop_snapshot_base_counterexample :
  let w := init_snapshots [1; 2; 3] blank_writer in
  _snapshots w = [(0%nat, EmptyString)] /\
  exists w', pop_snapshot w = (Ok tt, w') /\ _snapshots w' <> _snapshots w.
Proof.
  split; [reflexivity|]. eexists. split; [reflexivity|]. discriminate.
Qed.

(** C7: for every address [addr] of the current snapshot and every value
    [v], pushing, writing [v] at [addr] and popping returns, and leaves a
    current snapshot that holds at [addr], and everywhere else, what the
    current snapshot held before the push; the stack is as it was. *)
Theorem push_poke_pop_restores (w : HtmlWriter) (name : string) (addr v : Z) :
  refs_ok w ->
  - Py.len (current w) <= addr < Py.len (current w) ->
  exists w',
    (let! pushed := push_snapshot name in
     let! poked := poke addr v in
     pop_snapshot) w = (Ok tt, w') /\
    getitem (current w') addr = getitem (current w) addr /\
    current w' = current w /\
    _snapshots w' = _snapshots w.
Proof.
  intros [Hs _] Haddr.
  pose proof (push_copy_is_new w Hs) as Hnew.
  set (copy := fresh (dom (heap w))) in *.
  destruct (norm_index_in_range _ _ Haddr) as (j & Hj & _).
  unfold bindM, push_snapshot. fold copy.
  unfold poke.
  assert (current (set_snapshots (set_heap w (<[copy:=current w]> (heap w)))
                     (_snapshots w ++ [(copy, name)])) = current w) as Hcur.
  { unfold current at 1. simpl. rewrite lookup_total_insert_ne by done. done. }
  rewrite Hcur. unfold setitem. rewrite Hj.
  erewrite pop_snapshot_last by (simpl; reflexivity).
  eexists. split; [reflexivity|].
  assert (current
            (set_snapshot
               (set_snapshots
                  (set_heap
                     (set_snapshots (set_heap w (<[copy:=current w]> (heap w)))
                        (_snapshots w ++ [(copy, name)]))
                     (<[snapshot w := <[j:=v]> (current w)]>
                        (<[copy:=current w]> (heap w))))
                  (_snapshots w))
               copy) = current w) as Hres.
  { unfold current at 1. simpl.
    rewrite lookup_total_insert_ne by done.
    by rewrite lookup_total_insert_eq. }
  simpl in *. by rewrite Hres.
Qed.

Lemma push_poke_pop_restores_witness :
  exists w',
    (let! pushed := push_snapshot "a" in
     let! poked := poke 1 255 in
     pop_snapshot) (init_snapshots [1; 2; 3] blank_writer) = (Ok tt, w') /\
    getitem (current w') 1 = getitem (current (init_snapshots [1; 2; 3] blank_writer)) 1 /\
    current w' = current (init_snapshots [1; 2; 3] blank_writer) /\
    _snapshots w' = _snapshots (init_snapshots [1; 2; 3] blank_writer).
Proof.
  apply push_poke_pop_restores.
  - apply refs_ok_init.
  - vm_compute. split; [discriminate | reflexivity].
Defined.

(** The write is to the list object the base entry holds as well: after
    the pop the base entry has the written byte, the current snapshot the
    saved one. *)
Example push_poke_pop_aliasing :
  let w := init_snapshots [1; 2; 3] blank_writer in
  exists w',
    (let! pushed := push_snapshot "a" in
     let! poked := poke 1 255 in
     pop_snapshot) w = (Ok tt, w') /\
    current w' = [1; 2; 3] /\
    heap w' !! 0%nat = Some [1; 255; 3] /\
    _snapshots w' = [(0%nat, EmptyString)].
Proof. eexists. split; [reflexivity|]. vm_compute. auto. Qed.

(** ** Address ranges *)

(** Iterations left over change nothing: a loop that ended ends the same
    way with more of them. *)
Lemma addresses_loop_more_fuel (fuel extra : nat)
    (address end_address h_step v_step width : Z) (addresses result : list Z) :
  addresses_loop fuel address end_address h_step v_step width addresses = Ok result ->
  addresses_loop (fuel + extra) address end_address h_step v_step width addresses
  = Ok result.
Proof.
  revert address addresses.
  induction fuel as [|fuel IH]; intros address addresses; simpl.
  - destruct (address <=? end_address) eqn:E; [discriminate|].
    intros H. destruct extra; simpl; by rewrite E.
  - destruct (address <=? end_address); [|done].
    destruct (width =? 0); [done|]. apply IH.
Qed.

Lemma _get_udg_addresses_more_fuel (fuel extra : nat) (spec : addr_spec)
    (width : Z) (result : list Z) :
  _get_udg_addresses fuel spec width = Ok result ->
  _get_udg_addresses (fuel + extra) spec width = Ok result.
Proof.
  unfold _get_udg_addresses. destruct spec as [n|s]; [done|].
  destruct (if Str.contains "x" s then _ else _) as [[addr num]|e];
    cbn [Py.bind]; [|done].
  destruct (reraise_value_error _ _) as [elements|e]; cbn [Py.bind]; [|done].
  match goal with
  | |- match ?el with _ => _ end = _ -> _ => destruct el as [|a [|b [|c [|d [|]]]]]
  end; try done.
  destruct (addresses_loop fuel a b c d width []) as [l|e] eqn:E;
    cbn [Py.bind]; [|done].
  intros H. by rewrite (addresses_loop_more_fuel _ extra _ _ _ _ _ _ _ E).
Qed.

Lemma udg_addresses_row (fuel : nat) :
  (3 <= fuel)%nat ->
  _get_udg_addresses fuel (AddrStr "30000-30002") 1 = Ok [30000; 30001; 30002].
Proof.
  intros Hfuel. replace fuel with (3 + (fuel - 3))%nat by lia.
  by apply _get_udg_addresses_more_fuel.
Qed.

Lemma udg_addresses_stride (fuel : nat) :
  (3 <= fuel)%nat ->
  _get_udg_addresses fuel (AddrStr "30000-30003-2") 2 = Ok [30000; 30002].
Proof.
  intros Hfuel. replace fuel with (3 + (fuel - 3))%nat by lia.
  by apply _get_udg_addresses_more_fuel.
Qed.

(** C2, as amended: the expansion of the string 30000-30002 with row
    width 1 is [30000; 30001; 30002], and that of 30000-30003-2 with row
    width 2 is [30000; 30002]: the vertical step defaults to 2 * 2, so
    the second row would start at 30004, past the end of the range. *)
Theorem udg_addresses_examples (fuel : nat) :
  (3 <= fuel)%nat ->
  _get_udg_addresses fuel (AddrStr "30000-30002") 1 = Ok [30000; 30001; 30002] /\
  _get_udg_addresses fuel (AddrStr "30000-30003-2") 2 = Ok [30000; 30002].
Proof.
  intros Hfuel. split; [by apply udg_addresses_row | by apply udg_addresses_stride].
Qed.

Lemma udg_addresses_examples_witness :
  _get_udg_addresses 3 (AddrStr "30000-30002") 1 = Ok [30000; 30001; 30002] /\
  _get_udg_addresses 3 (AddrStr "30000-30003-2") 2 = Ok [30000; 30002].
Proof. apply udg_addresses_examples. lia. Defined.

(** C2 as stated fails in its second half: 30000-30003-2 with row width
    2 expands to [30000; 30002], and whatever the number of iterations
    allowed it does not expand to [30000; 30002; 30001; 30003]. *)
Lemma udg_addresses_stride_counterexample :
  _get_udg_addresses 3 (AddrStr "30000-30003-2") 2 = Ok [30000; 30002] /\
  forall fuel : nat,
    _get_udg_addresses fuel (AddrStr "30000-30003-2") 2
    <> Ok [30000; 30002; 30001; 30003].
Proof.
  split; [reflexivity|]. intros fuel.
  destruct (le_lt_dec 3 fuel) as [Hge|Hlt].
  - rewrite (udg_addresses_stride fuel Hge). discriminate.
  - destruct fuel as [|[|[|fuel]]]; [vm_compute; discriminate ..|lia].
Qed.

(** The third example of the specification: a repetition count. *)
Example udg_addresses_repeat :
  _get_udg_addresses 3 (AddrStr "100x3") 1 = Ok [100; 100; 100].
Proof. reflexivity. Qed.

(** ** Screenshots *)

Lemma map_result_ok {A B} (f : A -> result B) (P : B -> Prop) (l : list A) :
  (forall a, In a l -> exists b, f a = Ok b /\ P b) ->
  exists bs, map_result f l = Ok bs /\ length bs = length l /\ Forall P bs.
Proof.
  induction l as [|a l IH]; intros Hf; simpl.
  - exists []. auto.
  - destruct (Hf a) as (b & -> & Hb); [by left|].
    destruct IH as (bs & -> & Hlen & Hbs); [intros a' Ha'; apply Hf; by right|].
    exists (b :: bs). simpl. auto.
Qed.

Lemma range_length (a b : Z) : Py.len (range a b) = Z.max 0 (b - a).
Proof. unfold Py.len, range. rewrite length_map, length_seq. lia. Qed.

Lemma range_In (a b k : Z) : In k (range a b) -> a <= k < b.
Proof.
  unfold range. rewrite in_map_iff. intros (n & <- & Hn).
  apply in_seq in Hn. lia.
Qed.

(** The grid of a screenshot whose attribute bytes can be read. *)
Lemma screenshot_grid (w : HtmlWriter) (x y w_ h df_addr af_addr : Z) :
  (forall r c,
      y <= r < y + Z.min h (24 - y) -> x <= c < x + Z.min w_ (32 - x) ->
      - Py.len (current w) <= af_addr + 32 * r + c < Py.len (current w)) ->
  exists grid,
    screenshot w x y w_ h df_addr af_addr = Ok grid /\
    Py.len grid = Z.max 0 (Z.min h (24 - y)) /\
    Forall (fun row => Py.len row = Z.max 0 (Z.min w_ (32 - x))) grid.
Proof.
  intros Hattr. unfold screenshot.
  destruct (map_result_ok
              (fun r => map_result (fun c => _get_screen_udg w r c df_addr af_addr)
                          (range x (x + Z.min w_ (32 - x))))
              (fun row => Py.len row = Z.max 0 (Z.min w_ (32 - x)))
              (range y (y + Z.min h (24 - y)))) as (grid & Hgrid & Hlen & Hrows).
  - intros r Hr%range_In.
    destruct (map_result_ok (fun c => _get_screen_udg w r c df_addr af_addr)
                (fun _ => True) (range x (x + Z.min w_ (32 - x))))
      as (row & Hrow & Hrlen & _).
    + intros c Hc%range_In. unfold _get_screen_udg.
      destruct (getitem_in_range (current w) (af_addr + 32 * r + c)) as [attr ->];
        [by apply Hattr|].
      simpl. eauto.
    + exists row. split; [done|].
      unfold Py.len in *. rewrite Hrlen.
      pose proof (range_length x (x + Z.min w_ (32 - x))) as Hl.
      unfold Py.len in Hl. lia.
  - exists grid. split; [done|]. split; [|done].
    unfold Py.len in *. rewrite Hlen.
    pose proof (range_length y (y + Z.min h (24 - y))) as Hl.
    unfold Py.len in Hl. lia.
Qed.

(** C10, as amended: for all x, y, w, h for which the attribute bytes of
    the region can be read, the screenshot is a grid of
    [max 0 (min h (24 - y))] rows, each of [max 0 (min w (32 - x))]
    tiles: the region is clamped to the right and bottom edges of the
    32x24 screen, and a region that ends up empty gives no rows or no
    tiles. *)
Theorem screenshot_dimensions (w : HtmlWriter) (x y w_ h df_addr af_addr : Z) :
  (forall r c,
      y <= r < y + Z.min h (24 - y) -> x <= c < x + Z.min w_ (32 - x) ->
      - Py.len (current w) <= af_addr + 32 * r + c < Py.len (current w)) ->
  exists grid,
    screenshot w x y w_ h df_addr af_addr = Ok grid /\
    Py.len grid = Z.max 0 (Z.min h (24 - y)) /\
    Forall (fun row => Py.len row = Z.max 0 (Z.min w_ (32 - x))) grid.
Proof. apply screenshot_grid. Qed.

(** On a 64K snapshot, with the default display and attribute file
    addresses, every region whose top-left tile is on the screen can be
    read: for [0 <= x] and [0 <= y] the screenshot returns, with
    [min h (24 - y)] rows of [min w (32 - x)] tiles when those are not
    negative. *)
Lemma screenshot_on_screen (w : HtmlWriter) (x y w_ h : Z) :
  Py.len (current w) = 65536 -> 0 <= x -> 0 <= y ->
  exists grid,
    screenshot w x y w_ h 16384 22528 = Ok grid /\
    Py.len grid = Z.max 0 (Z.min h (24 - y)) /\
    Forall (fun row => Py.len row = Z.max 0 (Z.min w_ (32 - x))) grid.
Proof. intros Hlen Hx Hy. apply screenshot_grid. intros r c Hr Hc. lia. Qed.

Lemma screenshot_dimensions_witness :
  let w := init_snapshots (replicate 768 7) blank_writer in
  exists grid,
    screenshot w 31 23 5 5 0 0 = Ok grid /\
    Py.len grid = Z.max 0 (Z.min 5 (24 - 23)) /\
    Forall (fun row => Py.len row = Z.max 0 (Z.min 5 (32 - 31))) grid.
Proof.
  apply screenshot_dimensions.
  intros r c Hr Hc.
  change (Py.len (current (init_snapshots (replicate 768 7) blank_writer))) with 768.
  lia.
Defined.

(** C10 as stated fails below the screen: for y = 25 the clamped height
    [min 1 (24 - 25)] is negative, and the grid has no rows.  Nor is a
    region to the left of the screen clamped: far enough to the left, the
    read of its attribute bytes raises. *)
Lemma screenshot_below_screen_counterexample :
  (exists grid,
      screenshot blank_writer 0 25 1 1 16384 22528 = Ok grid /\
      Py.len grid <> Z.min 1 (24 - 25)) /\
  screenshot (init_snapshots (replicate (Z.to_nat 65536) 0) blank_writer) (-100000) 0 1 1
    16384 22528 = Raise IndexError.
Proof.
  split.
  - exists []. split; [reflexivity|]. vm_compute. discriminate.
  - vm_compute. reflexivity.
Qed.

(** ** Image paths *)


Lemma slice_tail (c : ascii) (rest : string) :
  Str.slice (String c rest) (Some 1) None = rest.
Proof.
  unfold Str.slice, Str.chars, Str.of_chars, Py.len. simpl list_ascii_of_string.
  set (l := list_ascii_of_string rest).
  assert (clamp (Z.of_nat (length (c :: l))) 1 = 1) as ->.
  { unfold clamp. change (1 <? 0) with false. cbv iota.
    change (1 <? 0) with false. cbv iota.
    destruct (Z.ltb_spec (Z.of_nat (length (c :: l))) 1); [simpl in *; lia|reflexivity]. }
  simpl length. replace (Z.to_nat (Z.of_nat (S (length l)) - 1)) with (length l) by lia.
  simpl drop. rewrite firstn_all. apply string_of_list_ascii_of_string.
Qed.


(** ** Image files *)

Lemma frame_init_mask udgs s (m : Z) x y width height delay f :
  Frame.init udgs s (Frame.MaskInt m) x y width height delay = Ok f ->
  Frame.mask f = m.
Proof.
  unfold Frame.init. destruct (getitem udgs 0); simpl; [|done].
  by intros [= <-].
Qed.

(** [write_animated_image] either raises before anything is written or
    opens the file and calls the encoder once. *)
Lemma write_animated_image_effect (path : string) (fs : list Frame.t)
    (w : HtmlWriter) :
  match write_animated_image path fs w with
  | (Ok _, w') =>
      exists fmt,
        encoder_calls w' = encoder_calls w ++ [EncoderCall path fs fmt] /\
        frames w' = frames w
  | (Raise _, w') => w' = w
  end.
Proof.
  unfold write_animated_image, bindM, lift, open_file.
  destruct (_get_image_format path) as [fmt|e]; simpl; [|done].
  exists fmt. done.
Qed.

(** [write_image] either raises before anything is written or calls the
    encoder once, with the one frame it built. *)
Lemma write_image_effect (path : string) (udgs : list (list Udg.t))
    (crop : crop_rect) (scale m : Z) (w : HtmlWriter) :
  match write_image path udgs crop scale (Frame.MaskInt m) w with
  | (Ok _, w') =>
      exists frame fmt,
        Frame.mask frame = m /\
        encoder_calls w' = encoder_calls w ++ [EncoderCall path [frame] fmt] /\
        frames w' = frames w
  | (Raise _, w') => w' = w
  end.
Proof.
  unfold write_image. destruct crop as [[[x y] width] height].
  unfold bindM at 1, lift.
  destruct (Frame.init udgs scale (Frame.MaskInt m) x y width height DEFAULT_DELAY)
    as [frame|e] eqn:Hinit; [|done].
  pose proof (write_animated_image_effect path [frame] w) as H.
  destruct (write_animated_image path [frame] w) as [[u|e] w']; [|done].
  destruct H as (fmt & Hcalls & Hframes).
  exists frame, fmt. split; [by eapply frame_init_mask|done].
Qed.

(** [store_frame] either raises and stores nothing or stores the frame it
    built, under the given identifier. *)
Lemma store_frame_effect (frame : string) (udgs : list (list Udg.t))
    (scale m : Z) (crop : crop_rect) (w : HtmlWriter) :
  match store_frame frame udgs scale m crop w with
  | (Ok _, w') =>
      exists f,
        Frame.mask f = m /\
        frames w' = <[frame := f]> (frames w) /\
        encoder_calls w' = encoder_calls w
  | (Raise _, w') => w' = w
  end.
Proof.
  unfold store_frame. destruct crop as [[[x y] width] height].
  unfold bindM, lift.
  destruct (Frame.init udgs scale (Frame.MaskInt m) x y width height DEFAULT_DELAY)
    as [f|e] eqn:Hinit; [|done].
  exists f. split; [by eapply frame_init_mask|done].
Qed.

(** ** The direct-source form of the tile-grid macro *)

Section MacroFacts.

Context (parse_params :
           string -> Z -> string -> string -> result (Z * string * option string))
        (get_params :
           string -> Z -> list pyval -> option (list Z) -> list string
           -> result (list pyval))
        (parse_ints : string -> Z -> result (Z * crop_rect))
        (parse_int : string -> option Z)
        (img_element : string -> string -> string).

Local Abbreviation header := (ua_header parse_params get_params parse_ints).
Local Abbreviation clause := (ua_clause parse_params get_params parse_ints).
Local Abbreviation loop := (ua_loop parse_params get_params parse_ints).
Local Abbreviation image_params :=
  (parse_image_params parse_params get_params parse_ints).
Local Abbreviation finish := (ua_finish img_element).
Local Abbreviation expand :=
  (expand_udgarray parse_params get_params parse_ints parse_int img_element).
Local Abbreviation expand_frames :=
  (_expand_udgarray_with_frames parse_params parse_int img_element).

(** What the part after the loop does to the writer: the flag
    [need] is whether the image is written. *)
Lemma ua_finish_effect (text : string) (index : Z) (cwd : string) (p : ua_params)
    (st : ua_state) (w : HtmlWriter) :
  match finish text index cwd p st w with
  | (r, w') =>
      (exists calls,
          encoder_calls w' = encoder_calls w ++ calls /\
          Forall (fun c => Forall (fun f => Frame.mask f = passed_mask_type p st)
                             (call_frames c)) calls) /\
      (forall id f, frames w' !! id = Some f ->
                    frames w !! id = Some f \/ Frame.mask f = passed_mask_type p st)
  end.
Proof.
  unfold ua_finish. fold (passed_mask_type p st).
  set (mt := passed_mask_type p st).
  assert (Hsame : forall w0 : HtmlWriter,
             (exists calls,
                 encoder_calls w0 = encoder_calls w0 ++ calls /\
                 Forall (fun c => Forall (fun f => Frame.mask f = mt)
                                    (call_frames c)) calls) /\
             (forall id f, frames w0 !! id = Some f ->
                           frames w0 !! id = Some f \/ Frame.mask f = mt)).
  { intros w0. split; [exists []; by rewrite app_nil_r | auto]. }
  destruct (negb (truthy_str (ua_fname st))); [apply Hsame|].
  destruct (Str.partition "*" (default EmptyString (ua_fname st)))
    as [[fname sep] frame].
  set (frame' := if Str.truthy sep && negb (Str.truthy frame) then fname else frame).
  destruct (negb (Str.truthy fname) && negb (Str.truthy frame')); [apply Hsame|].
  unfold bindM at 1.
  destruct (image_path w fname "UDGImagePath") as [img_path|e]; [|apply Hsame].
  unfold bindM at 1.
  set (need := truthy_str img_path && need_image w (default EmptyString img_path)).
  unfold bindM at 1.
  assert (Hret : forall (w0 : HtmlWriter) (u : unit),
             (if truthy_str img_path
              then ret (ua_end st, img_element cwd (default EmptyString img_path))
              else ret (ua_end st, EmptyString)) w0
             = (Ok (if truthy_str img_path
                    then (ua_end st, img_element cwd (default EmptyString img_path))
                    else (ua_end st, EmptyString)), w0)).
  { intros w0 _. by destruct (truthy_str img_path). }
  destruct (Str.truthy frame' || need) eqn:Hany;
    [|unfold ret at 1; rewrite (Hret w tt); apply Hsame].
  unfold bindM at 1, lift at 1.
  destruct (if truthy (ua_flip p) then _ else _) as [flipped|e]; [|apply Hsame].
  unfold bindM at 1, lift at 1.
  destruct (if truthy (ua_rotate p) then _ else _) as [udg_array|e]; [|apply Hsame].
  unfold bindM at 1.
  assert (Hstore :
            match (if Str.truthy frame'
                   then store_frame frame' udg_array (ua_scale p) mt (ua_crop st)
                   else ret tt) w with
            | (Ok _, w1) =>
                encoder_calls w1 = encoder_calls w /\
                (forall id f, frames w1 !! id = Some f ->
                              frames w !! id = Some f \/ Frame.mask f = mt)
            | (Raise _, w1) => w1 = w
            end).
  { destruct (Str.truthy frame'); [|by split; auto].
    pose proof (store_frame_effect frame' udg_array (ua_scale p) mt (ua_crop st) w) as H.
    destruct (store_frame frame' udg_array (ua_scale p) mt (ua_crop st) w)
      as [[u|e] w1]; [|done].
    destruct H as (f & Hmask & Hfr & Hcalls). split; [done|].
    intros id f'. rewrite Hfr.
    destruct (decide (frame' = id)) as [->|Hne].
    - rewrite lookup_insert_eq. intros [= <-]. by right.
    - rewrite lookup_insert_ne by done. by left. }
  revert Hstore.
  generalize ((if Str.truthy frame'
               then store_frame frame' udg_array (ua_scale p) mt (ua_crop st)
               else ret tt) w).
  intros [[u|e] w1] Hstore; [|subst w1; apply Hsame].
  destruct Hstore as [Hcalls1 Hframes1].
  destruct need.
  - pose proof (write_image_effect (default EmptyString img_path) udg_array
                  (ua_crop st) (ua_scale p) mt w1) as H.
    destruct (write_image (default EmptyString img_path) udg_array (ua_crop st)
                (ua_scale p) (Frame.MaskInt mt) w1) as [[u'|e] w2].
    + destruct H as (fr & fmt & Hmask & Hcalls2 & Hframes2).
      rewrite (Hret w2 tt). split.
      * eexists. rewrite Hcalls2, Hcalls1. split; [reflexivity|].
        repeat constructor. done.
      * intros id f. rewrite Hframes2. apply Hframes1.
    + subst w2. split.
      * exists []. rewrite app_nil_r. done.
      * done.
  - unfold ret at 1. rewrite (Hret w1 tt). split.
    + exists []. rewrite app_nil_r. done.
    + done.
Qed.

Lemma expand_udgarray_direct (fuel : nat) (w : HtmlWriter) (text : string)
    (index : Z) (cwd : string) (p : ua_params) (st0 st : ua_state) :
  char_at text index "*" = Ok false ->
  header w text index = Ok (p, st0) ->
  loop fuel fuel w text p st0 = Ok st ->
  expand fuel text index cwd w = finish text index cwd p st w.
Proof.
  intros Hstar Hhead Hloop.
  unfold expand_udgarray, bindM. rewrite Hstar, Hhead. simpl. by rewrite Hloop.
Qed.

(** A clause with no colon after its parameters has no mask addresses,
    so the flag it leaves is false, whatever it was. *)
Lemma ua_clause_without_mask (fuel : nat) (w : HtmlWriter) (text : string)
    (p : ua_params) (st_prev st : ua_state) (end1 : Z) (fname1 : option string)
    (crop1 : crop_rect) (params1 : list pyval) :
  clause fuel w text p st_prev = Ok st ->
  image_params w text (ua_end st_prev + 1) 4
    [VInt (ua_def_attr p); VInt (ua_def_step p); VInt (ua_def_inc p)]
    None EmptyString "-x" (Some [1; 2; 3]) [] = Ok (end1, fname1, crop1, params1) ->
  char_at text end1 ":" = Ok false ->
  ua_has_masks st = false.
Proof.
  intros Hclause Hparse Hcolon. unfold ua_clause in Hclause.
  rewrite Hparse in Hclause. cbn [Py.bind] in Hclause.
  destruct params1 as [|address [|attr [|step [|inc [|]]]]]; try discriminate.
  destruct (as_addr_spec address); cbn [Py.bind] in Hclause; [|discriminate].
  destruct (as_int attr); cbn [Py.bind] in Hclause; [|discriminate].
  destruct (as_int step); cbn [Py.bind] in Hclause; [|discriminate].
  destruct (as_int inc); cbn [Py.bind] in Hclause; [|discriminate].
  destruct (_get_udg_addresses fuel _ (ua_width p)); cbn [Py.bind] in Hclause;
    [|discriminate].
  unfold ua_mask_part in Hclause. rewrite Hcolon in Hclause.
  cbn [Py.bind] in Hclause.
  destruct (fold_result _ _ _); cbn [Py.bind] in Hclause; [|discriminate].
  by injection Hclause as <-.
Qed.

(** The flag a clause leaves does not depend on the flag it finds: it is
    recomputed, not accumulated. *)
Lemma ua_clause_recomputes_has_masks (fuel : nat) (w : HtmlWriter) (text : string)
    (p : ua_params) (st : ua_state) (b : bool) :
  clause fuel w text p
    (UaState (ua_end st) (ua_fname st) (ua_crop st) (ua_udg_array st) b)
  = clause fuel w text p st.
Proof. reflexivity. Qed.

(** When the loop ends after at least one clause, the state it ends in
    is the one its final clause left. *)
Lemma ua_loop_last_clause (n fuel : nat) (w : HtmlWriter) (text : string)
    (p : ua_params) (st0 st : ua_state) :
  loop n fuel w text p st0 = Ok st ->
  char_at text (ua_end st) ";" = Ok false /\
  (st = st0 \/
   exists st_prev,
     char_at text (ua_end st_prev) ";" = Ok true /\
     clause fuel w text p st_prev = Ok st).
Proof.
  revert st0. induction n as [|n IH]; intros st0; simpl.
  - destruct (char_at text (ua_end st0) ";") as [[|]|] eqn:E; simpl; try discriminate.
    intros [= <-]. auto.
  - destruct (char_at text (ua_end st0) ";") as [[|]|] eqn:E; simpl; try discriminate.
    + destruct (clause fuel w text p st0) as [st1|] eqn:Hc; simpl; [|discriminate].
      intros Hloop. destruct (IH _ Hloop) as [Hend [->|Hprev]]; split; eauto.
    + intros [= <-]. auto.
Qed.

(** C9: in the direct-source form the mask type handed to rendering is
    decided by the final source clause alone.  When the loop over the
    clauses ends in the state [st] that a clause left, started from
    [st_prev], and that clause has no colon after its parameters, hence
    no mask address range, then the has-masks flag is false and every
    frame this expansion hands to the encoder or stores in the cache has
    mask type 0, whatever the earlier clauses attached to their tiles and
    whatever mask type the header asked for. *)
Theorem udgarray_mask_from_last_clause (fuel : nat) (w : HtmlWriter)
    (text : string) (index : Z) (cwd : string) (p : ua_params)
    (st0 st_prev st : ua_state) (end1 : Z) (fname1 : option string)
    (crop1 : crop_rect) (params1 : list pyval) :
  char_at text index "*" = Ok false ->
  header w text index = Ok (p, st0) ->
  loop fuel fuel w text p st0 = Ok st ->
  char_at text (ua_end st_prev) ";" = Ok true ->
  clause fuel w text p st_prev = Ok st ->
  image_params w text (ua_end st_prev + 1) 4
    [VInt (ua_def_attr p); VInt (ua_def_step p); VInt (ua_def_inc p)]
    None EmptyString "-x" (Some [1; 2; 3]) [] = Ok (end1, fname1, crop1, params1) ->
  char_at text end1 ":" = Ok false ->
  ua_has_masks st = false /\
  match expand fuel text index cwd w with
  | (r, w') =>
      (exists calls,
          encoder_calls w' = encoder_calls w ++ calls /\
          Forall (fun c => Forall (fun f => Frame.mask f = 0) (call_frames c)) calls) /\
      (forall id f, frames w' !! id = Some f ->
                    frames w !! id = Some f \/ Frame.mask f = 0)
  end.
Proof.
  intros Hstar Hhead Hloop _ Hclause Hparse Hcolon.
  pose proof (ua_clause_without_mask _ _ _ _ _ _ _ _ _ _ Hclause Hparse Hcolon)
    as Hflag.
  split; [done|].
  rewrite (expand_udgarray_direct _ _ _ _ cwd _ _ _ Hstar Hhead Hloop).
  pose proof (ua_finish_effect text index cwd p st w) as H.
  unfold passed_mask_type in H. by rewrite Hflag in H.
Qed.





(** *** The frame-composition form *)

Local Abbreviation fclause := (frame_clause parse_int).

(** A clause that resolves is accepted, and the cache keeps its
    identifiers: only the delay of the named frame is set. *)
Lemma frame_clause_resolves (text : string) (index end_ : Z)
    (st : Z * list string) (c : string) (w : HtmlWriter) :
  clause_resolves parse_int (frames w) c ->
  exists st' w',
    fclause text index end_ st c w = (Ok st', w') /\
    dom (frames w') = dom (frames w).
Proof.
  intros (Hdelay & Hid & [f Hf]).
  unfold frame_clause, clause_delay_ok, clause_frame_id in *.
  destruct st as [default_delay collected].
  destruct (Str.rsplit "," (Some 1%nat) c) as [|a [|b [|]]];
    try (unfold bindM, ret; rewrite Hid; cbn [negb]; rewrite Hf;
         eexists _, _; split; [reflexivity|];
         cbn [frames set_frames]; apply dom_insert_lookup_L; eauto).
  apply bool_decide_eq_true in Hdelay as [d Hd]. rewrite Hd.
  unfold bindM, ret; rewrite Hid; cbn [negb]; rewrite Hf.
  eexists _, _; split; [reflexivity|].
  cbn [frames set_frames]. apply dom_insert_lookup_L. eauto.
Qed.

Lemma frame_clauses_resolve (text : string) (index end_ : Z) (good : list string) :
  forall (st : Z * list string) (w : HtmlWriter) (rest : list string),
    Forall (clause_resolves parse_int (frames w)) good ->
    exists st' w',
      dom (frames w') = dom (frames w) /\
      for_each (fclause text index end_) (good ++ rest) st w
      = for_each (fclause text index end_) rest st' w'.
Proof.
  induction good as [|c good IH]; intros st w rest Hgood.
  - exists st, w. done.
  - inversion Hgood as [|? ? Hc Hgood']; subst.
    destruct (frame_clause_resolves text index end_ st c w Hc)
      as (st1 & w1 & Hstep & Hdom).
    assert (Forall (clause_resolves parse_int (frames w1)) good) as Hgood1.
    { eapply Forall_impl; [exact Hgood'|].
      intros c' (H1 & H2 & H3). repeat split; [done|done|].
      apply elem_of_dom. rewrite Hdom. by apply elem_of_dom. }
    destruct (IH st1 w1 rest Hgood1) as (st' & w' & Hdom' & Heq).
    exists st', w'. split; [congruence|].
    simpl. unfold bindM at 1. by rewrite Hstep.
Qed.

(** What the clause loop raises at a clause with a valid delay whose
    identifier is empty or not in the cache. *)
Lemma frame_clause_rejects (text : string) (index end_ : Z)
    (st : Z * list string) (c : string) (w : HtmlWriter) :
  clause_delay_ok parse_int c = true ->
  (clause_frame_id c = EmptyString ->
   fclause text index end_ st c w
   = (Raise (MacroParsingError
               ("Missing frame ID: #UDGARRAY"
                  ++ Str.slice text (Some index) (Some end_))%string), w)) /\
  (clause_frame_id c <> EmptyString -> frames w !! clause_frame_id c = None ->
   fclause text index end_ st c w
   = (Raise (MacroParsingError
               ("No such frame: " ++ Str.dquote ++ clause_frame_id c
                  ++ Str.dquote)%string), w)).
Proof.
  intros Hdelay.
  unfold frame_clause, clause_delay_ok, clause_frame_id in *.
  destruct st as [default_delay collected].
  assert (Htruthy : forall s : string, s <> EmptyString -> Str.truthy s = true).
  { intros s Hs. unfold Str.truthy. by destruct s. }
  destruct (Str.rsplit "," (Some 1%nat) c) as [|a [|b [|]]];
    try (split; [intros ->; reflexivity
                |intros Hne Hnone; unfold bindM, ret;
                 rewrite (Htruthy _ Hne); cbn [negb]; by rewrite Hnone]).
  apply bool_decide_eq_true in Hdelay as [d Hd]. rewrite Hd.
  split; [intros ->; reflexivity|].
  intros Hne Hnone. unfold bindM, ret.
  rewrite (Htruthy _ Hne); cbn [negb]. by rewrite Hnone.
Qed.

(** C3, as amended: in a frame-composition invocation whose file name
    is given and resolves, and whose image needs writing (the file is
    absent, or images are being rebuilt), take the first clause that
    does not resolve, the clauses before it naming cached frames with
    valid delays, and let its delay, if any, be valid: if its identifier
    is empty the expansion raises the missing-frame-ID error, and if the
    identifier is not in the named-frame cache the expansion raises the
    no-such-frame error naming that identifier. *)
Theorem udgarray_frames_unresolved_clause (fuel : nat) (w : HtmlWriter)
    (text : string) (index : Z) (cwd : string) (end_ : Z)
    (frame_params : string) (fname : option string) (img_path : string)
    (good : list string) (c : string) (rest : list string) :
  char_at text index "*" = Ok true ->
  parse_params text index " (" EmptyString = Ok (end_, frame_params, fname) ->
  truthy_str fname = true ->
  image_path w (default EmptyString fname) "UDGImagePath" = Ok (Some img_path) ->
  need_image w img_path = true ->
  Str.split ";" None (Str.slice frame_params (Some 1) None) = good ++ c :: rest ->
  Forall (clause_resolves parse_int (frames w)) good ->
  clause_delay_ok parse_int c = true ->
  (clause_frame_id c = EmptyString ->
   fst (expand fuel text index cwd w)
   = Raise (MacroParsingError
              ("Missing frame ID: #UDGARRAY"
                 ++ Str.slice text (Some index) (Some end_))%string)) /\
  (clause_frame_id c <> EmptyString -> frames w !! clause_frame_id c = None ->
   fst (expand fuel text index cwd w)
   = Raise (MacroParsingError
              ("No such frame: " ++ Str.dquote ++ clause_frame_id c
                 ++ Str.dquote)%string)).
Proof.
  intros Hstar Hparse Hfname Hpath Hneed Hsplit Hgood Hdelay.
  destruct (frame_clauses_resolve text index end_ good (32, []) w (c :: rest) Hgood)
    as (st' & w' & Hdom & Hloop).
  assert (Hunfold : forall e : exn,
             fclause text index end_ st' c w' = (Raise e, w') ->
             fst (expand fuel text index cwd w) = Raise e).
  { intros e He.
    unfold expand_udgarray, bindM at 1. rewrite Hstar.
    unfold _expand_udgarray_with_frames, bindM at 1, lift at 1.
    rewrite Hparse, Hfname. cbn [negb].
    unfold bindM at 1. rewrite Hpath.
    unfold bindM at 1. rewrite Hneed.
    unfold bindM at 1, bindM at 1.
    rewrite Hsplit, Hloop. simpl. unfold bindM at 1. by rewrite He. }
  destruct (frame_clause_rejects text index end_ st' c w' Hdelay) as [Hmissing Hunknown].
  split.
  - intros Hid. apply Hunfold. by apply Hmissing.
  - intros Hid Hnone. apply Hunfold. apply Hunknown; [done|].
    apply not_elem_of_dom. rewrite Hdom. by apply not_elem_of_dom.
Qed.

(** The other side of the gate, for every invocation: when the image
    is not needed the clauses are not looked at, whatever they are, and
    the expansion returns its element and leaves the writer as it
    was. *)
Lemma udgarray_frames_not_needed (fuel : nat) (w : HtmlWriter)
    (text : string) (index : Z) (cwd : string) (end_ : Z)
    (frame_params : string) (fname : option string) (img_path : string) :
  char_at text index "*" = Ok true ->
  parse_params text index " (" EmptyString = Ok (end_, frame_params, fname) ->
  truthy_str fname = true ->
  image_path w (default EmptyString fname) "UDGImagePath" = Ok (Some img_path) ->
  need_image w img_path = false ->
  expand fuel text index cwd w = (Ok (end_, img_element cwd img_path), w).
Proof.
  intros Hstar Hparse Hfname Hpath Hneed.
  unfold expand_udgarray, bindM at 1. rewrite Hstar.
  unfold _expand_udgarray_with_frames, bindM at 1, lift at 1.
  rewrite Hparse, Hfname. cbn [negb].
  unfold bindM at 1. rewrite Hpath.
  unfold bindM at 1. rewrite Hneed.
  reflexivity.
Qed.
End MacroFacts.

(** ** The macros on concrete text *)

Lemma udgarray_mask_from_last_clause_witness :
  ua_has_masks demo_state2 = false /\
  match ref_expand_udgarray 10 demo_text 0 EmptyString (demo_writer false ∅) with
  | (r, w') =>
      (exists calls,
          encoder_calls w' = encoder_calls (demo_writer false ∅) ++ calls /\
          Forall (fun c => Forall (fun f => Frame.mask f = 0) (call_frames c)) calls) /\
      (forall id f, frames w' !! id = Some f ->
                    frames (demo_writer false ∅) !! id = Some f \/ Frame.mask f = 0)
  end.
Proof.
  apply (udgarray_mask_from_last_clause ref_parse_params ref_get_params
           ref_parse_ints ref_parse_int ref_img_element 10 (demo_writer false ∅)
           demo_text 0 EmptyString demo_params demo_state0 demo_state1 demo_state2
           13 (Some "img"%string) (0, 0, None, None)
           [VStr "16"; VInt 56; VInt 1; VInt 0]);
    vm_compute; reflexivity.
Defined.

(** The first clause of [demo_text] gives its tile a mask and the header
    asks for mask type 1, yet the frame handed to the encoder has mask
    type 0, the second clause having no mask. *)
Example udgarray_masked_tile_unmasked_frame :
  exists out w' frame,
    ref_expand_udgarray 10 demo_text 0 EmptyString (demo_writer false ∅) = (Ok out, w') /\
    encoder_calls w' = [EncoderCall "images/udgs/img.png" [frame] "png"] /\
    Frame.udgs frame = [[demo_tile1]; [demo_tile2]] /\
    Udg.mask demo_tile1 <> None /\
    ua_mask_type demo_params = 1 /\
    Frame.mask frame = 0.
Proof.
  eexists _, _, _. split; [vm_compute; reflexivity|].
  split; [reflexivity|]. repeat split. discriminate.
Qed.



(** The two runs of the specification's property: the file exists; with
    the flag off the encoder is not called, with the flag on it is called
    once. *)
Example udgarray_existing_image_runs :
  (exists out w',
      ref_expand_udgarray 10 demo_text 0 EmptyString (demo_writer false demo_files)
      = (Ok out, w') /\ encoder_calls w' = []) /\
  (exists out w' call,
      ref_expand_udgarray 10 demo_text 0 EmptyString (demo_writer true demo_files)
      = (Ok out, w') /\ encoder_calls w' = [call]).
Proof.
  split.
  - eexists _, _. split; [vm_compute; reflexivity|reflexivity].
  - eexists _, _, _. split; [vm_compute; reflexivity|reflexivity].
Qed.

(** An expansion that raises after its file name has been resolved: three
    tiles in rows of two cannot be rotated, and the encoder is not
    called though images are being rebuilt. *)
Example udgarray_ragged_rotation_raises :
  exists w',
    ref_expand_udgarray 10 "2,,,,,,1;0;8;16(img)" 0 EmptyString (demo_writer true demo_files)
    = (Raise IndexError, w') /\ encoder_calls w' = [].
Proof. eexists. split; [vm_compute; reflexivity|reflexivity]. Qed.

Lemma udgarray_frames_unresolved_clause_witness :
  fst (ref_expand_udgarray 10 "*f1;,5(img)" 0 EmptyString
         (demo_writer_with_frame true demo_files))
  = Raise (MacroParsingError "Missing frame ID: #UDGARRAY*f1;,5(img)") /\
  fst (ref_expand_udgarray 10 "*f1;nosuch,5(img)" 0 EmptyString
         (demo_writer_with_frame true demo_files))
  = Raise (MacroParsingError
             ("No such frame: " ++ Str.dquote ++ "nosuch" ++ Str.dquote)%string).
Proof.
  assert (Hgood : Forall (clause_resolves ref_parse_int
                            (frames (demo_writer_with_frame true demo_files)))
                    ["f1"%string]).
  { repeat constructor. vm_compute. eexists. reflexivity. }
  split.
  - apply (proj1 (udgarray_frames_unresolved_clause ref_parse_params ref_get_params
                    ref_parse_ints ref_parse_int ref_img_element 10
                    (demo_writer_with_frame true demo_files) "*f1;,5(img)" 0 EmptyString
                    11 "*f1;,5" (Some "img"%string) "images/udgs/img.png"
                    ["f1"%string] ",5" []
                    ltac:(vm_compute; reflexivity) ltac:(vm_compute; reflexivity)
                    ltac:(vm_compute; reflexivity) ltac:(vm_compute; reflexivity)
                    ltac:(vm_compute; reflexivity) ltac:(vm_compute; reflexivity)
                    Hgood ltac:(vm_compute; reflexivity))).
    vm_compute; reflexivity.
  - apply (proj2 (udgarray_frames_unresolved_clause ref_parse_params ref_get_params
                    ref_parse_ints ref_parse_int ref_img_element 10
                    (demo_writer_with_frame true demo_files) "*f1;nosuch,5(img)" 0
                    EmptyString 17 "*f1;nosuch,5" (Some "img"%string)
                    "images/udgs/img.png" ["f1"%string] "nosuch,5" []
                    ltac:(vm_compute; reflexivity) ltac:(vm_compute; reflexivity)
                    ltac:(vm_compute; reflexivity) ltac:(vm_compute; reflexivity)
                    ltac:(vm_compute; reflexivity) ltac:(vm_compute; reflexivity)
                    Hgood ltac:(vm_compute; reflexivity))).
    + vm_compute. discriminate.
    + vm_compute; reflexivity.
Defined.

(** C3 as stated fails when the image is not needed: the file exists and
    images are not being rebuilt, so the clauses are not looked at, and an
    identifier that is not in the cache, or an empty one, raises
    nothing. *)
Lemma udgarray_frames_not_needed_counterexample :
  let w := demo_writer false demo_files in
  frames w !! "nosuch"%string = None /\
  fst (ref_expand_udgarray 10 "*nosuch(img)" 0 EmptyString w)
  = Ok (12, "<img src=images/udgs/img.png />"%string) /\
  fst (ref_expand_udgarray 10 "*(img)" 0 EmptyString w)
  = Ok (6, "<img src=images/udgs/img.png />"%string).
Proof. repeat split; vm_compute; reflexivity. Qed.

(** * Further properties *)

(** ** Tiles: how flips and rotations compose *)

Lemma flip_mode_cases (m : Z) : 0 <= m <= 3 -> m = 0 \/ m = 1 \/ m = 2 \/ m = 3.
Proof. lia. Qed.

(** What [flip] returns on a tile of the data model, for each mode from 0
    to 3. *)
Lemma flip_normal (u : Udg.t) (m : Z) :
  Udg.wf u -> 0 <= m <= 3 -> Udg.flip u m = Ok (flipped_tile m u).
Proof.
  intros Hwf Hm.
  destruct (flip_mode_cases m Hm) as [-> | Hm'].
  - destruct u as [a d [mk|]]; reflexivity.
  - rewrite (flip_wf u m Hwf Hm'). unfold flipped_tile, flip_rows.
    destruct Hm' as [-> | [-> | ->]]; destruct u as [a d [mk|]]; reflexivity.
Qed.

Lemma flip_rows_bytes (m : Z) (l : list Z) :
  Forall Udg.is_byte l -> Forall Udg.is_byte (flip_rows m l).
Proof.
  intros Hl. unfold flip_rows.
  destruct (truthy (Z.land m 1)), (truthy (Z.land m 2));
    auto using map_flip_of_bytes, Forall_rev.
Qed.

Lemma flip_rows_length (m : Z) (l : list Z) : length (flip_rows m l) = length l.
Proof.
  unfold flip_rows.
  destruct (truthy (Z.land m 1)), (truthy (Z.land m 2));
    rewrite ?length_rev, ?length_map; reflexivity.
Qed.

Lemma wf_flipped_tile (m : Z) (u : Udg.t) : Udg.wf u -> Udg.wf (flipped_tile m u).
Proof.
  intros (Hlen & Hd & Hmk). unfold Udg.wf, flipped_tile. cbn [Udg.data Udg.mask].
  rewrite flip_rows_length. split; [done|]. split; [by apply flip_rows_bytes|].
  destruct (Udg.mask u) as [mk|]; cbn [fmap option_fmap option_map]; [|done].
  destruct Hmk. rewrite flip_rows_length. split; [done|by apply flip_rows_bytes].
Qed.

Lemma flip_rows_compose (a b : Z) (l : list Z) :
  Forall Udg.is_byte l -> 0 <= a <= 3 -> 0 <= b <= 3 ->
  flip_rows b (flip_rows a l) = flip_rows (Z.lxor a b) l.
Proof.
  intros Hl Ha Hb.
  destruct (flip_mode_cases a Ha) as [-> | [-> | [-> | ->]]];
    destruct (flip_mode_cases b Hb) as [-> | [-> | [-> | ->]]];
    unfold flip_rows; simpl;
    rewrite ?map_rev, ?rev_involutive, ?map_flip_of_involutive; done.
Qed.

(** X1: on a tile of the data model, its bitmap and its mask being
    separate lists, flipping with mode [a] and then with mode [b] is
    flipping once with the mode [a xor b]: the horizontal and the vertical
    flip commute and each undoes itself. *)
Theorem flip_modes_compose (u : Udg.t) (a b : Z) :
  Udg.wf u -> 0 <= a <= 3 -> 0 <= b <= 3 ->
  (let* u' := Udg.flip u a in Udg.flip u' b) = Udg.flip u (Z.lxor a b).
Proof.
  intros Hwf Ha Hb.
  assert (0 <= Z.lxor a b <= 3) as Hab.
  { destruct (flip_mode_cases a Ha) as [-> | [-> | [-> | ->]]];
      destruct (flip_mode_cases b Hb) as [-> | [-> | [-> | ->]]];
      compute; split; discriminate. }
  rewrite (flip_normal u a Hwf Ha). cbn [Py.bind].
  rewrite (flip_normal _ b (wf_flipped_tile a u Hwf) Hb).
  rewrite (flip_normal u _ Hwf Hab). f_equal.
  destruct Hwf as (_ & Hd & Hmk). unfold flipped_tile. cbn [Udg.attr Udg.data Udg.mask].
  rewrite flip_rows_compose by done. f_equal.
  destruct (Udg.mask u) as [mk|]; cbn [fmap option_fmap option_map]; [|done].
  destruct Hmk. by rewrite flip_rows_compose.
Qed.

Lemma flip_modes_compose_witness :
  (let* u' := Udg.flip demo_tile1 1 in Udg.flip u' 2) = Udg.flip demo_tile1 (Z.lxor 1 2).
Proof.
  apply flip_modes_compose.
  - unfold Udg.wf, Udg.is_byte; simpl. repeat split; repeat constructor; lia.
  - lia.
  - lia.
Defined.

(** X2: on a tile of the data model, rotating by 2 is flipping both
    axes: the same attribute, bitmap and mask. *)
Theorem rotate_half_turn_is_flip_both (u : Udg.t) :
  Udg.wf u -> Udg.rotate u 2 = Udg.flip u 3.
Proof. apply rotate_twice_is_flip_both. Qed.

Lemma rotate_half_turn_is_flip_both_witness :
  Udg.rotate demo_tile1 2 = Udg.flip demo_tile1 3.
Proof.
  apply rotate_half_turn_is_flip_both.
  unfold Udg.wf, Udg.is_byte; simpl. repeat split; repeat constructor; lia.
Defined.

Lemma pack_is_byte c0 c1 c2 c3 c4 c5 c6 c7 :
  Udg.is_byte (pack [c0; c1; c2; c3; c4; c5; c6; c7]).
Proof.
  destruct c0, c1, c2, c3, c4, c5, c6, c7; vm_compute; split;
    (discriminate || reflexivity).
Qed.

(** A quarter turn of eight rows gives eight bytes, whatever the rows
    hold. *)
Lemma quarter_turn_wf (l : list Z) :
  length l = 8%nat ->
  length (quarter_turn l) = 8%nat /\ Forall Udg.is_byte (quarter_turn l).
Proof.
  intros Hlen. split; [reflexivity|].
  destruct l as [|d0 [|d1 [|d2 [|d3 [|d4 [|d5 [|d6 [|d7 [|]]]]]]]]];
    try discriminate.
  unfold quarter_turn, planes. cbn [map rev app].
  rewrite !rotate_byte_pack. cbn [map].
  repeat constructor; apply pack_is_byte.
Qed.

Lemma quarter_turns_add (n m : nat) (l : list Z) :
  quarter_turns (n + m) l = quarter_turns m (quarter_turns n l).
Proof. revert l. induction n as [|n IH]; intros l; simpl; [done|apply IH]. Qed.

Lemma quarter_turns_wf (n : nat) (l : list Z) :
  length l = 8%nat -> Forall Udg.is_byte l ->
  length (quarter_turns n l) = 8%nat /\ Forall Udg.is_byte (quarter_turns n l).
Proof.
  revert l. induction n as [|n IH]; intros l Hlen Hl; simpl; [done|].
  destruct (quarter_turn_wf l Hlen). by apply IH.
Qed.

Lemma quarter_turns_four (l : list Z) :
  length l = 8%nat -> Forall Udg.is_byte l -> quarter_turns 4 l = l.
Proof.
  intros Hlen Hl. simpl. rewrite (quarter_turn_twice l Hlen Hl).
  rewrite quarter_turn_twice.
  - by rewrite map_rev, rev_involutive, map_flip_of_involutive.
  - by rewrite length_rev, length_map.
  - by apply Forall_rev, map_flip_of_bytes.
Qed.

Lemma quarter_turns_mod (n : nat) (l : list Z) :
  length l = 8%nat -> Forall Udg.is_byte l ->
  quarter_turns n l = quarter_turns (n mod 4) l.
Proof.
  intros Hlen Hl.
  rewrite (Nat.div_mod_eq n 4) at 1.
  generalize (n mod 4)%nat as r. generalize (n / 4)%nat as q.
  induction q as [|q IH]; intros r.
  - by rewrite Nat.mul_0_r.
  - replace (4 * S q + r)%nat with (4 + (4 * q + r))%nat by lia.
    rewrite quarter_turns_add, quarter_turns_four by done. apply IH.
Qed.

(** The tile after [n] quarter turns. *)
Lemma rotate_times_wf (n : nat) (u : Udg.t) :
  Udg.wf u ->
  Udg.rotate_times n u
  = Ok (Udg.Make (Udg.attr u) (quarter_turns n (Udg.data u))
          (quarter_turns n <$> Udg.mask u)).
Proof.
  revert u. induction n as [|n IH]; intros [a d mk] (Hlen & Hd & Hmk);
    cbn [Udg.attr Udg.data Udg.mask] in *.
  - destruct mk; reflexivity.
  - cbn [Udg.rotate_times quarter_turns].
    destruct (quarter_turn_wf d Hlen) as [Hlen' Hd'].
    destruct mk as [m|].
    + destruct Hmk as [Hmlen Hm].
      rewrite rotate_once_masked by (by destruct m). cbn [Py.bind].
      destruct (quarter_turn_wf m Hmlen) as [Hmlen' Hm'].
      rewrite IH; [reflexivity|]. repeat split; done.
    + rewrite rotate_once_unmasked. cbn [Py.bind].
      rewrite IH; [reflexivity|]. repeat split; done.
Qed.

Lemma rotate_count (a : Z) : Z.land a 3 = a mod 4.
Proof. change 3 with (Z.ones 2). by rewrite Z.land_ones. Qed.

(** X3: on a tile of the data model, rotating by [a] and then by [b] is
    rotating by [a + b], for all integers [a] and [b]; so four quarter
    turns, and a rotation by 3 after a rotation by 1, give back the
    tile. *)
Theorem rotations_compose (u : Udg.t) (a b : Z) :
  Udg.wf u ->
  (let* u' := Udg.rotate u a in Udg.rotate u' b) = Udg.rotate u (a + b).
Proof.
  intros Hwf. pose proof Hwf as (Hlen & Hd & Hmk).
  unfold Udg.rotate. rewrite !rotate_count.
  set (ka := Z.to_nat (a mod 4)). set (kb := Z.to_nat (b mod 4)).
  assert (Z.to_nat ((a + b) mod 4) = ((ka + kb) mod 4)%nat) as ->.
  { unfold ka, kb. rewrite Z.add_mod by lia.
    pose proof (Z.mod_pos_bound a 4 ltac:(lia)).
    pose proof (Z.mod_pos_bound b 4 ltac:(lia)).
    rewrite <- Z2Nat.inj_add by lia.
    rewrite <- (Nat2Z.id ((Z.to_nat (a mod 4 + b mod 4)) mod 4)%nat).
    f_equal. rewrite Nat2Z.inj_mod. rewrite Z2Nat.id by lia. reflexivity. }
  rewrite (rotate_times_wf ka u Hwf). cbn [Py.bind].
  destruct (quarter_turns_wf ka _ Hlen Hd) as [Hlen' Hd'].
  rewrite rotate_times_wf.
  - rewrite (rotate_times_wf _ u Hwf). cbn [Udg.attr Udg.data Udg.mask]. f_equal.
    rewrite <- quarter_turns_add, (quarter_turns_mod (ka + kb)) by done. f_equal.
    destruct (Udg.mask u) as [m|]; cbn [fmap option_fmap option_map]; [|done].
    destruct Hmk. by rewrite <- quarter_turns_add, (quarter_turns_mod (ka + kb)).
  - repeat split; cbn [Udg.data Udg.mask]; try done.
    destruct (Udg.mask u) as [m|]; cbn [fmap option_fmap option_map]; [|done].
    destruct Hmk. by apply quarter_turns_wf.
Qed.

Lemma rotations_compose_witness :
  (let* u' := Udg.rotate demo_tile1 3 in Udg.rotate u' 1) = Udg.rotate demo_tile1 (3 + 1).
Proof.
  apply rotations_compose.
  unfold Udg.wf, Udg.is_byte; simpl. repeat split; repeat constructor; lia.
Defined.

(** X4: flips and rotations keep a tile within the data model: the
    result of [flip] with a mode from 0 to 3, and of [rotate] by any
    integer, is again a tile of eight bitmap bytes and, if masked, eight
    mask bytes. *)
Theorem tile_transforms_keep_wf (u : Udg.t) (m n : Z) :
  Udg.wf u -> 0 <= m <= 3 ->
  (exists u', Udg.flip u m = Ok u' /\ Udg.wf u') /\
  (exists u', Udg.rotate u n = Ok u' /\ Udg.wf u').
Proof.
  intros Hwf Hm. split.
  - exists (flipped_tile m u). split; [by apply flip_normal|by apply wf_flipped_tile].
  - unfold Udg.rotate. rewrite (rotate_times_wf _ u Hwf).
    eexists. split; [reflexivity|].
    destruct Hwf as (Hlen & Hd & Hmk).
    set (k := Z.to_nat (Z.land n 3)).
    destruct (quarter_turns_wf k _ Hlen Hd).
    repeat split; cbn [Udg.data Udg.mask]; try done.
    destruct (Udg.mask u) as [mk|]; cbn [fmap option_fmap option_map]; [|done].
    destruct Hmk. by apply quarter_turns_wf.
Qed.

Lemma tile_transforms_keep_wf_witness :
  (exists u', Udg.flip demo_tile1 3 = Ok u' /\ Udg.wf u') /\
  (exists u', Udg.rotate demo_tile1 5 = Ok u' /\ Udg.wf u').
Proof.
  apply tile_transforms_keep_wf.
  - unfold Udg.wf, Udg.is_byte; simpl. repeat split; repeat constructor; lia.
  - lia.
Defined.

(** ** Tiles: edge cases *)

Lemma getitem_raises_IndexError {A} (l : list A) (i : Z) (e : exn) :
  getitem l i = Raise e -> e = IndexError.
Proof.
  unfold getitem. destruct (norm_index (Py.len l) i) as [j|]; [|by intros [= <-]].
  destruct (l !! j); [discriminate|by intros [= <-]].
Qed.

Lemma setitem_outcome {A} (l : list A) (i : Z) (v : A) :
  match setitem l i v with
  | Ok l' => length l' = length l
  | Raise e => e = IndexError
  end.
Proof.
  unfold setitem. destruct (norm_index (Py.len l) i); [apply length_insert|done].
Qed.

Lemma getitem_beyond {A} (l : list A) (i : Z) :
  Py.len l <= i -> getitem l i = Raise IndexError.
Proof.
  intros Hi. unfold getitem, norm_index.
  pose proof (Nat2Z.is_nonneg (length l)). unfold Py.len in *.
  destruct (Z.ltb_spec i 0); [lia|].
  destruct (Z.leb_spec 0 i); [|lia].
  destruct (Z.ltb_spec i (Z.of_nat (length l))); [lia|]. reflexivity.
Qed.

(** A step of the byte-flipping loop keeps the number of bitmap bytes, and
    raises nothing but [IndexError]. *)
Lemma flip_byte_outcome (u : Udg.t) (i : Z) :
  match Udg.flip_byte u i with
  | Ok u' => length (Udg.data u') = length (Udg.data u)
  | Raise e => e = IndexError
  end.
Proof.
  unfold Udg.flip_byte.
  destruct (getitem (Udg.data u) i) as [d|e] eqn:Hd; cbn [Py.bind];
    [|by eapply getitem_raises_IndexError].
  destruct (getitem FLIP d) as [fd|e] eqn:Hfd; cbn [Py.bind];
    [|by eapply getitem_raises_IndexError].
  pose proof (setitem_outcome (Udg.data u) i fd) as Hset.
  destruct (setitem (Udg.data u) i fd) as [data'|e]; cbn [Py.bind]; [|done].
  destruct (truthy_list (Udg.mask u)); [|done].
  destruct (Udg.mask u) as [m|]; [|done].
  destruct (getitem m i) as [x|e] eqn:Hx; cbn [Py.bind];
    [|by eapply getitem_raises_IndexError].
  destruct (getitem FLIP x) as [fx|e] eqn:Hfx; cbn [Py.bind];
    [|by eapply getitem_raises_IndexError].
  pose proof (setitem_outcome m i fx) as Hsetm.
  destruct (setitem m i fx) as [m'|e]; cbn [Py.bind]; done.
Qed.

Lemma flip_bytes_short (indices : list Z) :
  forall (u : Udg.t) (i : Z),
    In i indices -> Py.len (Udg.data u) <= i ->
    Udg.flip_bytes u indices = Raise IndexError.
Proof.
  induction indices as [|j indices IH]; intros u i Hin Hi; [done|].
  cbn [Udg.flip_bytes].
  pose proof (flip_byte_outcome u j) as Hout.
  destruct (Udg.flip_byte u j) as [u'|e] eqn:Hstep; cbn [Py.bind]; [|by subst].
  destruct Hin as [->|Hin].
  - unfold Udg.flip_byte in Hstep. rewrite getitem_beyond in Hstep by done.
    discriminate.
  - apply (IH u' i Hin). unfold Py.len in *. by rewrite Hout.
Qed.

(** X5: a flip without the horizontal bit never raises, whatever the
    tile holds; a flip with the horizontal bit raises [IndexError] on a
    tile that has fewer than eight bitmap bytes. *)
Theorem flip_short_tile (u : Udg.t) (m : Z) :
  (truthy (Z.land m 1) = false -> exists u', Udg.flip u m = Ok u') /\
  (truthy (Z.land m 1) = true -> (length (Udg.data u) < 8)%nat ->
   Udg.flip u m = Raise IndexError).
Proof.
  unfold Udg.flip. split.
  - intros ->. cbn [Py.bind]. destruct (truthy (Z.land m 2)); eauto.
  - intros -> Hlen.
    rewrite (flip_bytes_short (range 0 8) u (Py.len (Udg.data u))); [done| |lia].
    unfold range. apply in_map_iff. exists (length (Udg.data u)).
    split; [unfold Py.len; lia|]. apply in_seq. simpl. lia.
Qed.

Lemma flip_short_tile_witness :
  (truthy (Z.land 2 1) = false ->
   exists u', Udg.flip (Udg.Make 56 [1; 2; 3] None) 2 = Ok u') /\
  (truthy (Z.land 1 1) = true -> (length [1; 2; 3] < 8)%nat ->
   Udg.flip (Udg.Make 56 [1; 2; 3] None) 1 = Raise IndexError).
Proof.
  split.
  - apply (flip_short_tile (Udg.Make 56 [1; 2; 3] None) 2).
  - apply (flip_short_tile (Udg.Make 56 [1; 2; 3] None) 1).
Defined.

(** X6: a copy of a tile compares equal to the tile, except when the mask
    of the tile is the empty list: the copy then has no mask, and the two
    compare unequal. *)
Theorem copy_equals_original (u : Udg.t) :
  Udg.eqb (Udg.copy u) u = true <-> Udg.mask u <> Some [].
Proof.
  destruct u as [a d [[|x m]|]]; unfold Udg.eqb, Udg.copy; cbn.
  - rewrite !bool_decide_eq_true_2 by done. cbn.
    rewrite bool_decide_eq_false_2 by done. split; [discriminate|congruence].
  - rewrite !bool_decide_eq_true_2 by done. split; [discriminate|done].
  - rewrite !bool_decide_eq_true_2 by done. split; [discriminate|done].
Qed.

(** ** Comprehensions that may raise *)

Lemma map_result_Ok_iff {A B} (f : A -> result B) (l : list A) (ys : list B) :
  map_result f l = Ok ys <-> Forall2 (fun x y => f x = Ok y) l ys.
Proof.
  revert ys. induction l as [|x l IH]; intros ys; simpl.
  - split; [intros [= <-]; constructor|by inversion 1].
  - destruct (f x) as [y|e] eqn:Hx; simpl.
    + destruct (map_result f l) as [ys'|e] eqn:Hl; simpl.
      * split.
        -- intros [= <-]. constructor; [done|by apply IH].
        -- inversion 1 as [|? y' ? ys'' Hy Hys]; subst.
           apply IH in Hys. congruence.
      * split; [discriminate|].
        inversion 1 as [|? y' ? ys'' Hy Hys]; subst. apply IH in Hys. discriminate.
    + split; [discriminate|]. inversion 1; congruence.
Qed.

Lemma map_result_total {A B} (f : A -> result B) (g : A -> B) (l : list A) :
  (forall x, In x l -> f x = Ok (g x)) -> map_result f l = Ok (map g l).
Proof.
  intros Hf. apply map_result_Ok_iff.
  induction l as [|x l IH]; simpl; constructor.
  - apply Hf. by left.
  - apply IH. intros y Hy. apply Hf. by right.
Qed.

Lemma map_result_returns_iff {A B} (f : A -> result B) (l : list A) :
  (exists ys, map_result f l = Ok ys) <-> (forall x, In x l -> exists y, f x = Ok y).
Proof.
  split.
  - intros [ys Hys] x Hx. apply map_result_Ok_iff in Hys.
    induction Hys as [|x' y l' ys' Hy _ IH]; [done|].
    destruct Hx as [->|Hx]; eauto.
  - intros Hf. destruct (map_result_ok f (fun _ => True) l) as (ys & Hys & _).
    + intros a Ha. destruct (Hf a Ha) as [b Hb]. eauto.
    + eauto.
Qed.

(** ** Grids: flips *)

Lemma flip_tiles_wf (udgs : list (list Udg.t)) (m : Z) :
  grid_wf udgs -> 0 <= m <= 3 ->
  map_result (map_result (fun udg => Udg.flip udg m)) udgs
  = Ok (map (map (flipped_tile m)) udgs).
Proof.
  intros Hwf Hm. apply map_result_total. intros row Hrow.
  apply map_result_total. intros u Hu. apply flip_normal; [|done].
  unfold grid_wf in Hwf. rewrite Forall_forall in Hwf.
  specialize (Hwf row ltac:(by apply list_elem_of_In)).
  rewrite Forall_forall in Hwf. apply Hwf. by apply list_elem_of_In.
Qed.

(** What [flip_udgs] returns on a grid of tiles of the data model. *)
Lemma flip_udgs_wf (udgs : list (list Udg.t)) (m : Z) :
  grid_wf udgs -> 0 <= m <= 3 -> flip_udgs udgs m = Ok (flipped_grid m udgs).
Proof.
  intros Hwf Hm. unfold flip_udgs. by rewrite flip_tiles_wf.
Qed.

Lemma grid_wf_map (f : Udg.t -> Udg.t) (udgs : list (list Udg.t)) :
  (forall u, Udg.wf u -> Udg.wf (f u)) -> grid_wf udgs -> grid_wf (map (map f) udgs).
Proof.
  intros Hf Hwf. unfold grid_wf in *. apply Forall_map.
  eapply Forall_impl; [exact Hwf|]. intros row Hrow. apply Forall_map.
  eapply Forall_impl; [exact Hrow|]. intros u Hu. by apply Hf.
Qed.

Lemma grid_wf_rev (udgs : list (list Udg.t)) : grid_wf udgs -> grid_wf (rev udgs).
Proof. apply Forall_rev. Qed.

Lemma grid_wf_map_rev (udgs : list (list Udg.t)) :
  grid_wf udgs -> grid_wf (map (@rev Udg.t) udgs).
Proof.
  intros Hwf. unfold grid_wf in *. apply Forall_map.
  eapply Forall_impl; [exact Hwf|]. intros row. apply Forall_rev.
Qed.

Lemma grid_wf_flipped (m : Z) (udgs : list (list Udg.t)) :
  grid_wf udgs -> grid_wf (flipped_grid m udgs).
Proof.
  intros Hwf. unfold flipped_grid.
  pose proof (grid_wf_map (flipped_tile m) udgs (wf_flipped_tile m) Hwf) as H.
  destruct (truthy (Z.land m 1)), (truthy (Z.land m 2));
    auto using grid_wf_rev, grid_wf_map_rev.
Qed.

Lemma flipped_tile_compose (a b : Z) (u : Udg.t) :
  Udg.wf u -> 0 <= a <= 3 -> 0 <= b <= 3 ->
  flipped_tile b (flipped_tile a u) = flipped_tile (Z.lxor a b) u.
Proof.
  intros (_ & Hd & Hmk) Ha Hb. unfold flipped_tile. cbn [Udg.attr Udg.data Udg.mask].
  rewrite flip_rows_compose by done. f_equal.
  destruct (Udg.mask u) as [mk|]; cbn [fmap option_fmap option_map]; [|done].
  destruct Hmk. by rewrite flip_rows_compose.
Qed.

Lemma map_map_rev_rows {A B} (f : A -> B) (g : list (list A)) :
  map (map f) (map (@rev A) g) = map (@rev B) (map (map f) g).
Proof.
  rewrite !map_map. apply map_ext. intros row. by rewrite map_rev.
Qed.

Lemma map_rev_rows_involutive {A} (g : list (list A)) :
  map (@rev A) (map (@rev A) g) = g.
Proof.
  rewrite map_map. rewrite <- (map_id g) at 2. apply map_ext.
  intros row. apply rev_involutive.
Qed.

Ltac eval_flip_bits :=
  repeat match goal with
         | |- context [truthy (Z.land ?m ?k)] =>
             let v := eval vm_compute in (truthy (Z.land m k)) in
             change (truthy (Z.land m k)) with v
         end.

Lemma flipped_grid_compose (a b : Z) (udgs : list (list Udg.t)) :
  grid_wf udgs -> 0 <= a <= 3 -> 0 <= b <= 3 ->
  flipped_grid b (flipped_grid a udgs) = flipped_grid (Z.lxor a b) udgs.
Proof.
  intros Hwf Ha Hb.
  assert (Htiles : map (map (flipped_tile b)) (map (map (flipped_tile a)) udgs)
                   = map (map (flipped_tile (Z.lxor a b))) udgs).
  { rewrite map_map. apply map_ext_in. intros row Hrow.
    rewrite map_map. apply map_ext_in. intros u Hu.
    apply flipped_tile_compose; [|done|done].
    unfold grid_wf in Hwf. rewrite Forall_forall in Hwf.
    specialize (Hwf row ltac:(by apply list_elem_of_In)).
    rewrite Forall_forall in Hwf. apply Hwf. by apply list_elem_of_In. }
  destruct (flip_mode_cases a Ha) as [-> | [-> | [-> | ->]]];
    destruct (flip_mode_cases b Hb) as [-> | [-> | [-> | ->]]];
    unfold flipped_grid; eval_flip_bits; cbv iota;
    repeat (rewrite map_map_rev_rows || rewrite map_rev);
    rewrite Htiles, ?rev_involutive, ?map_rev_rows_involutive; reflexivity.
Qed.

(** X7: on a grid of tiles of the data model, its rows and tiles being
    distinct objects, flipping the grid with mode [a] and then with mode
    [b] is flipping it once with mode [a xor b]; in particular a flip
    applied twice gives back the grid, tiles and arrangement. *)
Theorem flip_udgs_compose (udgs : list (list Udg.t)) (a b : Z) :
  grid_wf udgs -> 0 <= a <= 3 -> 0 <= b <= 3 ->
  (let* flipped := flip_udgs udgs a in flip_udgs flipped b)
  = flip_udgs udgs (Z.lxor a b).
Proof.
  intros Hwf Ha Hb.
  assert (0 <= Z.lxor a b <= 3) as Hab.
  { destruct (flip_mode_cases a Ha) as [-> | [-> | [-> | ->]]];
      destruct (flip_mode_cases b Hb) as [-> | [-> | [-> | ->]]];
      compute; split; discriminate. }
  rewrite (flip_udgs_wf udgs a Hwf Ha). cbn [Py.bind].
  rewrite (flip_udgs_wf _ b (grid_wf_flipped a udgs Hwf) Hb).
  rewrite (flip_udgs_wf udgs _ Hwf Hab).
  by rewrite flipped_grid_compose.
Qed.

Lemma demo_tiles_wf : Udg.wf demo_tile1 /\ Udg.wf demo_tile2.
Proof.
  unfold Udg.wf, Udg.is_byte; simpl. repeat split; repeat constructor; lia.
Qed.

Lemma demo_grid_wf : grid_wf [[demo_tile1; demo_tile2]; [demo_tile2; demo_tile1]].
Proof. destruct demo_tiles_wf. repeat constructor; done. Qed.

Lemma flip_udgs_compose_witness :
  (let* flipped := flip_udgs [[demo_tile1; demo_tile2]; [demo_tile2; demo_tile1]] 3 in
   flip_udgs flipped 3)
  = flip_udgs [[demo_tile1; demo_tile2]; [demo_tile2; demo_tile1]] (Z.lxor 3 3).
Proof. apply flip_udgs_compose; [apply demo_grid_wf|lia|lia]. Defined.

(** ** Grids: rotations *)

(** The tiles of a grid can always be rotated: the result has the shape
    of the grid. *)
Lemma rotate_tiles_shape (udgs : list (list Udg.t)) (n : Z) :
  exists turned,
    map_result (map_result (fun udg => Udg.rotate udg n)) udgs = Ok turned /\
    Forall2 (fun row row' => length row' = length row) udgs turned.
Proof.
  induction udgs as [|row udgs (turned & Hturned & Hshape)]; simpl.
  - exists []. split; [done|constructor].
  - destruct (map_result_ok (fun udg => Udg.rotate udg n) (fun _ => True) row)
      as (row' & Hrow' & Hlen & _).
    { intros u _. unfold Udg.rotate.
      generalize (Z.to_nat (Z.land n 3)). intros k. revert u.
      induction k as [|k IH]; intros u; simpl; [eauto|].
      destruct (rotate_once_total u) as [u1 ->]. simpl.
      destruct (IH u1) as (b & Hb & _). eauto. }
    rewrite Hrow', Hturned. simpl. eexists. split; [reflexivity|].
    constructor; done.
Qed.

(** X8: on a grid of tiles of the data model, its rows and tiles being
    distinct objects, rotating the grid by 2 is flipping it on both
    axes. *)
Theorem rotate_udgs_half_turn (udgs : list (list Udg.t)) :
  grid_wf udgs -> rotate_udgs udgs 2 = flip_udgs udgs 3.
Proof.
  intros Hwf. rewrite (flip_udgs_wf udgs 3 Hwf) by lia.
  unfold rotate_udgs.
  assert (map_result (map_result (fun udg => Udg.rotate udg 2)) udgs
          = Ok (map (map (flipped_tile 3)) udgs)) as ->.
  { apply map_result_total. intros row Hrow.
    apply map_result_total. intros u Hu.
    assert (Udg.wf u) as Hu_wf.
    { unfold grid_wf in Hwf. rewrite Forall_forall in Hwf.
      specialize (Hwf row ltac:(by apply list_elem_of_In)).
      rewrite Forall_forall in Hwf. apply Hwf. by apply list_elem_of_In. }
    rewrite (rotate_twice_is_flip_both u Hu_wf). apply flip_normal; [done|lia]. }
  cbn [Py.bind]. change (Z.land 2 3 =? 1) with false. change (Z.land 2 3 =? 2) with true.
  cbv iota. unfold flipped_grid.
  change (truthy (Z.land 3 1)) with true. change (truthy (Z.land 3 2)) with true.
  cbv iota. by rewrite map_rev.
Qed.

Lemma rotate_udgs_half_turn_witness :
  rotate_udgs [[demo_tile1; demo_tile2]; [demo_tile2; demo_tile1]] 2
  = flip_udgs [[demo_tile1; demo_tile2]; [demo_tile2; demo_tile1]] 3.
Proof. apply rotate_udgs_half_turn. apply demo_grid_wf. Defined.

Lemma In_range (a b k : Z) : a <= k < b -> In k (range a b).
Proof.
  intros Hk. unfold range. apply in_map_iff. exists (Z.to_nat (k - a)).
  split; [lia|]. apply in_seq. lia.
Qed.

Lemma getitem_nat_returns_iff {A} (l : list A) (n : nat) :
  (exists x, getitem l (Z.of_nat n) = Ok x) <-> (n < length l)%nat.
Proof.
  split.
  - intros [x Hx]. destruct (le_lt_dec (length l) n) as [Hle|]; [|done].
    rewrite getitem_beyond in Hx by (unfold Py.len; lia). discriminate.
  - intros Hn. destruct (lookup_lt_is_Some_2 l n Hn) as [x Hx].
    exists x. by apply getitem_nat.
Qed.

(** The columns of a grid can be read exactly when no row is shorter than
    the number of columns asked for; each column then has a tile per
    row. *)
Lemma columns_return (g : list (list Udg.t)) (c : nat) :
  ((exists cols,
       map_result
         (fun i => map_result (fun j => grid_item g j i) (range 0 (Py.len g)))
         (range 0 (Z.of_nat c)) = Ok cols)
   <-> Forall (fun row => (c <= length row)%nat) g) /\
  (forall cols,
      map_result
        (fun i => map_result (fun j => grid_item g j i) (range 0 (Py.len g)))
        (range 0 (Z.of_nat c)) = Ok cols ->
      length cols = c /\ Forall (fun col => length col = length g) cols).
Proof.
  split.
  - rewrite map_result_returns_iff. split.
    + intros Hall. apply Forall_forall. intros row Hrow.
      apply list_elem_of_lookup_1 in Hrow as [jn Hjn].
      destruct c as [|c']; [lia|].
      destruct (Hall (Z.of_nat c')) as [col Hcol]; [apply In_range; lia|].
      assert (exists y, grid_item g (Z.of_nat jn) (Z.of_nat c') = Ok y) as [y Hy].
      { apply (proj1 (map_result_returns_iff _ _) (ex_intro _ col Hcol)).
        apply In_range. split; [lia|]. unfold Py.len.
        apply Nat2Z.inj_lt. by eapply lookup_lt_Some. }
      unfold grid_item in Hy.
      rewrite (getitem_nat g jn row Hjn) in Hy.
      cbn [Py.bind] in Hy.
      assert (c' < length row)%nat; [|lia].
      apply getitem_nat_returns_iff. eauto.
    + intros Hrows i Hi%range_In.
      apply map_result_returns_iff. intros j Hj%range_In.
      unfold Py.len in Hj.
      destruct (lookup_lt_is_Some_2 g (Z.to_nat j)) as [row Hrow]; [lia|].
      unfold grid_item. rewrite <- (Z2Nat.id j) by lia.
      rewrite (getitem_nat g _ row Hrow). cbn [Py.bind].
      rewrite <- (Z2Nat.id i) by lia. apply getitem_nat_returns_iff.
      rewrite Forall_forall in Hrows.
      specialize (Hrows row ltac:(by eapply list_elem_of_lookup_2)). lia.
  - intros cols Hcols. apply map_result_Ok_iff in Hcols.
    pose proof (Forall2_length _ _ _ Hcols) as Hlen. split.
    + rewrite <- Hlen. pose proof (range_length 0 (Z.of_nat c)) as Hr.
      unfold Py.len in Hr. lia.
    + apply Forall_forall. intros col Hcol.
      apply list_elem_of_lookup_1 in Hcol as [k Hk].
      destruct (Forall2_lookup_r _ _ _ _ _ Hcols Hk) as (i & _ & Hi).
      apply map_result_Ok_iff, Forall2_length in Hi. rewrite <- Hi.
      pose proof (range_length 0 (Py.len g)) as Hr. unfold Py.len in *. lia.
Qed.

Lemma map_result_post {A B C} (f : A -> result B) (h : B -> C) (l : list A) :
  map_result (fun x => let* y := f x in Ok (h y)) l
  = (let* ys := map_result f l in Ok (map h ys)).
Proof.
  induction l as [|x l IH]; simpl; [done|].
  destruct (f x) as [y|e]; simpl; [|done].
  rewrite IH. by destruct (map_result f l).
Qed.

(** When a quarter turn of a grid returns, and the shape of what it
    returns. *)
Lemma quarter_turn_of_grid (udgs : list (list Udg.t)) (m : Z) :
  Z.land m 3 = 1 \/ Z.land m 3 = 3 ->
  ((exists g, rotate_udgs udgs m = Ok g) <->
   exists row0, udgs !! 0%nat = Some row0 /\
                Forall (fun row => (length row0 <= length row)%nat) udgs) /\
  (forall g, rotate_udgs udgs m = Ok g ->
             exists row0, udgs !! 0%nat = Some row0 /\
                          length g = length row0 /\
                          Forall (fun row => length row = length udgs) g).
Proof.
  intros Hm.
  destruct (rotate_tiles_shape udgs m) as (turned & Hturned & Hshape).
  unfold rotate_udgs. rewrite Hturned. cbn [Py.bind].
  pose proof (Forall2_length _ _ _ Hshape) as Hrows.
  destruct Hshape as [|row0 row0' udgs' turned' Hlen0 Hshape'].
  { assert ((if Z.land m 3 =? 1 then Raise IndexError
             else if Z.land m 3 =? 2 then Ok []
             else if Z.land m 3 =? 3 then Raise IndexError else Ok [])
            = Raise (A:=list (list Udg.t)) IndexError) as Hraise.
    { destruct Hm as [-> | ->]; reflexivity. }
    change (getitem (A:=list Udg.t) [] 0) with (Raise (A:=list Udg.t) IndexError).
    cbn [Py.bind]. cbn [rev map app]. rewrite Hraise.
    split; [|discriminate]. split; [intros [g Hg]; discriminate|].
    intros (row0 & Hrow0 & _). discriminate. }
  change (getitem (row0' :: turned') 0) with (Ok (A:=list Udg.t) row0').
  cbn [Py.bind].
  set (g := row0' :: turned') in *.
  destruct (columns_return g (length row0')) as [Hiff Hdims].
  unfold Py.len in *.
  assert (Forall (fun row => (length row0' <= length row)%nat) g
          <-> Forall (fun row => (length row0 <= length row)%nat) (row0 :: udgs'))
    as Hsame.
  { assert (Forall2 (fun row row' => length row' = length row) (row0 :: udgs') g)
      as Hall by (by constructor).
    rewrite <- Hlen0. clear -Hall. split; intros H.
    - induction Hall; inversion H; subst; constructor; [lia|auto].
    - induction Hall; inversion H; subst; constructor; [lia|auto]. }
  rewrite map_result_post.
  set (cols := map_result
                 (fun i => map_result (fun j => grid_item g j i)
                             (range 0 (Z.of_nat (length g))))
                 (range 0 (Z.of_nat (length row0')))) in *.
  clearbody cols.
  assert (forall rows : list (list Udg.t),
             (if Z.land m 3 =? 1 then let* ys := cols in Ok (map (rev (A:=Udg.t)) ys)
              else if Z.land m 3 =? 2 then Ok (map (rev (A:=Udg.t)) (rev g))
              else if Z.land m 3 =? 3 then let* rotated := cols in Ok (rev rotated)
              else Ok g) = Ok rows ->
             exists cs, cols = Ok cs /\ length rows = length cs /\
                        Forall (fun row => length row = length g) rows
                        \/ False) as Hout.
  { intros rows. destruct Hm as [-> | ->]; simpl;
      destruct cols as [cs|e] eqn:Hcs; simpl; try discriminate;
      intros [= <-]; exists cs; left; (split; [done|]);
      destruct (Hdims cs eq_refl) as [_ Hc].
    - rewrite length_map. split; [done|]. apply Forall_map.
      eapply Forall_impl; [exact Hc|]. intros col. simpl. by rewrite length_rev.
    - rewrite length_rev. split; [done|]. by apply Forall_rev. }
  split.
  - split.
    + intros [rows Hrows']. destruct (Hout rows Hrows') as (cs & [(Hcs & _) | []]).
      exists row0. split; [done|]. apply Hsame, Hiff. eauto.
    + intros (r & [= <-] & Hall). apply Hsame, Hiff in Hall as [cs Hcs].
      rewrite Hcs. destruct Hm as [-> | ->]; simpl; eauto.
  - intros rows Hrows'. destruct (Hout rows Hrows') as (cs & [(Hcs & Hlen & Hall) | []]).
    exists row0. split; [done|]. destruct (Hdims cs Hcs) as [Hc _].
    split; [congruence|]. eapply Forall_impl; [exact Hall|].
    intros row Hrow. simpl in Hrow. by rewrite Hrows.
Qed.

(** The only exception that [rotate_udgs] raises is [IndexError]. *)
Lemma rotate_udgs_raises_IndexError (udgs : list (list Udg.t)) (m : Z) (e : exn) :
  rotate_udgs udgs m = Raise e -> e = IndexError.
Proof.
  unfold rotate_udgs.
  destruct (rotate_tiles_shape udgs m) as (turned & -> & _).
  cbn [Py.bind].
  assert (forall (i : Z) e',
             map_result (fun j => grid_item turned j i) (range 0 (Py.len turned))
             = Raise e' -> e' = IndexError) as Hcol.
  { intros i e'. generalize (range 0 (Py.len turned)). intros l.
    induction l as [|j l IH]; simpl; [discriminate|].
    unfold grid_item at 1.
    destruct (getitem turned j) as [row|e1] eqn:Hrow; cbn [Py.bind].
    - destruct (getitem row i) as [u|e2] eqn:Hu; cbn [Py.bind].
      + destruct (map_result _ l); cbn [Py.bind]; [discriminate|].
        intros [= <-]. by apply IH.
      + intros [= <-]. by eapply getitem_raises_IndexError.
    - intros [= <-]. by eapply getitem_raises_IndexError. }
  assert (forall (l : list Z) e',
             map_result
               (fun i => map_result (fun j => grid_item turned j i)
                           (range 0 (Py.len turned))) l
             = Raise e' -> e' = IndexError) as Hcols.
  { intros l e'. induction l as [|i l IH]; simpl; [discriminate|].
    destruct (map_result (fun j => grid_item turned j i) _) as [c|e1] eqn:Hc;
      cbn [Py.bind].
    - destruct (map_result _ l); cbn [Py.bind]; [discriminate|].
      intros [= <-]. by apply IH.
    - intros [= <-]. by eapply Hcol. }
  destruct (Z.land m 3 =? 1).
  - destruct (getitem turned 0) as [row0|e0] eqn:H0; cbn [Py.bind].
    + rewrite map_result_post. specialize (Hcols (range 0 (Py.len row0))).
      destruct (map_result _ (range 0 (Py.len row0))) as [cs|e1];
        cbn [Py.bind]; [discriminate|].
      intros [= <-]. by apply Hcols.
    + intros [= <-]. by eapply getitem_raises_IndexError.
  - destruct (Z.land m 3 =? 2); [discriminate|].
    destruct (Z.land m 3 =? 3); [|discriminate].
    destruct (getitem turned 0) as [row0|e0] eqn:H0; cbn [Py.bind].
    + specialize (Hcols (range 0 (Py.len row0))).
      destruct (map_result _ (range 0 (Py.len row0))) as [cs|e1];
        cbn [Py.bind]; [discriminate|].
      intros [= <-]. by apply Hcols.
    + intros [= <-]. by eapply getitem_raises_IndexError.
Qed.

(** X9: a rotation of a grid by a quarter turn, clockwise ([rotate & 3]
    is 1) or anticlockwise (it is 3), returns exactly when the grid has a
    first row and no row shorter than it, and raises [IndexError], and
    nothing else, when it does not; the result then has a row per tile of
    the first row, each with a tile per row of the grid, so the tiles that
    longer rows have beyond the first row's length are left out. *)
Theorem rotate_udgs_quarter_turn (udgs : list (list Udg.t)) (m : Z) :
  Z.land m 3 = 1 \/ Z.land m 3 = 3 ->
  ((exists g, rotate_udgs udgs m = Ok g) <->
   exists row0, udgs !! 0%nat = Some row0 /\
                Forall (fun row => (length row0 <= length row)%nat) udgs) /\
  (forall g, rotate_udgs udgs m = Ok g ->
             exists row0, udgs !! 0%nat = Some row0 /\
                          length g = length row0 /\
                          Forall (fun row => length row = length udgs) g) /\
  (forall e, rotate_udgs udgs m = Raise e -> e = IndexError).
Proof.
  intros Hm. destruct (quarter_turn_of_grid udgs m Hm) as [Hiff Hshape].
  split; [done|]. split; [done|]. intros e. apply rotate_udgs_raises_IndexError.
Qed.

Lemma rotate_udgs_quarter_turn_witness :
  ((exists g, rotate_udgs [[demo_tile1; demo_tile2]; [demo_tile2]] 1 = Ok g) <->
   exists row0, [[demo_tile1; demo_tile2]; [demo_tile2]] !! 0%nat = Some row0 /\
                Forall (fun row => (length row0 <= length row)%nat)
                  [[demo_tile1; demo_tile2]; [demo_tile2]]) /\
  (forall g, rotate_udgs [[demo_tile1; demo_tile2]; [demo_tile2]] 1 = Ok g ->
             exists row0, [[demo_tile1; demo_tile2]; [demo_tile2]] !! 0%nat = Some row0 /\
                          length g = length row0 /\
                          Forall (fun row =>
                                    length row
                                    = length [[demo_tile1; demo_tile2]; [demo_tile2]]) g) /\
  (forall e, rotate_udgs [[demo_tile1; demo_tile2]; [demo_tile2]] 1 = Raise e ->
             e = IndexError).
Proof. apply rotate_udgs_quarter_turn. left. reflexivity. Defined.

(** ** Address ranges *)

Lemma range_cons (a b : Z) : a < b -> range a b = a :: range (a + 1) b.
Proof.
  intros Hab. unfold range.
  replace (Z.to_nat (b - a)) with (S (Z.to_nat (b - (a + 1)))) by lia.
  cbn [seq map]. f_equal; [lia|].
  rewrite <- seq_shift, map_map. apply map_ext. intros k. lia.
Qed.

Lemma range_empty (a b : Z) : b <= a -> range a b = [].
Proof. intros Hab. unfold range. by replace (Z.to_nat (b - a)) with 0%nat by lia. Qed.

Lemma nth_address_step (a h v w n : Z) :
  1 <= w -> 0 <= n ->
  (if truthy ((n + 1) mod w) then nth_address a h v w n + h
   else nth_address a h v w n + (v - (w - 1) * h))
  = nth_address a h v w (n + 1).
Proof.
  intros Hw Hn. unfold nth_address, truthy.
  pose proof (Z.div_mod n w ltac:(lia)) as Hdm.
  pose proof (Z.mod_pos_bound n w ltac:(lia)) as Hr.
  destruct (Z.ltb_spec (n mod w + 1) w) as [Hlt|Hge].
  - assert ((n + 1) / w = n / w) as ->.
    { symmetry. apply (Z.div_unique _ _ _ (n mod w + 1)); lia. }
    assert ((n + 1) mod w = n mod w + 1) as ->.
    { symmetry. apply (Z.mod_unique _ _ (n / w)); lia. }
    destruct (Z.eqb_spec (n mod w + 1) 0) as [H0|_]; [lia|]. cbn. lia.
  - assert ((n + 1) / w = n / w + 1) as ->.
    { symmetry. apply (Z.div_unique _ _ _ 0); lia. }
    assert ((n + 1) mod w = 0) as ->.
    { symmetry. apply (Z.mod_unique _ _ (n / w + 1)); lia. }
    cbn. assert (n mod w = w - 1) as -> by lia. lia.
Qed.

Lemma addresses_loop_formula (a e h v w : Z) (fuel : nat) :
  1 <= w ->
  forall (acc l : list Z),
    addresses_loop fuel (nth_address a h v w (Py.len acc)) e h v w acc = Ok l ->
    exists n : nat,
      l = acc ++ map (nth_address a h v w)
                     (range (Py.len acc) (Py.len acc + Z.of_nat n)) /\
      (forall k, Py.len acc <= k < Py.len acc + Z.of_nat n ->
                 nth_address a h v w k <= e) /\
      e < nth_address a h v w (Py.len acc + Z.of_nat n).
Proof.
  intros Hw. induction fuel as [|fuel IH]; intros acc l; simpl.
  - destruct (Z.leb_spec (nth_address a h v w (Py.len acc)) e) as [Hle|Hgt];
      [discriminate|].
    intros [= <-]. exists 0%nat. rewrite Z.add_0_r, range_empty by lia.
    simpl. rewrite app_nil_r. repeat split; [|done]. intros k Hk. lia.
  - destruct (Z.leb_spec (nth_address a h v w (Py.len acc)) e) as [Hle|Hgt].
    + destruct (Z.eqb_spec w 0) as [->|_]; [lia|].
      assert (Py.len (acc ++ [nth_address a h v w (Py.len acc)]) = Py.len acc + 1)
        as Hlen by (unfold Py.len; rewrite length_app; simpl; lia).
      rewrite Hlen, nth_address_step by (unfold Py.len; lia).
      rewrite <- Hlen at 1. intros Hloop.
      destruct (IH _ _ Hloop) as (n & -> & Hall & Hnext).
      rewrite Hlen in *. exists (S n).
      replace (Py.len acc + Z.of_nat (S n)) with (Py.len acc + 1 + Z.of_nat n) by lia.
      split; [|split; [|done]].
      * rewrite (range_cons (Py.len acc)) by lia. by rewrite <- app_assoc.
      * intros k Hk. destruct (Z.eq_dec k (Py.len acc)) as [->|Hne]; [done|].
        apply Hall. lia.
    + intros [= <-]. exists 0%nat. rewrite Z.add_0_r, range_empty by lia.
      simpl. rewrite app_nil_r. repeat split; [|done]. intros k Hk. lia.
Qed.

Lemma addresses_loop_returns (e h v w : Z) (fuel : nat) :
  w <> 0 -> 1 <= h -> (w - 1) * h < v ->
  forall (address : Z) (acc : list Z),
    (Z.to_nat (e - address + 1) <= fuel)%nat ->
    exists l, addresses_loop fuel address e h v w acc = Ok l.
Proof.
  intros Hw Hh Hv. induction fuel as [|fuel IH]; intros address acc Hfuel; simpl.
  - destruct (Z.leb_spec address e); [lia|eauto].
  - destruct (Z.leb_spec address e); [|eauto].
    destruct (Z.eqb_spec w 0); [done|].
    apply IH. destruct (truthy _); lia.
Qed.

Lemma split_from_nonempty (sep : ascii) (m : option nat) (s cur : string) :
  Str.split_from sep m s cur <> [].
Proof.
  revert m cur. induction s as [|c s IH]; intros m cur; simpl; [done|].
  destruct (Ascii.eqb c sep); [|apply IH].
  destruct m as [[|m]|]; [apply IH|done|done].
Qed.

Lemma map_result_length {A B} (f : A -> result B) (l : list A) (bs : list B) :
  map_result f l = Ok bs -> length bs = length l.
Proof.
  revert bs. induction l as [|a l IH]; intros bs; simpl.
  - by intros [= <-].
  - destruct (f a); simpl; [|done].
    destruct (map_result f l) as [ys|]; simpl; [|done].
    intros [= <-]. simpl. f_equal. by apply IH.
Qed.

(** The fields of an address range without repetition count, as
    [_get_udg_addresses] reads them. *)
Lemma _get_udg_addresses_fields (fuel : nat) (s : string) (w : Z) (els : list Z) :
  Str.contains "x" s = false ->
  map_result get_int_param (Str.split "-" (Some 3%nat) s) = Ok els ->
  exists a rest,
    els = a :: rest /\
    _get_udg_addresses fuel (AddrStr s) w
    = match rest with
      | [] => let* l := addresses_loop fuel a a 1 (1 * w) w [] in Ok (repeat_list l 1)
      | [e] => let* l := addresses_loop fuel a e 1 (1 * w) w [] in Ok (repeat_list l 1)
      | [e; h] => let* l := addresses_loop fuel a e h (h * w) w [] in Ok (repeat_list l 1)
      | [e; h; v] => let* l := addresses_loop fuel a e h v w [] in Ok (repeat_list l 1)
      | _ => Raise ValueError
      end.
Proof.
  intros Hx Hels. unfold _get_udg_addresses. rewrite Hx. cbn [Py.bind]. rewrite Hels.
  unfold reraise_value_error. cbn [Py.bind].
  destruct els as [|a rest].
  { apply map_result_length in Hels. simpl in Hels.
    destruct (Str.split "-" (Some 3%nat) s) eqn:E; [|done].
    by apply split_from_nonempty in E. }
  exists a, rest. split; [done|].
  destruct rest as [|e [|h [|v [|x rest]]]]; try reflexivity.
  assert (5 <= Py.len (a :: e :: h :: v :: x :: rest)) as Hlen
    by (unfold Py.len; simpl; lia).
  destruct (Z.ltb_spec (Py.len (a :: e :: h :: v :: x :: rest)) 2); [lia|].
  destruct (Z.ltb_spec (Py.len (a :: e :: h :: v :: x :: rest)) 3); [lia|].
  destruct (Z.ltb_spec (Py.len (a :: e :: h :: v :: x :: rest)) 4); [lia|].
  reflexivity.
Qed.

Lemma repeat_list_1 {A} (l : list A) : repeat_list l 1 = l.
Proof. unfold repeat_list. simpl. apply app_nil_r. Qed.

Lemma nth_address_default (a h w k : Z) :
  1 <= w -> nth_address a h (h * w) w k = a + k * h.
Proof.
  intros Hw. unfold nth_address.
  pose proof (Z.div_mod k w ltac:(lia)) as Hdm. nia.
Qed.

Lemma addresses_loop_from_start (a e h v w : Z) (fuel : nat) (l : list Z) :
  1 <= w ->
  addresses_loop fuel a e h v w [] = Ok l ->
  l = map (nth_address a h v w) (range 0 (Py.len l)) /\
  Forall (fun x => x <= e) l /\
  e < nth_address a h v w (Py.len l).
Proof.
  intros Hw Hloop.
  assert (nth_address a h v w (Py.len (@nil Z)) = a) as Ha.
  { unfold nth_address, Py.len. simpl. rewrite Z.mod_0_l, Z.div_0_l by lia. lia. }
  rewrite <- Ha in Hloop at 1.
  destruct (addresses_loop_formula a e h v w fuel Hw [] l Hloop) as (n & Hl & Hall & Hn).
  change (Py.len (@nil Z)) with 0 in *. rewrite Z.add_0_l in *. simpl in Hl.
  assert (Py.len l = Z.of_nat n) as Hlen.
  { rewrite Hl. unfold Py.len, range. rewrite !length_map, length_seq. lia. }
  rewrite Hlen. split; [done|]. split; [|done].
  rewrite Hl. apply List.Forall_forall. intros x Hx.
  apply in_map_iff in Hx as (k & <- & Hk). apply Hall.
  unfold range in Hk. apply in_map_iff in Hk as (i & <- & Hi).
  apply in_seq in Hi. lia.
Qed.

Lemma addresses_loop_default (a e h w : Z) (fuel : nat) :
  1 <= w -> 1 <= h -> (Z.to_nat (e - a + 1) <= fuel)%nat ->
  addresses_loop fuel a e h (h * w) w []
  = Ok (map (fun k => a + k * h) (range 0 ((e - a) / h + 1))).
Proof.
  intros Hw Hh Hfuel.
  destruct (addresses_loop_returns e h (h * w) w fuel ltac:(lia) Hh ltac:(nia) a [] Hfuel)
    as [l Hl].
  rewrite Hl. f_equal.
  destruct (addresses_loop_from_start _ _ _ _ _ _ _ Hw Hl) as (Heq & Hall & Hnext).
  rewrite nth_address_default in Hnext by done.
  assert (range 0 ((e - a) / h + 1) = range 0 (Py.len l)) as ->.
  { destruct l as [|x l'] eqn:El.
    - change (Py.len (@nil Z)) with 0 in *.
      rewrite !range_empty; [done|lia|].
      assert ((e - a) / h < 0); [|lia]. apply Z.div_lt_upper_bound; lia.
    - rewrite <- El in *. f_equal.
      assert (a + (Py.len l - 1) * h <= e) as Hlast.
      { rewrite List.Forall_forall in Hall. apply Hall. rewrite Heq at 2.
        apply in_map_iff. exists (Py.len l - 1).
        split; [by apply nth_address_default|].
        unfold range. apply in_map_iff. exists (length l - 1)%nat.
        assert (0 < length l)%nat by (rewrite El; simpl; lia).
        split; [unfold Py.len; lia|]. apply in_seq. unfold Py.len. lia. }
      assert ((e - a) / h = Py.len l - 1); [|lia].
      symmetry. apply (Z.div_unique _ _ _ (e - a - h * (Py.len l - 1))); lia. }
  rewrite Heq at 1. apply map_ext. intros k. by apply nth_address_default.
Qed.

(** X10: an address range [a-e-h] (no vertical step given, so it is [h]
    times the width), with or without [e] and [h] (which default to [a]
    and 1), and with a step [h >= 1], expands to [a, a+h, a+2h, ...] up to
    [e], whatever the width: the addresses are not arranged in rows. *)
Theorem udg_addresses_default_v_step (fuel : nat) (s : string) (w : Z)
    (els : list Z) :
  let a := default 0 (els !! 0%nat) in
  let e := default a (els !! 1%nat) in
  let h := default 1 (els !! 2%nat) in
  Str.contains "x" s = false ->
  map_result get_int_param (Str.split "-" (Some 3%nat) s) = Ok els ->
  (length els <= 3)%nat ->
  1 <= w -> 1 <= h -> (Z.to_nat (e - a + 1) <= fuel)%nat ->
  _get_udg_addresses fuel (AddrStr s) w
  = Ok (map (fun k => a + k * h) (range 0 ((e - a) / h + 1))).
Proof.
  intros a e h Hx Hels Hlen Hw Hh Hfuel.
  destruct (_get_udg_addresses_fields fuel s w els Hx Hels) as (a' & rest & -> & ->).
  destruct rest as [|e' [|h' [|v' rest]]]; simpl in a, e, h, Hlen; [| | |lia];
    subst a e h; rewrite addresses_loop_default by done;
    cbn [Py.bind]; by rewrite repeat_list_1.
Qed.

Lemma udg_addresses_default_v_step_witness :
  _get_udg_addresses 4 (AddrStr "30000-30003-2") 2
  = Ok (map (fun k => 30000 + k * 2) (range 0 ((30003 - 30000) / 2 + 1))).
Proof.
  apply (udg_addresses_default_v_step 4 "30000-30003-2" 2 [30000; 30003; 2]);
    try reflexivity; simpl; lia.
Defined.

(** X11: an address range [a-e-h-v] with steps [h >= 1] and
    [v > (width-1)*h] and a width of at least 1 expands to the addresses
    [a + (k mod width)*h + (k / width)*v] for [k = 0, 1, ...] up to, and
    not including, the first of them that is greater than [e]; the
    addresses after that one are not looked at. *)
Theorem udg_addresses_explicit_steps (fuel : nat) (s : string) (w a e h v : Z) :
  Str.contains "x" s = false ->
  map_result get_int_param (Str.split "-" (Some 3%nat) s) = Ok [a; e; h; v] ->
  1 <= w -> 1 <= h -> (w - 1) * h < v -> (Z.to_nat (e - a + 1) <= fuel)%nat ->
  exists l,
    _get_udg_addresses fuel (AddrStr s) w = Ok l /\
    l = map (nth_address a h v w) (range 0 (Py.len l)) /\
    Forall (fun x => x <= e) l /\
    e < nth_address a h v w (Py.len l).
Proof.
  intros Hx Hels Hw Hh Hv Hfuel.
  destruct (_get_udg_addresses_fields fuel s w _ Hx Hels) as (a' & rest & [= <- <-] & ->).
  destruct (addresses_loop_returns e h v w fuel ltac:(lia) Hh Hv a [] Hfuel) as [l Hl].
  rewrite Hl. cbn [Py.bind]. rewrite repeat_list_1. exists l. split; [done|].
  by apply (addresses_loop_from_start a e h v w fuel).
Qed.

Lemma udg_addresses_explicit_steps_witness :
  exists l,
    _get_udg_addresses 40 (AddrStr "100-139-1-32") 2 = Ok l /\
    l = map (nth_address 100 1 32 2) (range 0 (Py.len l)) /\
    Forall (fun x => x <= 139) l /\
    139 < nth_address 100 1 32 2 (Py.len l).
Proof.
  apply (udg_addresses_explicit_steps 40 "100-139-1-32" 2 100 139 1 32);
    try reflexivity; simpl; lia.
Defined.

Lemma addresses_loop_zero_step (a e w : Z) (fuel : nat) (acc : list Z) :
  a <= e -> w <> 0 ->
  addresses_loop fuel a e 0 (0 * w) w acc = Raise OutOfFuel.
Proof.
  intros Hae Hw. revert acc. induction fuel as [|fuel IH]; intros acc; simpl.
  - by destruct (Z.leb_spec a e); [|lia].
  - destruct (Z.leb_spec a e); [|lia].
    destruct (Z.eqb_spec w 0); [done|].
    replace (if truthy (Py.len (acc ++ [a]) mod w) then a + 0
             else a + (0 * w - (w - 1) * 0))
      with a by (destruct (truthy _); lia).
    apply IH.
Qed.

(** X12: an address range [a-e-0] with [a <= e] (a horizontal step of 0
    and no vertical step, which is then 0 too) never expands: the loop of
    [_get_udg_addresses] appends [a] for ever, whatever the non-zero
    width, so no number of iterations makes it return. *)
Theorem udg_addresses_zero_step_no_return (s : string) (w a e : Z) :
  Str.contains "x" s = false ->
  map_result get_int_param (Str.split "-" (Some 3%nat) s) = Ok [a; e; 0] ->
  a <= e -> w <> 0 ->
  forall fuel, _get_udg_addresses fuel (AddrStr s) w = Raise OutOfFuel.
Proof.
  intros Hx Hels Hae Hw fuel.
  destruct (_get_udg_addresses_fields fuel s w _ Hx Hels) as (a' & rest & [= <- <-] & ->).
  by rewrite addresses_loop_zero_step.
Qed.

Lemma udg_addresses_zero_step_no_return_witness :
  _get_udg_addresses 1000 (AddrStr "1-2-0") 2 = Raise OutOfFuel.
Proof.
  apply (udg_addresses_zero_step_no_return "1-2-0" 2 1 2); try reflexivity; lia.
Defined.

Lemma addresses_loop_zero_width (a e h v : Z) (fuel : nat) (acc : list Z) :
  a <= e ->
  addresses_loop (S fuel) a e h v 0 acc = Raise ZeroDivisionError.
Proof. intros Hae. simpl. by destruct (Z.leb_spec a e); [|lia]. Qed.

(** X13: with a width of 0, an address range given as a string whose
    first address is not beyond its end raises [ZeroDivisionError], not a
    macro parsing error: the width is the divisor of the row test and is
    not checked. *)
Theorem udg_addresses_zero_width (fuel : nat) (s : string) (a : Z) (rest : list Z) :
  Str.contains "x" s = false ->
  map_result get_int_param (Str.split "-" (Some 3%nat) s) = Ok (a :: rest) ->
  (length rest <= 3)%nat ->
  a <= default a (rest !! 0%nat) ->
  _get_udg_addresses (S fuel) (AddrStr s) 0 = Raise ZeroDivisionError.
Proof.
  intros Hx Hels Hlen Hae.
  destruct (_get_udg_addresses_fields (S fuel) s 0 _ Hx Hels)
    as (a' & rest' & [= <- <-] & ->).
  destruct rest as [|e [|h [|v [|x rest]]]]; simpl in Hae, Hlen;
    [| | | |lia]; by rewrite addresses_loop_zero_width.
Qed.

Lemma udg_addresses_zero_width_witness :
  _get_udg_addresses 1 (AddrStr "32768") 0 = Raise ZeroDivisionError.
Proof.
  apply (udg_addresses_zero_width 0 "32768" 32768 []); try reflexivity; simpl; lia.
Defined.

Lemma string_app_cons (c : ascii) (s t : string) :
  (String c s ++ t)%string = String c (s ++ t).
Proof. reflexivity. Qed.

Lemma string_app_empty_r (s : string) : (s ++ "")%string = s.
Proof. induction s as [|c s IH]; [done|by rewrite string_app_cons, IH]. Qed.

Lemma string_app_snoc (s t : string) (c : ascii) :
  ((s ++ String c "") ++ t)%string = (s ++ String c t)%string.
Proof. induction s as [|d s IH]; [done|by rewrite !string_app_cons, IH]. Qed.

Lemma split_from_no_more (sep : ascii) (s cur : string) :
  Str.split_from sep (Some 0%nat) s cur = [(cur ++ s)%string].
Proof.
  revert cur. induction s as [|c s IH]; intros cur; simpl.
  - by rewrite string_app_empty_r.
  - rewrite <- (string_app_snoc cur s c). destruct (Ascii.eqb c sep); apply IH.
Qed.

Lemma contains_app_sep (sep : ascii) (base rest : string) :
  Str.contains sep (base ++ String sep rest) = true.
Proof.
  unfold Str.contains, Str.chars.
  induction base as [|c base IH].
  - simpl. by rewrite Ascii.eqb_refl.
  - rewrite string_app_cons. simpl. rewrite IH. apply orb_true_r.
Qed.

Lemma split_once (sep : ascii) (base rest cur : string) :
  Str.contains sep base = false ->
  Str.split_from sep (Some 1%nat) (base ++ String sep rest) cur
  = [(cur ++ base)%string; rest].
Proof.
  unfold Str.contains, Str.chars. revert cur.
  induction base as [|c base IH]; intros cur.
  - intros _. simpl. by rewrite Ascii.eqb_refl, split_from_no_more, string_app_empty_r.
  - rewrite string_app_cons. simpl. intros Hc.
    apply orb_false_elim in Hc as [Hc Hbase].
    by rewrite Ascii.eqb_sym, Hc, IH, (string_app_snoc cur base c).
Qed.

(** X14: a repetition count: when the range [base] (which holds no [x])
    expands to the addresses [l] and [n] is the literal of the integer
    [num], the range [base] followed by [x] and [n] expands to [l] repeated
    [num] times, which is the empty list when [num] is 0. *)
Theorem udg_addresses_repetition (fuel : nat) (base n : string) (num w : Z)
    (l : list Z) :
  Str.contains "x" base = false ->
  get_int_param n = Ok num ->
  _get_udg_addresses fuel (AddrStr base) w = Ok l ->
  _get_udg_addresses fuel (AddrStr (base ++ String "x" n)) w = Ok (repeat_list l num).
Proof.
  intros Hx Hn. unfold _get_udg_addresses.
  rewrite Hx, contains_app_sep. unfold Str.split.
  rewrite (split_once "x" base n "" Hx).
  change (String.append "" base) with base. cbn [Py.bind].
  rewrite Hn. cbn [reraise_value_error Py.bind].
  destruct (map_result get_int_param (Str.split_from "-" (Some 3%nat) base ""))
    as [els|[]]; cbn [reraise_value_error Py.bind]; try discriminate.
  match goal with
  | |- match ?el with _ => _ end = _ -> _ => destruct el as [|a [|b [|c [|d [|]]]]]
  end; try discriminate.
  destruct (addresses_loop fuel a b c d w []) as [addresses|]; cbn [Py.bind];
    [|discriminate].
  rewrite repeat_list_1. by intros [= ->].
Qed.

Lemma udg_addresses_repetition_witness :
  _get_udg_addresses 3 (AddrStr ("30000-30002" ++ String "x" "2")) 1
  = Ok (repeat_list [30000; 30001; 30002] 2).
Proof. apply udg_addresses_repetition; reflexivity. Defined.

(** ** Sequences of snapshot operations *)

Lemma run_ops_app (ops1 ops2 : list snapshot_op) (w : HtmlWriter) :
  run_ops (ops1 ++ ops2) w
  = match run_ops ops1 w with
    | (Ok _, w') => run_ops ops2 w'
    | (Raise e, w') => (Raise e, w')
    end.
Proof.
  revert w. induction ops1 as [|op ops1 IH]; intros w; simpl; [done|].
  unfold bindM. destruct (run_op op w) as [[u|e] w1]; [apply IH|done].
Qed.

Lemma setitem_length {A} (l l' : list A) (i : Z) (v : A) :
  setitem l i v = Ok l' -> length l' = length l.
Proof.
  unfold setitem. destruct (norm_index (Py.len l) i); [|done].
  intros [= <-]. apply length_insert.
Qed.

Lemma setitem_returns {A} (l : list A) (i : Z) (v : A) :
  - Py.len l <= i < Py.len l -> exists l', setitem l i v = Ok l'.
Proof.
  intros Hi. destruct (norm_index_in_range _ _ Hi) as (j & Hj & _).
  unfold setitem. rewrite Hj. eauto.
Qed.

(** A well-nested run above the entries [prot] returns, leaves them on
    the stack and leaves their bytes as they were. *)
Lemma run_ops_set_apart (ops : list snapshot_op) :
  forall (w : HtmlWriter) (base prot pushed : list (nat * string)),
    _snapshots w = base ++ prot ++ pushed ->
    set_apart w (prot ++ pushed) ->
    nested (length pushed) ops = true ->
    forallb (poke_in_range (Py.len (current w))) ops = true ->
    exists w',
      run_ops ops w = (Ok tt, w') /\
      _snapshots w' = base ++ prot /\
      set_apart w' prot /\
      Forall (fun e => heap w' !! fst e = heap w !! fst e) prot /\
      length (current w') = length (current w).
Proof.
  induction ops as [|op ops IH]; intros w base prot pushed Hstack Hsep Hnest Hpokes.
  - simpl in Hnest. apply Nat.eqb_eq in Hnest.
    destruct pushed; [|discriminate]. rewrite app_nil_r in *.
    exists w. split; [done|]. split; [done|]. split; [done|]. split; [|done].
    by apply Forall_true.
  - destruct Hsep as (Hcur & Hnodup & Hnotin & Hall).
    simpl in Hpokes. apply andb_prop in Hpokes as [Hpoke Hpokes].
    destruct op as [name|addr v|]; simpl in Hnest; simpl run_ops; unfold bindM.
    + (* push *)
      unfold run_op, push_snapshot.
      pose proof (push_copy_is_new w Hcur) as Hnew.
      set (copy := fresh (dom (heap w))) in *.
      set (w1 := set_snapshots (set_heap w (<[copy := current w]> (heap w)))
                   (_snapshots w ++ [(copy, name)])).
      assert (current w1 = current w) as Hcur1.
      { unfold current, w1. simpl. by rewrite lookup_total_insert_ne. }
      assert (forall e, In e (prot ++ pushed) -> fst e <> copy) as Hfresh.
      { intros e He Heq. rewrite List.Forall_forall in Hall.
        destruct (Hall e He) as (bytes & Hb & _).
        assert (fst e ∈ dom (heap w)) as Hdom by (apply elem_of_dom; eauto).
        rewrite Heq in Hdom. by apply is_fresh in Hdom. }
      destruct (IH w1 base prot (pushed ++ [(copy, name)]))
        as (w' & Hrun & Hst' & Hsep' & Hkeep & Hlen).
      * unfold w1. simpl. rewrite Hstack. by rewrite <- !app_assoc.
      * unfold set_apart. rewrite Hcur1. replace (snapshot w1) with (snapshot w) by done.
        replace (heap w1) with (<[copy := current w]> (heap w)) by done.
        rewrite app_assoc, map_app. simpl.
        split; [|split; [|split]].
        -- rewrite lookup_insert_ne by done. done.
        -- apply NoDup_app. split; [done|]. split; [|apply NoDup_singleton].
           intros x Hx [->|[]]%list_elem_of_In. apply list_elem_of_In in Hx.
           apply in_map_iff in Hx as (e & He & Hin). by apply (Hfresh e).
        -- intros [Hin|[Heq|[]]]%in_app_or; [done|]. by apply Hnew.
        -- apply Forall_app. split.
           ++ apply List.Forall_forall. intros e He.
              rewrite List.Forall_forall in Hall.
              destruct (Hall e He) as (bytes & Hb & Hbl).
              exists bytes. rewrite lookup_insert_ne by (apply not_eq_sym; by apply Hfresh).
              done.
           ++ constructor; [|constructor]. exists (current w). simpl.
              by rewrite lookup_insert_eq.
      * rewrite length_app. simpl. by rewrite Nat.add_1_r.
      * by rewrite Hcur1.
      * exists w'. split; [exact Hrun|]. split; [done|]. split; [done|].
        split; [|by rewrite Hlen, Hcur1].
        rewrite List.Forall_forall in Hkeep. apply List.Forall_forall. intros e He.
        rewrite (Hkeep e He). unfold w1. simpl.
        apply lookup_insert_ne. apply not_eq_sym, Hfresh. apply in_or_app. by left.
    + (* poke *)
      unfold run_op, poke. simpl in Hpoke.
      apply andb_prop in Hpoke as [Hlo%Z.leb_le Hhi%Z.ltb_lt].
      destruct (setitem_returns (current w) addr v ltac:(lia)) as [l Hl].
      rewrite Hl. pose proof (setitem_length _ _ _ _ Hl) as Hll.
      set (w1 := set_heap w (<[snapshot w := l]> (heap w))).
      assert (current w1 = l) as Hcur1.
      { unfold current, w1. simpl. by rewrite lookup_total_insert_eq. }
      assert (forall e, In e (prot ++ pushed) -> fst e <> snapshot w) as Hother.
      { intros e He Heq. apply Hnotin. rewrite <- Heq. by apply in_map. }
      destruct (IH w1 base prot pushed) as (w' & Hrun & Hst' & Hsep' & Hkeep & Hlen).
      * done.
      * unfold set_apart. rewrite Hcur1. replace (snapshot w1) with (snapshot w) by done.
        replace (heap w1) with (<[snapshot w := l]> (heap w)) by done.
        split; [|split; [|split]]; [by rewrite lookup_insert_eq|done|done|].
        apply List.Forall_forall. intros e He. rewrite List.Forall_forall in Hall.
        destruct (Hall e He) as (bytes & Hb & Hbl). exists bytes.
        rewrite lookup_insert_ne by (apply not_eq_sym; by apply Hother).
        split; [done|lia].
      * done.
      * rewrite Hcur1. unfold Py.len in *. by rewrite Hll.
      * exists w'. split; [exact Hrun|]. split; [done|]. split; [done|].
        split; [|rewrite Hlen, Hcur1; lia].
        rewrite List.Forall_forall in Hkeep. apply List.Forall_forall. intros e He.
        rewrite (Hkeep e He). unfold w1. simpl.
        apply lookup_insert_ne. apply not_eq_sym, Hother. apply in_or_app. by left.
    + (* pop *)
      destruct (length pushed) as [|d] eqn:Hd; [discriminate|].
      destruct (exists_last (l:=pushed)) as (pushed0 & top & ->);
        [by destruct pushed|].
      rewrite length_app in Hd. simpl in Hd.
      unfold run_op.
      rewrite (pop_snapshot_last w (base ++ prot ++ pushed0) top)
        by (rewrite Hstack; by rewrite <- !app_assoc).
      set (w1 := set_snapshot (set_snapshots w (base ++ prot ++ pushed0)) (fst top)).
      rewrite app_assoc in Hall, Hnodup, Hnotin.
      apply Forall_app in Hall as [Hall Htop]. inversion Htop as [|? ? Htop' _]; subst.
      destruct Htop' as (tbytes & Htb & Htl).
      assert (current w1 = tbytes) as Hcur1.
      { unfold current, w1. simpl. by rewrite (lookup_total_correct _ _ _ Htb). }
      rewrite map_app in Hnodup. simpl in Hnodup.
      apply NoDup_app in Hnodup as (Hnd0 & Hdisj & _).
      destruct (IH w1 base prot pushed0) as (w' & Hrun & Hst' & Hsep' & Hkeep & Hlen).
      * done.
      * unfold set_apart. rewrite Hcur1. replace (snapshot w1) with (fst top) by done.
        replace (heap w1) with (heap w) by done.
        split; [|split; [|split]]; [by rewrite Htb|done| |].
        -- intros Hin. apply (Hdisj (fst top)); [by apply list_elem_of_In|].
           apply list_elem_of_In. by left.
        -- eapply Forall_impl; [exact Hall|]. intros e (bytes & Hb & Hbl).
           exists bytes. split; [done|lia].
      * by replace (length pushed0) with d by lia.
      * rewrite Hcur1. unfold Py.len in *. by rewrite Htl.
      * exists w'. split; [exact Hrun|]. split; [done|]. split; [done|].
        split; [done|]. rewrite Hlen, Hcur1. done.
Qed.

(** X15: snapshots nest.  After [push_snapshot], any well-nested run of
    pushes, one-byte pokes within the snapshot and pops, followed by a
    [pop_snapshot], returns and leaves the current snapshot with the
    bytes it had before the first push, and the stack of saved snapshots
    as it was: no poke made in between, at any depth, reaches a saved
    copy. *)
Theorem nested_pushes_restore (w : HtmlWriter) (name : string)
    (ops : list snapshot_op) :
  is_Some (heap w !! snapshot w) ->
  nested 0 ops = true ->
  forallb (poke_in_range (Py.len (current w))) ops = true ->
  exists w',
    run_ops (OpPush name :: ops ++ [OpPop]) w = (Ok tt, w') /\
    current w' = current w /\
    _snapshots w' = _snapshots w.
Proof.
  intros Hcur Hnest Hpokes.
  pose proof (push_copy_is_new w Hcur) as Hnew.
  change (run_ops (OpPush name :: ops ++ [OpPop]) w)
    with (bindM (push_snapshot name) (fun _ => run_ops (ops ++ [OpPop])) w).
  unfold bindM, push_snapshot.
  set (copy := fresh (dom (heap w))) in *.
  set (w1 := set_snapshots (set_heap w (<[copy := current w]> (heap w)))
               (_snapshots w ++ [(copy, name)])).
  assert (current w1 = current w) as Hcur1.
  { unfold current, w1. simpl. by rewrite lookup_total_insert_ne. }
  destruct (run_ops_set_apart ops w1 (_snapshots w) [(copy, name)] [])
    as (w2 & Hrun & Hst2 & Hsep2 & Hkeep & Hlen).
  - done.
  - unfold set_apart. rewrite Hcur1. simpl.
    split; [|split; [|split]].
    + rewrite lookup_insert_ne by done. done.
    + apply NoDup_singleton.
    + intros [Heq|[]]. by apply Hnew.
    + constructor; [|constructor]. exists (current w). simpl.
      by rewrite lookup_insert_eq.
  - done.
  - by rewrite Hcur1.
  - rewrite run_ops_app, Hrun. simpl run_ops. unfold bindM, run_op.
    rewrite (pop_snapshot_last w2 (_snapshots w) (copy, name) Hst2).
    eexists. split; [reflexivity|]. split; [|done].
    inversion Hkeep as [|? ? Hcopy _]; subst. simpl in Hcopy.
    unfold current at 1. simpl.
    unfold w1 in Hcopy. simpl in Hcopy. rewrite lookup_insert_eq in Hcopy.
    by rewrite (lookup_total_correct _ _ _ Hcopy).
Qed.

Lemma nested_pushes_restore_witness :
  exists w',
    run_ops (OpPush "a" :: [OpPoke 1 9; OpPush "b"; OpPoke 0 8; OpPop; OpPoke 2 7]
               ++ [OpPop])
      (init_snapshots [1; 2; 3] blank_writer) = (Ok tt, w') /\
    current w' = current (init_snapshots [1; 2; 3] blank_writer) /\
    _snapshots w' = _snapshots (init_snapshots [1; 2; 3] blank_writer).
Proof.
  apply nested_pushes_restore; [|reflexivity|reflexivity].
  unfold init_snapshots. simpl. rewrite lookup_insert_eq. eauto.
Defined.

(** X16: the base entry of the stack is the parser's snapshot itself, not
    a copy.  From a freshly initialised writer, a push, a poke and a pop
    give back the initial bytes; a second pop then takes the base entry
    off the stack and makes current the list that was poked, so the
    change comes back and the stack is left empty. *)
Theorem base_entry_keeps_pokes (bytes : list Z) (w0 : HtmlWriter) (name : string)
    (a v : Z) :
  0 <= a < Py.len bytes ->
  exists w3 w4,
    run_ops [OpPush name; OpPoke a v; OpPop] (init_snapshots bytes w0) = (Ok tt, w3) /\
    current w3 = bytes /\
    run_ops [OpPop] w3 = (Ok tt, w4) /\
    current w4 = <[Z.to_nat a := v]> bytes /\
    _snapshots w4 = [].
Proof.
  intros Ha.
  set (w := init_snapshots bytes w0).
  assert (heap w !! snapshot w = Some bytes) as Hcur.
  { unfold w, init_snapshots. simpl. by rewrite lookup_insert_eq. }
  assert (current w = bytes) as Hbytes.
  { unfold current. by rewrite (lookup_total_correct _ _ _ Hcur). }
  pose proof (push_copy_is_new w ltac:(eauto)) as Hnew.
  simpl run_ops. unfold bindM, run_op, push_snapshot.
  set (copy := fresh (dom (heap w))) in *.
  set (w1 := set_snapshots (set_heap w (<[copy := current w]> (heap w)))
               (_snapshots w ++ [(copy, name)])).
  assert (current w1 = bytes) as Hcur1.
  { unfold current, w1. simpl. rewrite lookup_total_insert_ne by done. exact Hbytes. }
  unfold poke. rewrite Hcur1.
  assert (setitem bytes a v = Ok (<[Z.to_nat a := v]> bytes)) as ->.
  { unfold setitem, norm_index.
    destruct (Z.ltb_spec a 0); [lia|].
    destruct (Z.leb_spec 0 a); [|lia]. destruct (Z.ltb_spec a (Py.len bytes)); [|lia].
    done. }
  set (w2 := set_heap w1 (<[snapshot w1 := <[Z.to_nat a := v]> bytes]> (heap w1))).
  assert (_snapshots w2 = [(0%nat, EmptyString)] ++ [(copy, name)]) as Hst2 by done.
  rewrite (pop_snapshot_last w2 _ _ Hst2).
  set (w3 := set_snapshot (set_snapshots w2 [(0%nat, EmptyString)]) (fst (copy, name))).
  exists w3. eexists. split; [reflexivity|].
  assert (snapshot w = 0%nat) as Hs by done.
  split.
  { unfold current, w3, w2, w1. simpl. fold w. rewrite <- Hs.
    rewrite lookup_total_insert_ne by (intros Heq; apply Hnew; by rewrite <- Heq).
    rewrite lookup_total_insert_eq. exact Hbytes. }
  assert (_snapshots w3 = [] ++ [(0%nat, EmptyString)]) as Hst3 by done.
  rewrite (pop_snapshot_last w3 _ _ Hst3).
  split; [reflexivity|]. split; [|done].
  unfold current, w3, w2, w1. simpl. by rewrite lookup_total_insert_eq.
Qed.

Lemma base_entry_keeps_pokes_witness :
  exists w3 w4,
    run_ops [OpPush "a"; OpPoke 1 9; OpPop] (init_snapshots [1; 2; 3] blank_writer)
    = (Ok tt, w3) /\
    current w3 = [1; 2; 3] /\
    run_ops [OpPop] w3 = (Ok tt, w4) /\
    current w4 = <[Z.to_nat 1 := 9]> [1; 2; 3] /\
    _snapshots w4 = [].
Proof. apply base_entry_keeps_pokes. unfold Py.len. simpl. lia. Defined.

(** ** Blank lines *)

Lemma string_length_ind (P : string -> Prop) :
  (forall s, (forall t, (String.length t < String.length s)%nat -> P t) -> P s) ->
  forall s, P s.
Proof.
  intros Hstep s.
  assert (forall n t, (String.length t < n)%nat -> P t) as Hall.
  { induction n as [|n IH]; intros t Ht; [lia|].
    apply Hstep. intros u Hu. apply IH. lia. }
  apply (Hall (S (String.length s))). lia.
Qed.

Lemma replace_blank_step (a b : ascii) (rest : string) :
  replace_blank (String a (String b rest))
  = if Ascii.eqb a newline && Ascii.eqb b newline
    then String newline (replace_blank rest)
    else String a (replace_blank (String b rest)).
Proof. reflexivity. Qed.

Lemma has_blank_step (a b : ascii) (rest : string) :
  has_blank (String a (String b rest))
  = (Ascii.eqb a newline && Ascii.eqb b newline) || has_blank (String b rest).
Proof. reflexivity. Qed.

Lemma squeeze_step (a b : ascii) (rest : string) :
  squeeze (String a (String b rest))
  = if Ascii.eqb a newline && Ascii.eqb b newline
    then squeeze (String b rest)
    else String a (squeeze (String b rest)).
Proof. reflexivity. Qed.

Lemma visible_step (a : ascii) (tl : string) :
  visible (String a tl)
  = if Ascii.eqb a newline then visible tl else String a (visible tl).
Proof. reflexivity. Qed.

Lemma replace_blank_length (s : string) :
  (String.length (replace_blank s) <= String.length s)%nat /\
  (has_blank s = true -> (String.length (replace_blank s) < String.length s)%nat).
Proof.
  induction s as [s IH] using string_length_ind.
  destruct s as [|a [|b rest]]; [split; [done|discriminate] ..|].
  rewrite replace_blank_step, has_blank_step.
  destruct (Ascii.eqb a newline && Ascii.eqb b newline).
  - destruct (IH rest ltac:(simpl; lia)) as [Hle _].
    cbn [String.length]. split; [lia|]. intros _. lia.
  - destruct (IH (String b rest) ltac:(simpl; lia)) as [Hle Hlt].
    cbn [orb String.length] in *. split; [lia|]. intros Hb. specialize (Hlt Hb). lia.
Qed.

Lemma squeeze_cons_replace (s : string) :
  forall c, squeeze (String c (replace_blank s)) = squeeze (String c s).
Proof.
  induction s as [s IH] using string_length_ind.
  destruct s as [|a [|b rest]]; [done..|]. intros c.
  rewrite replace_blank_step.
  destruct (Ascii.eqb a newline && Ascii.eqb b newline) eqn:Hab.
  - apply andb_prop in Hab as [Ha%Ascii.eqb_eq Hb%Ascii.eqb_eq]. subst a b.
    pose proof (IH rest ltac:(simpl; lia) newline) as Hrest.
    rewrite (squeeze_step c newline (String newline rest)).
    rewrite (squeeze_step newline newline rest).
    rewrite (squeeze_step c newline (replace_blank rest)).
    rewrite Ascii.eqb_refl. cbn [andb]. rewrite Hrest.
    by destruct (Ascii.eqb c newline && true).
  - pose proof (IH (String b rest) ltac:(simpl; lia) a) as Htl.
    rewrite (squeeze_step c a (replace_blank (String b rest))).
    rewrite (squeeze_step c a (String b rest)).
    by rewrite Htl.
Qed.

Lemma squeeze_replace_blank (s : string) : squeeze (replace_blank s) = squeeze s.
Proof.
  pose proof (squeeze_cons_replace s "x"%char) as H.
  assert (forall t, squeeze (String "x" t) = String "x" (squeeze t)) as Hx.
  { intros [|a t]; [done|]. by rewrite squeeze_step. }
  rewrite !Hx in H. by injection H.
Qed.

Lemma squeeze_fixed (s : string) : has_blank s = false -> squeeze s = s.
Proof.
  induction s as [|a tl IH]; [done|]. destruct tl as [|b rest]; [done|].
  rewrite has_blank_step, squeeze_step.
  intros H. apply orb_false_elim in H as [-> Htl].
  by rewrite (IH Htl).
Qed.

Lemma squeeze_head (b : ascii) (rest : string) :
  exists r, squeeze (String b rest) = String b r.
Proof.
  revert b. induction rest as [|c rest IH]; intros b; [by exists EmptyString|].
  rewrite squeeze_step.
  destruct (Ascii.eqb b newline && Ascii.eqb c newline) eqn:Hbc.
  - apply andb_prop in Hbc as [Hb%Ascii.eqb_eq Hc%Ascii.eqb_eq]. subst b c. apply IH.
  - eauto.
Qed.

Lemma has_blank_squeeze (s : string) : has_blank (squeeze s) = false.
Proof.
  induction s as [|a tl IH]; [done|]. destruct tl as [|b rest]; [done|].
  rewrite squeeze_step.
  destruct (Ascii.eqb a newline && Ascii.eqb b newline) eqn:Hab; [done|].
  destruct (squeeze_head b rest) as [r Hr]. rewrite Hr in *.
  by rewrite has_blank_step, Hab, IH.
Qed.

Lemma visible_squeeze (s : string) : visible (squeeze s) = visible s.
Proof.
  induction s as [|a tl IH]; [done|]. destruct tl as [|b rest]; [done|].
  rewrite squeeze_step, (visible_step a (String b rest)).
  destruct (Ascii.eqb a newline && Ascii.eqb b newline) eqn:Hab.
  - apply andb_prop in Hab as [-> _]. exact IH.
  - rewrite visible_step, IH. reflexivity.
Qed.

Lemma _remove_blank_lines_squeeze (fuel : nat) :
  forall html, (String.length html <= fuel)%nat ->
               _remove_blank_lines fuel html = Ok (squeeze html).
Proof.
  induction fuel as [|fuel IH]; intros html Hlen.
  - destruct html; [done|simpl in Hlen; lia].
  - cbn [_remove_blank_lines]. destruct (has_blank html) eqn:Hb.
    + destruct (replace_blank_length html) as [_ Hlt]. specialize (Hlt Hb).
      rewrite IH by lia. by rewrite squeeze_replace_blank.
    + by rewrite squeeze_fixed.
Qed.

(** X17: [_remove_blank_lines] returns (its loop ends within as many
    iterations as the text has characters) the text with every run of
    newlines cut down to a single newline: the result holds no two
    newlines in a row, and its other characters are those of the text, in
    the same order. *)
Theorem remove_blank_lines_squeezes (fuel : nat) (html : string) :
  (String.length html <= fuel)%nat ->
  exists r,
    _remove_blank_lines fuel html = Ok r /\
    r = squeeze html /\
    has_blank r = false /\
    visible r = visible html.
Proof.
  intros Hlen. exists (squeeze html).
  split; [by apply _remove_blank_lines_squeeze|]. split; [done|].
  split; [apply has_blank_squeeze|apply visible_squeeze].
Qed.

Lemma remove_blank_lines_squeezes_witness :
  exists r,
    _remove_blank_lines 8 (String "a" (String newline (String newline
                             (String newline (String "b" (String newline ""))))))
    = Ok r /\
    r = squeeze (String "a" (String newline (String newline
                  (String newline (String "b" (String newline "")))))) /\
    has_blank r = false /\
    visible r = visible (String "a" (String newline (String newline
                           (String newline (String "b" (String newline "")))))).
Proof. apply remove_blank_lines_squeezes. simpl. lia. Defined.

(** ** Screen and font tiles *)

Lemma omap_total {A B} (f : A -> option B) (g : A -> B) (l : list A) :
  (forall x, In x l -> f x = Some (g x)) -> omap f l = map g l.
Proof.
  induction l as [|x l IH]; intros Hf; [done|].
  cbn [omap list_omap map]. rewrite (Hf x) by (by left).
  f_equal. apply IH. intros y Hy. apply Hf. by right.
Qed.

Lemma clamp_in_range (n i : Z) : 0 <= i <= n -> clamp n i = i.
Proof.
  intros Hi. unfold clamp.
  destruct (Z.ltb_spec i 0); [lia|].
  destruct (Z.ltb_spec i 0); [lia|]. by destruct (Z.ltb_spec n i); [lia|].
Qed.

(** A slice within the list: the elements at [s], [s + step], ... below
    [e]. *)
Lemma slice_step_within (l : list Z) (s e step : Z) :
  0 <= s -> s < e -> e <= Py.len l -> 1 <= step ->
  slice_step l s e step
  = map (fun k => l !!! Z.to_nat (s + k * step)) (range 0 ((e - s + step - 1) / step)).
Proof.
  intros Hs Hse He Hstep. unfold slice_step.
  rewrite !clamp_in_range by lia.
  destruct (Z.leb_spec e s); [lia|].
  set (c := (e - s + step - 1) / step).
  unfold range. rewrite Z.sub_0_r, map_map.
  apply omap_total. intros k Hk%in_seq.
  assert (c * step <= e - s + step - 1) as Hc.
  { unfold c. rewrite Z.mul_comm. apply Z.mul_div_le. lia. }
  assert (0 <= c) by (unfold c; apply Z.div_pos; lia).
  assert (s + Z.of_nat k * step < e) as Hidx by nia.
  replace (0 + Z.of_nat k) with (Z.of_nat k) by lia.
  apply list_lookup_lookup_total_lt. unfold Py.len in He. lia.
Qed.

Lemma getitem_lookup_total (l : list Z) (i : Z) :
  0 <= i < Py.len l -> getitem l i = Ok (l !!! Z.to_nat i).
Proof.
  intros Hi. rewrite <- (Z2Nat.id i) at 1 by lia.
  apply getitem_nat. apply list_lookup_lookup_total_lt. unfold Py.len in Hi. lia.
Qed.

Lemma lookup_total_byte (l : list Z) (i : nat) :
  Forall Udg.is_byte l -> (i < length l)%nat -> Udg.is_byte (l !!! i).
Proof.
  intros Hl Hi. rewrite List.Forall_forall in Hl. apply Hl.
  apply list_elem_of_In. apply list_elem_of_lookup_total_2. done.
Qed.

Lemma screen_byte_address_bounds (row col n : Z) :
  0 <= row < 24 -> 0 <= col < 32 -> 0 <= n < 8 ->
  16384 <= screen_byte_address 16384 row col n < 22528.
Proof. intros Hr Hc Hn. unfold screen_byte_address. Z.div_mod_to_equations. lia. Qed.

(** X18: on a 64K snapshot, the screen tile at row [0 <= row < 24] and
    column [0 <= col < 32] is read with its attribute from
    [22528 + 32*row + col] and its eight pixel rows from the addresses
    [16384 + 2048*(row div 8) + 32*(row mod 8) + col + 256*n]; it is a tile
    of the data model when the snapshot holds bytes; and every address of
    the display file, 16384 to 22527, is pixel row [n] of exactly one tile:
    the tiles share no byte and leave none out. *)
Theorem screen_tiles_cover_display_file (w : HtmlWriter) :
  Py.len (current w) = 65536 ->
  (forall row col,
      0 <= row < 24 -> 0 <= col < 32 ->
      exists u,
        _get_screen_udg w row col 16384 22528 = Ok u /\
        Udg.attr u = current w !!! Z.to_nat (22528 + 32 * row + col) /\
        Udg.data u
        = map (fun n => current w !!! Z.to_nat (screen_byte_address 16384 row col n))
              (range 0 8) /\
        Udg.mask u = None /\
        (Forall Udg.is_byte (current w) -> Udg.wf u)) /\
  (forall a,
      16384 <= a < 22528 ->
      exists row col n,
        (0 <= row < 24 /\ 0 <= col < 32 /\ 0 <= n < 8) /\
        screen_byte_address 16384 row col n = a /\
        forall row' col' n',
          0 <= row' < 24 -> 0 <= col' < 32 -> 0 <= n' < 8 ->
          screen_byte_address 16384 row' col' n' = a ->
          row' = row /\ col' = col /\ n' = n).
Proof.
  intros Hlen. split.
  - intros row col Hrow Hcol. unfold _get_screen_udg.
    assert (0 <= 22528 + 32 * row + col < Py.len (current w)) as Hattr by lia.
    rewrite getitem_lookup_total by lia.
    assert (16384 <= screen_byte_address 16384 row col 0 < 22528) as Hb
      by (apply screen_byte_address_bounds; lia).
    unfold screen_byte_address in Hb. rewrite Z.mul_0_r, Z.add_0_r in Hb.
    set (address := 16384 + 2048 * (row / 8) + 32 * (row mod 8) + col) in *.
    cbn [Py.bind].
    rewrite slice_step_within by lia.
    replace (address + 2048 - address + 256 - 1) with 2303 by lia.
    change (2303 / 256) with 8.
    eexists. split; [reflexivity|]. cbn [Udg.attr Udg.data Udg.mask].
    split; [done|]. split.
    { apply map_ext. intros n. unfold screen_byte_address. fold address.
      f_equal. lia. }
    split; [done|]. intros Hbytes. unfold Udg.wf. cbn [Udg.attr Udg.data Udg.mask].
    split; [rewrite length_map; unfold range; by rewrite length_map, length_seq|].
    split; [|done].
    apply Forall_map. apply List.Forall_forall. intros n Hn%range_In.
    apply lookup_total_byte; [done|]. unfold Py.len in *. cbn beta. lia.
  - intros a Ha.
    exists (8 * ((a - 16384) / 2048) + ((a - 16384) mod 256) / 32),
           ((a - 16384) mod 32), (((a - 16384) mod 2048) / 256).
    split; [Z.div_mod_to_equations; lia|]. split.
    + unfold screen_byte_address. Z.div_mod_to_equations. lia.
    + intros row' col' n' Hr Hc Hn <-. unfold screen_byte_address.
      Z.div_mod_to_equations. lia.
Qed.

Lemma current_init_snapshots (bytes : list Z) (w0 : HtmlWriter) :
  current (init_snapshots bytes w0) = bytes.
Proof. unfold current, init_snapshots. simpl. by rewrite lookup_total_insert_eq. Qed.

Lemma screen_tiles_cover_display_file_witness :
  let w := init_snapshots (replicate (Z.to_nat 65536) 0) blank_writer in
  (forall row col,
      0 <= row < 24 -> 0 <= col < 32 ->
      exists u,
        _get_screen_udg w row col 16384 22528 = Ok u /\
        Udg.attr u = current w !!! Z.to_nat (22528 + 32 * row + col) /\
        Udg.data u
        = map (fun n => current w !!! Z.to_nat (screen_byte_address 16384 row col n))
              (range 0 8) /\
        Udg.mask u = None /\
        (Forall Udg.is_byte (current w) -> Udg.wf u)) /\
  (forall a,
      16384 <= a < 22528 ->
      exists row col n,
        (0 <= row < 24 /\ 0 <= col < 32 /\ 0 <= n < 8) /\
        screen_byte_address 16384 row col n = a /\
        forall row' col' n',
          0 <= row' < 24 -> 0 <= col' < 32 -> 0 <= n' < 8 ->
          screen_byte_address 16384 row' col' n' = a ->
          row' = row /\ col' = col /\ n' = n).
Proof.
  apply screen_tiles_cover_display_file.
  rewrite current_init_snapshots. unfold Py.len. rewrite length_replicate. lia.
Defined.

Lemma slice_step_beyond (l : list Z) (s e : Z) :
  Py.len l <= s -> s <= e -> slice_step l s e 1 = [].
Proof.
  intros Hs Hse. unfold slice_step, clamp.
  pose proof (Nat2Z.is_nonneg (length l)). unfold Py.len in *.
  destruct (Z.ltb_spec s 0); [lia|]. destruct (Z.ltb_spec s 0); [lia|].
  destruct (Z.ltb_spec e 0); [lia|]. destruct (Z.ltb_spec e 0); [lia|].
  destruct (Z.ltb_spec (Z.of_nat (length l)) s), (Z.ltb_spec (Z.of_nat (length l)) e);
    try lia;
    match goal with |- context [?a <=? ?b] => destruct (Z.leb_spec a b); [done|lia] end.
Qed.

(** X19: [get_font_udg_array] never raises and gives one row with a tile
    per character of the message.  The tile of a character [c] whose
    eight bytes, from [address + 8*(ord(c) - 32)], lie within the snapshot
    holds those bytes (and is a tile of the data model when the snapshot
    holds bytes); the tile of a character whose address is at or beyond
    the end of the snapshot has no bitmap bytes at all. *)
Theorem font_tiles (w : HtmlWriter) (address attr : Z) (message : string) :
  exists row,
    get_font_udg_array w address attr message = [row] /\
    length row = String.length message /\
    forall (k : nat) (c : ascii),
      Str.chars message !! k = Some c ->
      exists u,
        row !! k = Some u /\
        Udg.attr u = attr /\ Udg.mask u = None /\
        (0 <= address + 8 * (Z.of_nat (nat_of_ascii c) - 32) ->
         address + 8 * (Z.of_nat (nat_of_ascii c) - 32) + 8 <= Py.len (current w) ->
         Udg.data u
         = map (fun n => current w
                           !!! Z.to_nat (address + 8 * (Z.of_nat (nat_of_ascii c) - 32) + n))
               (range 0 8) /\
         (Forall Udg.is_byte (current w) -> Udg.wf u)) /\
        (Py.len (current w) <= address + 8 * (Z.of_nat (nat_of_ascii c) - 32) ->
         Udg.data u = []).
Proof.
  unfold get_font_udg_array. eexists. split; [reflexivity|]. split.
  { rewrite length_map. unfold Str.chars.
    induction message as [|c m IH]; simpl; [done|by rewrite IH]. }
  intros k c Hc. eexists. split.
  { rewrite list_lookup_fmap, Hc. reflexivity. }
  cbn [Udg.attr Udg.data Udg.mask].
  set (a := address + 8 * (Z.of_nat (nat_of_ascii c) - 32)).
  split; [done|]. split; [done|]. split.
  - intros Ha0 Ha8. rewrite slice_step_within by lia.
    replace (a + 8 - a + 1 - 1) with 8 by lia. change (8 / 1) with 8.
    assert (map (fun k0 => current w !!! Z.to_nat (a + k0 * 1)) (range 0 8)
            = map (fun n => current w !!! Z.to_nat (a + n)) (range 0 8)) as ->.
    { apply map_ext. intros n. by rewrite Z.mul_1_r. }
    split; [done|]. intros Hbytes. unfold Udg.wf. cbn [Udg.data Udg.mask].
    split; [rewrite length_map; unfold range; by rewrite length_map, length_seq|].
    split; [|done].
    apply Forall_map. apply List.Forall_forall. intros n Hn%range_In.
    apply lookup_total_byte; [done|]. unfold Py.len in *. cbn beta. lia.
  - intros Hbeyond. apply slice_step_beyond; lia.
Qed.

(** ** The grid of a tile-grid macro *)

Lemma getitem_last {A} (l : list A) (x : A) : getitem (l ++ [x]) (-1) = Ok x.
Proof.
  unfold getitem, norm_index, Py.len. rewrite length_app. simpl.
  change (-1 <? 0) with true. cbv iota.
  destruct (Z.leb_spec 0 (-1 + Z.of_nat (length l + 1))); [|lia].
  destruct (Z.ltb_spec (-1 + Z.of_nat (length l + 1)) (Z.of_nat (length l + 1))); [|lia].
  simpl. replace (Z.to_nat (-1 + Z.of_nat (length l + 1))) with (length l) by lia.
  by rewrite list_lookup_middle.
Qed.

Lemma setitem_last {A} (l : list A) (x y : A) :
  setitem (l ++ [x]) (-1) y = Ok (l ++ [y]).
Proof.
  unfold setitem, norm_index, Py.len. rewrite length_app. simpl.
  change (-1 <? 0) with true. cbv iota.
  destruct (Z.leb_spec 0 (-1 + Z.of_nat (length l + 1))); [|lia].
  destruct (Z.ltb_spec (-1 + Z.of_nat (length l + 1)) (Z.of_nat (length l + 1))); [|lia].
  simpl. replace (Z.to_nat (-1 + Z.of_nat (length l + 1))) with (length l) by lia.
  f_equal. rewrite insert_app_r_alt by lia. by rewrite Nat.sub_diag.
Qed.

(** One more tile keeps the rows filled, and comes last. *)
Lemma append_udg_rows (width : Z) (g : list (list Udg.t)) (u : Udg.t) :
  1 <= width -> rows_filled width g ->
  exists g',
    append_udg g width u = Ok g' /\
    rows_filled width g' /\
    concat g' = concat g ++ [u].
Proof.
  intros Hw (rows & last_row & -> & Hrows & Hlast).
  unfold append_udg. rewrite getitem_last. cbn [Py.bind].
  destruct (Z.eqb_spec (Py.len last_row) width) as [Hfull|Hroom].
  - eexists. split; [reflexivity|]. split.
    + exists (rows ++ [last_row]), [u]. split; [done|]. split.
      * apply Forall_app. split; [done|]. by repeat constructor.
      * unfold Py.len. simpl. lia.
    + rewrite !concat_app. simpl. by rewrite !app_nil_r.
  - rewrite setitem_last. eexists. split; [reflexivity|]. split.
    + exists rows, (last_row ++ [u]). split; [done|]. split; [done|].
      unfold Py.len in *. rewrite length_app. simpl. lia.
    + rewrite !concat_app. simpl. by rewrite !app_nil_r, app_assoc.
Qed.

Lemma build_udg_wf (w : HtmlWriter) (attr step inc mask_step u : Z)
    (m : option Z) (t : Udg.t) :
  build_udg w attr step inc mask_step u m = Ok t ->
  Forall Udg.is_byte (current w) -> Udg.wf t.
Proof.
  unfold build_udg. intros Hbuild Hbytes.
  destruct (map_result _ (range 0 8)) as [udg_bytes|] eqn:Hd; [|discriminate].
  cbn [Py.bind] in Hbuild.
  assert (length udg_bytes = 8%nat /\ Forall Udg.is_byte udg_bytes) as [Hlen Hdata].
  { split.
    - apply map_result_length in Hd. rewrite Hd. reflexivity.
    - apply map_result_Ok_iff in Hd. clear -Hd.
      induction Hd as [|n b ns bs Hb _ IH]; constructor; [|done].
      destruct (getitem (current w) (u + n * step)); [|discriminate].
      cbn [Py.bind] in Hb. injection Hb as <-. unfold Udg.is_byte.
      apply Z.mod_pos_bound. lia. }
  destruct m as [m|].
  - destruct (map_result _ (range 0 8)) as [mask|] eqn:Hm in Hbuild; [|discriminate].
    cbn [Py.bind] in Hbuild. injection Hbuild as <-.
    unfold Udg.wf. cbn [Udg.data Udg.mask]. split; [done|]. split; [done|]. split.
    + apply map_result_length in Hm. rewrite Hm. reflexivity.
    + apply map_result_Ok_iff in Hm. clear -Hm Hbytes.
      induction Hm as [|n b ns bs Hb _ IH]; constructor; [|done].
      unfold getitem in Hb.
      destruct (norm_index _ _) as [j|]; [|discriminate].
      destruct (current w !! j) as [x|] eqn:Hx; [|discriminate].
      injection Hb as <-. rewrite List.Forall_forall in Hbytes. apply Hbytes.
      apply list_elem_of_In. by eapply list_elem_of_lookup_2.
  - injection Hbuild as <-. unfold Udg.wf. cbn [Udg.data Udg.mask]. done.
Qed.

(** The invariant of the grid under construction. *)
Lemma fold_tiles_invariant (w : HtmlWriter) (width attr step inc mask_step : Z)
    (ums : list (Z * option Z)) :
  1 <= width ->
  forall g g',
    fold_result
      (fun udg_array um =>
         let* udg := build_udg w attr step inc mask_step (fst um) (snd um) in
         append_udg udg_array width udg) ums g = Ok g' ->
    rows_filled width g ->
    rows_filled width g' /\
    length (concat g') = (length (concat g) + length ums)%nat /\
    (Forall Udg.is_byte (current w) -> grid_wf g -> grid_wf g').
Proof.
  intros Hw. induction ums as [|um ums IH]; intros g g' Hfold Hrows; simpl in Hfold.
  - injection Hfold as <-. simpl. rewrite Nat.add_0_r. done.
  - destruct (build_udg w attr step inc mask_step (fst um) (snd um)) as [t|] eqn:Ht;
      [|discriminate].
    cbn [Py.bind] in Hfold.
    destruct (append_udg_rows width g t Hw Hrows) as (g1 & Hg1 & Hrows1 & Hcat).
    rewrite Hg1 in Hfold. cbn [Py.bind] in Hfold.
    destruct (IH g1 g' Hfold Hrows1) as (Hr & Hlen & Hwf).
    split; [done|]. split.
    + rewrite Hlen, Hcat, length_app. simpl. lia.
    + intros Hbytes Hg. apply Hwf; [done|].
      pose proof (build_udg_wf _ _ _ _ _ _ _ _ Ht Hbytes) as Htwf.
      unfold grid_wf in *.
      assert (Forall Udg.wf (concat g1)) as Hall.
      { rewrite Hcat. apply Forall_app. split; [|constructor; [done|constructor]].
        by apply Forall_concat. }
      clear -Hall. induction g1 as [|r g1 IH]; [constructor|].
      simpl in Hall. apply Forall_app in Hall as [Hr Hrest].
      constructor; [done|by apply IH].
Qed.

Section MacroShape.

Context (parse_params :
         string -> Z -> string -> string -> result (Z * string * option string))
      (get_params :
         string -> Z -> list pyval -> option (list Z) -> list string
         -> result (list pyval))
      (parse_ints : string -> Z -> result (Z * crop_rect)).

Lemma ua_header_grid (w : HtmlWriter) (text : string) (index : Z) (p : ua_params)
  (st0 : ua_state) :
ua_header parse_params get_params parse_ints w text index = Ok (p, st0) ->
ua_udg_array st0 = [[]].
Proof.
unfold ua_header.
destruct (parse_image_params _ _ _ _ _ _ _ _ _ _ _ _ _) as [[[[end_ fname] crop] params]|];
  [|discriminate].
cbn [Py.bind].
destruct params as [|v1 [|v2 [|v3 [|v4 [|v5 [|v6 [|v7 [|v8 [|]]]]]]]]]; try discriminate.
destruct (as_int v1); [|discriminate]. destruct (as_int v2); [|discriminate].
destruct (as_int v3); [|discriminate]. destruct (as_int v4); [|discriminate].
destruct (as_int v5); [|discriminate]. destruct (as_int v6); [|discriminate].
destruct (as_int v7); [|discriminate]. destruct (as_int v8); [|discriminate].
cbn [Py.bind]. by intros [= <- <-].
Qed.

Lemma ua_clause_grid (fuel : nat) (w : HtmlWriter) (text : string) (p : ua_params)
  (st st' : ua_state) :
1 <= ua_width p ->
ua_clause parse_params get_params parse_ints fuel w text p st = Ok st' ->
rows_filled (ua_width p) (ua_udg_array st) ->
rows_filled (ua_width p) (ua_udg_array st') /\
(length (concat (ua_udg_array st)) <= length (concat (ua_udg_array st')))%nat /\
(Forall Udg.is_byte (current w) -> grid_wf (ua_udg_array st) ->
 grid_wf (ua_udg_array st')).
Proof.
intros Hw. unfold ua_clause.
destruct (parse_image_params _ _ _ _ _ _ _ _ _ _ _ _ _) as [[[[end_ fname] crop] params]|];
  [|discriminate].
cbn [Py.bind].
destruct params as [|v1 [|v2 [|v3 [|v4 [|]]]]]; try discriminate.
destruct (as_addr_spec v1); [|discriminate]. destruct (as_int v2); [|discriminate].
destruct (as_int v3); [|discriminate]. destruct (as_int v4); [|discriminate].
cbn [Py.bind].
destruct (_get_udg_addresses fuel _ (ua_width p)) as [udg_addresses|]; [|discriminate].
cbn [Py.bind].
destruct (ua_mask_part _ _ _ _ _ _ _ _ _ _ _)
  as [[[[[end1 fname1] crop1] mask_addresses] mask_step]|]; [|discriminate].
cbn [Py.bind].
destruct (fold_result _ _ (ua_udg_array st)) as [g'|] eqn:Hfold; [|discriminate].
cbn [Py.bind]. intros [= <-] Hrows. cbn [ua_udg_array].
destruct (fold_tiles_invariant _ _ _ _ _ _ _ Hw _ _ Hfold Hrows) as (Hr & Hlen & Hwf).
split; [done|]. split; [lia|done].
Qed.

Lemma ua_loop_grid (n fuel : nat) (w : HtmlWriter) (text : string) (p : ua_params) :
1 <= ua_width p ->
forall st st',
  ua_loop parse_params get_params parse_ints n fuel w text p st = Ok st' ->
  rows_filled (ua_width p) (ua_udg_array st) ->
  rows_filled (ua_width p) (ua_udg_array st') /\
  (Forall Udg.is_byte (current w) -> grid_wf (ua_udg_array st) ->
   grid_wf (ua_udg_array st')).
Proof.
intros Hw. induction n as [|n IH]; intros st st'; simpl.
- destruct (char_at text (ua_end st) ";") as [[|]|]; try discriminate.
  by intros [= <-].
- destruct (char_at text (ua_end st) ";") as [[|]|]; try discriminate;
    cbn [Py.bind]; [|by intros [= <-]].
  destruct (ua_clause _ _ _ fuel w text p st) as [st1|] eqn:Hc; [|discriminate].
  cbn [Py.bind]. intros Hloop Hrows.
  destruct (ua_clause_grid _ _ _ _ _ _ Hw Hc Hrows) as (Hr1 & _ & Hwf1).
  destruct (IH st1 st' Hloop Hr1) as (Hr & Hwf).
  split; [done|]. intros Hbytes Hg. apply Hwf; [done|]. by apply Hwf1.
Qed.

Lemma ua_grid_invariant (n fuel : nat) (w : HtmlWriter) (text : string)
  (index : Z) (p : ua_params) (st0 st : ua_state) :
ua_header parse_params get_params parse_ints w text index = Ok (p, st0) ->
ua_loop parse_params get_params parse_ints n fuel w text p st0 = Ok st ->
1 <= ua_width p ->
rows_filled (ua_width p) (ua_udg_array st) /\
(Forall Udg.is_byte (current w) -> grid_wf (ua_udg_array st)).
Proof.
intros Hhead Hloop Hw.
pose proof (ua_header_grid _ _ _ _ _ Hhead) as Hg0.
destruct (ua_loop_grid n fuel w text p Hw st0 st Hloop) as (Hr & Hwf).
- rewrite Hg0. exists [], []. split; [done|]. split; [constructor|].
  unfold Py.len. simpl. lia.
- split; [done|]. intros Hbytes. apply Hwf; [done|].
  rewrite Hg0. repeat constructor.
Qed.

(** X20: the grid that the clauses of [#UDGARRAY] build, for a width of
  at least 1: every row but the last holds exactly [width] tiles and
  the last row at most [width]; and when the snapshot holds bytes every
  tile of it is a tile of the data model, whatever the steps and the
  increment are. *)
Theorem udgarray_grid_invariant (n fuel : nat) (w : HtmlWriter) (text : string)
  (index : Z) (p : ua_params) (st0 st : ua_state) :
ua_header parse_params get_params parse_ints w text index = Ok (p, st0) ->
ua_loop parse_params get_params parse_ints n fuel w text p st0 = Ok st ->
1 <= ua_width p ->
rows_filled (ua_width p) (ua_udg_array st) /\
(Forall Udg.is_byte (current w) -> grid_wf (ua_udg_array st)).
Proof. apply ua_grid_invariant. Qed.

End MacroShape.

Lemma udgarray_grid_invariant_witness :
  rows_filled (ua_width demo_params) (ua_udg_array demo_state2) /\
  (Forall Udg.is_byte (current (demo_writer false ∅)) ->
   grid_wf (ua_udg_array demo_state2)).
Proof.
  apply (udgarray_grid_invariant ref_parse_params ref_get_params ref_parse_ints
           10 10 (demo_writer false ∅) demo_text 0 demo_params demo_state0 demo_state2);
    vm_compute; (reflexivity || discriminate).
Defined.

Lemma filled_grid_quarter_turn (width : Z) (g : list (list Udg.t)) (m : Z) :
  rows_filled width g ->
  Z.land m 3 = 1 \/ Z.land m 3 = 3 ->
  ((exists g', rotate_udgs g m = Ok g') <->
   exists k, Forall (fun row => Py.len row = k) g).
Proof.
  intros (rows & last_row & -> & Hrows & Hlast) Hm.
  destruct (quarter_turn_of_grid (rows ++ [last_row]) m Hm) as [Hiff _].
  rewrite Hiff. clear Hiff. unfold Py.len in *. split.
  - intros (row0 & Hrow0 & Hall). destruct rows as [|r rows].
    + exists (Z.of_nat (length last_row)). by repeat constructor.
    + injection Hrow0 as <-. exists width.
      inversion Hrows as [|? ? Hr Hrest]; subst.
      apply Forall_app. split; [by constructor|].
      constructor; [|constructor].
      change ((r :: rows) ++ [last_row]) with (r :: (rows ++ [last_row])) in Hall.
      inversion Hall as [|? ? _ Hall']; subst.
      apply Forall_app in Hall' as [_ Hl]. inversion Hl; subst. lia.
  - intros [k Hk]. destruct rows as [|r rows].
    + exists last_row. split; [done|]. by repeat constructor.
    + exists r. split; [done|].
      change ((r :: rows) ++ [last_row]) with (r :: (rows ++ [last_row])) in *.
      inversion Hk as [|? ? Hr Hk']; subst.
      constructor; [lia|]. eapply Forall_impl; [exact Hk'|].
      intros row Hrow. simpl in Hrow. lia.
Qed.

Section MacroRotation.

Context (parse_params :
         string -> Z -> string -> string -> result (Z * string * option string))
      (get_params :
         string -> Z -> list pyval -> option (list Z) -> list string
         -> result (list pyval))
      (parse_ints : string -> Z -> result (Z * crop_rect)).

(** X21: the grid that the clauses of [#UDGARRAY] build, for a width of
  at least 1, can be rotated by a quarter turn ([rotate & 3] is 1 or 3)
  exactly when its rows all hold the same number of tiles, that is when
  the last row is full or is the only row; otherwise [rotate_udgs]
  raises [IndexError]. *)
Theorem udgarray_quarter_turn_needs_full_rows (n fuel : nat) (w : HtmlWriter)
  (text : string) (index : Z) (p : ua_params) (st0 st : ua_state) (m : Z) :
ua_header parse_params get_params parse_ints w text index = Ok (p, st0) ->
ua_loop parse_params get_params parse_ints n fuel w text p st0 = Ok st ->
1 <= ua_width p ->
Z.land m 3 = 1 \/ Z.land m 3 = 3 ->
((exists g, rotate_udgs (ua_udg_array st) m = Ok g) <->
 exists k, Forall (fun row => Py.len row = k) (ua_udg_array st)) /\
(forall e, rotate_udgs (ua_udg_array st) m = Raise e -> e = IndexError).
Proof.
intros Hhead Hloop Hw Hm.
destruct (ua_grid_invariant _ _ _ n fuel w text index p st0 st Hhead Hloop Hw)
  as [Hrows _].
split; [by apply (filled_grid_quarter_turn (ua_width p))|].
intros e. apply rotate_udgs_raises_IndexError.
Qed.

End MacroRotation.

Lemma udgarray_quarter_turn_needs_full_rows_witness :
  ((exists g, rotate_udgs (ua_udg_array demo_state2) 1 = Ok g) <->
   exists k, Forall (fun row => Py.len row = k) (ua_udg_array demo_state2)) /\
  (forall e, rotate_udgs (ua_udg_array demo_state2) 1 = Raise e -> e = IndexError).
Proof.
  apply (udgarray_quarter_turn_needs_full_rows ref_parse_params ref_get_params
           ref_parse_ints 10 10 (demo_writer false ∅) demo_text 0 demo_params
           demo_state0 demo_state2);
    vm_compute; (reflexivity || discriminate || (left; reflexivity)).
Defined.

(** ** Image file names *)

Lemma chars_of_chars (l : list ascii) : Str.chars (Str.of_chars l) = l.
Proof. apply list_ascii_of_string_of_list_ascii. Qed.

Lemma of_chars_chars (s : string) : Str.of_chars (Str.chars s) = s.
Proof. apply string_of_list_ascii_of_string. Qed.

Lemma chars_app (s t : string) : Str.chars (s ++ t) = Str.chars s ++ Str.chars t.
Proof.
  unfold Str.chars. induction s as [|c s IH]; [done|].
  change (String c s ++ t)%string with (String c (s ++ t)). simpl. by rewrite IH.
Qed.

Lemma string_app_assoc (a b c : string) :
  ((a ++ b) ++ c)%string = (a ++ b ++ c)%string.
Proof. induction a as [|x a IH]; [done|]. by rewrite !string_app_cons, IH. Qed.

Lemma slice_last4 (s : string) :
  Str.slice s (Some (-4)) None
  = Str.of_chars (drop (length (Str.chars s) - 4) (Str.chars s)).
Proof.
  unfold Str.slice. set (l := Str.chars s). f_equal.
  assert (Z.to_nat (clamp (Py.len l) (-4)) = (length l - 4)%nat) as Ha.
  { unfold clamp, Py.len. change (-4 <? 0) with true. cbv iota.
    destruct (Z.ltb_spec (-4 + Z.of_nat (length l)) 0); [lia|].
    destruct (Z.ltb_spec (Z.of_nat (length l)) (-4 + Z.of_nat (length l))); lia. }
  assert (0 <= clamp (Py.len l) (-4) <= Py.len l) as Hb.
  { unfold clamp, Py.len. change (-4 <? 0) with true. cbv iota.
    destruct (Z.ltb_spec (-4 + Z.of_nat (length l)) 0); [lia|].
    destruct (Z.ltb_spec (Z.of_nat (length l)) (-4 + Z.of_nat (length l))); lia. }
  rewrite Ha. apply take_ge. rewrite length_drop. unfold Py.len in *. lia.
Qed.

Lemma is_image_suffix_ext (s : string) :
  is_image_suffix s = String.eqb (image_ext s) ".png" || String.eqb (image_ext s) ".gif".
Proof.
  unfold is_image_suffix, image_ext. rewrite slice_last4.
  unfold Str.lower. by rewrite chars_of_chars.
Qed.

Lemma _get_image_format_ext (p : string) :
  _get_image_format p
  = if String.eqb (image_ext p) ".png" then Ok "png"%string
    else if String.eqb (image_ext p) ".gif" then Ok "gif"%string
    else Raise (SkoolKitError ("Unsupported image file format: " ++ p)%string).
Proof.
  unfold _get_image_format, image_ext. rewrite slice_last4.
  unfold Str.lower. rewrite chars_of_chars, length_map.
  change (map Str.lower_char (Str.chars p)) with (Str.lower_char <$> Str.chars p).
  by rewrite <- fmap_drop.
Qed.

Lemma image_ext_app (s t : string) :
  (4 <= String.length t)%nat -> image_ext (s ++ t) = image_ext t.
Proof.
  intros Ht. unfold image_ext. rewrite chars_app, length_app.
  assert (length (Str.chars t) = String.length t) as Hlen.
  { unfold Str.chars. clear. induction t as [|c t IH]; simpl; [done|by rewrite IH]. }
  rewrite drop_app_ge by lia. do 3 f_equal. lia.
Qed.

Lemma image_ext_length (s : string) :
  String.length (image_ext s) = Nat.min 4 (String.length s).
Proof.
  unfold image_ext.
  assert (forall l, String.length (Str.of_chars l) = length l) as Hof.
  { induction l as [|c l IH]; simpl; [done|by rewrite IH]. }
  assert (length (Str.chars s) = String.length s) as Hlen.
  { unfold Str.chars. clear. induction s as [|c s IH]; simpl; [done|by rewrite IH]. }
  rewrite Hof, length_map, length_drop, Hlen. lia.
Qed.

Lemma is_image_suffix_long (s : string) :
  is_image_suffix s = true -> (4 <= String.length s)%nat.
Proof.
  rewrite is_image_suffix_ext. intros H. pose proof (image_ext_length s) as Hl.
  apply orb_prop in H as [H|H]; apply String.eqb_eq in H; rewrite H in Hl;
    cbn [String.length] in Hl; lia.
Qed.

(** The format of a name that ends with what [image_path] appends or
    accepts. *)
Lemma format_of_suffixed (w : HtmlWriter) (pre fname : string) :
  default_image_format w = "png"%string \/ default_image_format w = "gif"%string ->
  exists fmt,
    _get_image_format
      (pre ++ fname ++ (if is_image_suffix fname then EmptyString
                        else "." ++ default_image_format w))%string = Ok fmt /\
    (fmt = "png"%string \/ fmt = "gif"%string) /\
    (is_image_suffix fname = false -> fmt = default_image_format w).
Proof.
  intros Hdef. rewrite _get_image_format_ext.
  destruct (is_image_suffix fname) eqn:Hsuf.
  - pose proof (is_image_suffix_long fname Hsuf) as Hlen.
    rewrite string_app_empty_r, image_ext_app by done.
    rewrite is_image_suffix_ext in Hsuf.
    destruct (String.eqb (image_ext fname) ".png");
      [eexists; split; [reflexivity|]; split; [auto|discriminate]|].
    destruct (String.eqb (image_ext fname) ".gif"); [|discriminate].
    eexists. split; [reflexivity|]. split; [auto|discriminate].
  - rewrite image_ext_app.
    + destruct Hdef as [-> | ->];
        rewrite image_ext_app by (simpl; lia); eexists; (split; [reflexivity|]); auto.
    + destruct Hdef as [-> | ->].
      * clear. induction fname as [|c f IH]; simpl in *; lia.
      * clear. induction fname as [|c f IH]; simpl in *; lia.
Qed.

(** The format of a path that [image_path] returns. *)
Lemma image_path_format (w : HtmlWriter) (fname path_id p : string) :
  default_image_format w = "png"%string \/ default_image_format w = "gif"%string ->
  image_path w fname path_id = Ok (Some p) ->
  exists fmt,
    _get_image_format p = Ok fmt /\
    (fmt = "png"%string \/ fmt = "gif"%string) /\
    (is_image_suffix fname = false -> fmt = default_image_format w).
Proof.
  intros Hdef. unfold image_path. destruct fname as [|c rest]; [discriminate|].
  change (Str.truthy (String c rest)) with true. cbv iota.
  change (Str.getitem (String c rest) 0) with (Ok (A:=ascii) c). cbn [Py.bind].
  destruct (Ascii.eqb_spec c "/") as [->|Hc].
  - intros [= <-]. rewrite slice_tail.
    destruct (is_image_suffix (String "/" rest)) eqn:Hsuf.
    + pose proof (is_image_suffix_long _ Hsuf) as Hlen.
      assert (4 <= String.length rest)%nat as Hrest.
      { destruct (le_lt_dec 4 (String.length rest)) as [|Hshort]; [done|].
        exfalso. rewrite is_image_suffix_ext in Hsuf.
        destruct rest as [|c1 [|c2 [|c3 [|c4 r]]]]; simpl in Hlen, Hshort; try lia.
        unfold image_ext in Hsuf. simpl in Hsuf.
        rewrite !orb_false_iff in Hsuf || discriminate Hsuf. }
      rewrite string_app_empty_r, _get_image_format_ext.
      rewrite is_image_suffix_ext in Hsuf.
      change (String "/" rest) with ("/" ++ rest)%string in Hsuf.
      rewrite image_ext_app in Hsuf by done.
      destruct (String.eqb (image_ext rest) ".png");
        [eexists; split; [reflexivity|]; split; [auto|discriminate]|].
      destruct (String.eqb (image_ext rest) ".gif"); [|discriminate].
      eexists. split; [reflexivity|]. split; [auto|discriminate].
    + destruct (format_of_suffixed w EmptyString (String "/" rest) Hdef)
        as (fmt & Hfmt & Hor & Hdefault).
      rewrite Hsuf in Hfmt. change (EmptyString ++ ?x)%string with x in Hfmt.
      rewrite _get_image_format_ext in *.
      change (String "/" rest ++ "." ++ default_image_format w)%string
        with ("/" ++ (rest ++ "." ++ default_image_format w))%string in Hfmt.
      rewrite image_ext_app in Hfmt.
      * exists fmt. split; [|split; [done|auto]].
        match type of Hfmt with
        | ?l = Ok fmt => match goal with |- ?r = Ok fmt => 
            replace r with l; [exact Hfmt|] end
        end.
        destruct (String.eqb _ ".png"); [done|].
        destruct (String.eqb _ ".gif"); [done|].
        exfalso. discriminate Hfmt.
      * destruct Hdef as [-> | ->]; clear; induction rest; simpl in *; lia.
  - destruct (paths w !! path_id) as [dir|]; [|discriminate].
    intros [= <-]. unfold join.
    set (name := (String c rest ++ _)%string).
    assert (Str.truthy (Str.remove_char "/" name) = true) as Hkeep.
    { unfold name, Str.remove_char, Str.chars.
      change (String c rest ++ ?x)%string with (String c (rest ++ x)).
      simpl list_ascii_of_string.
      rewrite filter_cons_True by done. reflexivity. }
    cbn [filter list_filter].
    destruct (decide (Str.truthy (Str.remove_char "/" dir) = true));
      destruct (decide (Str.truthy (Str.remove_char "/" name) = true));
      try congruence; cbn [filter list_filter Str.join].
    + destruct (format_of_suffixed w (dir ++ "/") (String c rest) Hdef)
        as (fmt & Hfmt & Hor & Hdefault).
      exists fmt. split; [|done]. rewrite <- Hfmt. f_equal. unfold name.
      by rewrite string_app_assoc.
    + destruct (format_of_suffixed w EmptyString (String c rest) Hdef)
        as (fmt & Hfmt & Hor & Hdefault).
      exists fmt. split; [|done]. exact Hfmt.
Qed.

(** X22: a path that [image_path] returns, for a default image format of
    [png] or [gif], is one whose format [_get_image_format] accepts; and
    the format is the default one unless the file name itself ends with
    [.png] or [.gif] (in any case). *)
Theorem image_path_has_image_format (w : HtmlWriter) (fname path_id p : string) :
  default_image_format w = "png"%string \/ default_image_format w = "gif"%string ->
  image_path w fname path_id = Ok (Some p) ->
  exists fmt,
    _get_image_format p = Ok fmt /\
    (fmt = "png"%string \/ fmt = "gif"%string) /\
    (is_image_suffix fname = false -> fmt = default_image_format w).
Proof. apply image_path_format. Qed.

Lemma image_path_has_image_format_witness :
  exists fmt,
    _get_image_format "images/udgs/Sprite.GIF" = Ok fmt /\
    (fmt = "png"%string \/ fmt = "gif"%string) /\
    (is_image_suffix "Sprite.GIF" = false ->
     fmt = default_image_format (demo_writer false ∅)).
Proof.
  apply (image_path_has_image_format (demo_writer false ∅) "Sprite.GIF" "UDGImagePath").
  - left. reflexivity.
  - vm_compute. reflexivity.
Defined.

(** ** The screenshot macro *)

(** What [write_image] leaves behind: one encoder call with the frame of
    the grid, and the file. *)
Lemma write_image_writes (path : string) (udgs : list (list Udg.t))
    (crop : crop_rect) (scale : Z) (mask : Frame.mask_arg) (w : HtmlWriter) :
  match write_image path udgs crop scale mask w with
  | (Ok _, w') =>
      exists frame fmt,
        Frame.udgs frame = udgs /\
        _get_image_format path = Ok fmt /\
        w' = set_encoder_calls (set_files w ({[ join [odir w; path] ]} ∪ files w))
               (encoder_calls w ++ [EncoderCall path [frame] fmt])
  | (Raise _, w') => w' = w
  end.
Proof.
  unfold write_image. destruct crop as [[[x y] width] height].
  unfold bindM at 1, lift.
  destruct (Frame.init udgs scale mask x y width height DEFAULT_DELAY)
    as [frame|e] eqn:Hinit; [|done].
  unfold write_animated_image, bindM, lift, open_file.
  destruct (_get_image_format path) as [fmt|e]; [|done].
  exists frame, fmt. split; [|done].
  unfold Frame.init in Hinit. destruct (getitem udgs 0); [|discriminate].
  cbn [Py.bind] in Hinit. by injection Hinit as <-.
Qed.

Lemma screenshot_no_rows (w : HtmlWriter) (x y w_ h df_addr af_addr : Z) :
  24 <= y \/ h <= 0 -> screenshot w x y w_ h df_addr af_addr = Ok [].
Proof.
  intros Hy. unfold screenshot. rewrite (range_empty y) by lia. reflexivity.
Qed.

Section ScreenMacroFacts.

Context (parse_params :
         string -> Z -> string -> string -> result (Z * string * option string))
      (get_params :
         string -> Z -> list pyval -> option (list Z) -> list string
         -> result (list pyval))
      (parse_ints : string -> Z -> result (Z * crop_rect))
      (img_element : string -> string -> string).

Local Abbreviation params_of := (scr_params parse_params get_params parse_ints).
Local Abbreviation expand :=
(expand_scr parse_params get_params parse_ints img_element).

(** The parser looks at the writer for its image paths only. *)
Lemma scr_params_same (w w' : HtmlWriter) (text : string) (index : Z) :
paths w' = paths w -> default_image_format w' = default_image_format w ->
params_of w' text index = params_of w text index.
Proof.
intros Hp Hd. unfold scr_params, parse_image_params, image_path.
by rewrite Hp, Hd.
Qed.

(** X23: a screenshot macro for a region that starts below the screen
  ([y >= 24]) or has no height ([h <= 0]), when its image has to be
  written, raises [IndexError] (the frame is built from a grid with no
  rows) and leaves the writer as it was: no file, no encoder call. *)
Theorem expand_scr_offscreen (w : HtmlWriter) (text : string) (index : Z)
  (cwd : string) (end_ : Z) (p : string) (crop : crop_rect)
  (scale x y w_ h df_addr af_addr : Z) :
params_of w text index
= Ok (end_, Some p, crop,
      [VInt scale; VInt x; VInt y; VInt w_; VInt h; VInt df_addr; VInt af_addr]) ->
need_image w p = true ->
24 <= y \/ h <= 0 ->
expand text index cwd w = (Raise IndexError, w).
Proof.
intros Hparse Hneed Hy. unfold expand_scr, bindM at 1.
rewrite Hparse. cbv iota beta. unfold bindM at 1. rewrite Hneed.
unfold bindM at 1. unfold bindM at 1. cbn [as_int Py.bind].
rewrite (screenshot_no_rows w x y w_ h df_addr af_addr Hy).
unfold bindM at 1, lift. unfold write_image. destruct crop as [[[cx cy] cw] ch].
unfold bindM at 1, lift. by rewrite frame_init_empty_grid.
Qed.


(** X25: the screenshot macro is idempotent when images are not being
  rebuilt: after an expansion that returns, expanding the same text
  again returns the same element and changes nothing, the file of the
  image being there. *)
Theorem expand_scr_idempotent (w w1 : HtmlWriter) (text : string) (index : Z)
  (cwd : string) (out : Z * string) :
replace_images w = false ->
expand text index cwd w = (Ok out, w1) ->
expand text index cwd w1 = (Ok out, w1).
Proof.
intros Hrep Hrun.
assert (exists end_ p crop scale x y w_ h df af,
           params_of w text index
           = Ok (end_, Some p, crop, [scale; x; y; w_; h; df; af]) /\
           out = (end_, img_element cwd p) /\
           paths w1 = paths w /\ default_image_format w1 = default_image_format w /\
           need_image w1 p = false) as Hfacts.
{ unfold expand_scr, bindM at 1 in Hrun.
  destruct (params_of w text index) as [[[[end_ scr_path] crop] params]|] eqn:Hparse;
    [|discriminate].
  cbv iota beta in Hrun.
  destruct params as [|scale [|x [|y [|w_ [|h [|df [|af [|]]]]]]]]; try discriminate.
  destruct scr_path as [p|]; [|discriminate].
  exists end_, p, crop, scale, x, y, w_, h, df, af. split; [done|].
  unfold bindM at 1 in Hrun. destruct (need_image w p) eqn:Hneed.
  - unfold bindM at 1 in Hrun. unfold bindM at 1 in Hrun.
    destruct (let* x0 := as_int x in _) as [udgs|e] eqn:Hshot; [|discriminate].
    unfold bindM at 1, lift in Hrun. destruct (as_int scale) as [sc|]; [|discriminate].
    pose proof (write_image_writes p udgs crop sc (Frame.MaskBool false) w) as Hw.
    destruct (write_image p udgs crop sc (Frame.MaskBool false) w) as [[u|e] w'];
      [|discriminate].
    unfold ret in Hrun. injection Hrun as <- <-.
    destruct Hw as (frame & fmt & _ & _ & ->).
    split; [done|]. split; [done|]. split; [done|].
    unfold need_image, file_exists. simpl. rewrite Hrep. simpl.
    apply negb_false_iff, bool_decide_eq_true_2. set_solver.
  - unfold ret in Hrun. injection Hrun as <- <-. done. }
destruct Hfacts as (end_ & p & crop & scale & x & y & w_ & h & df & af
                    & Hparse & -> & Hp & Hd & Hneed).
unfold expand_scr, bindM at 1.
rewrite (scr_params_same w w1 text index Hp Hd), Hparse. cbv iota beta.
unfold bindM at 1. rewrite Hneed. reflexivity.
Qed.

End ScreenMacroFacts.

Lemma expand_scr_offscreen_witness :
  ref_expand_scr "1,0,24,2,1,0,0(shot)" 0 EmptyString (scr_writer false ∅)
  = (Raise IndexError, scr_writer false ∅).
Proof.
  apply (expand_scr_offscreen ref_parse_params ref_get_params ref_parse_ints
           ref_img_element (scr_writer false ∅) "1,0,24,2,1,0,0(shot)" 0 EmptyString
           20 "images/scr/shot.png" (0, 0, None, None) 1 0 24 2 1 0 0).
  - vm_compute. reflexivity.
  - vm_compute. reflexivity.
  - left. lia.
Defined.


Lemma expand_scr_idempotent_witness :
  let w1 := snd (ref_expand_scr "1,0,0,2,1,0,0(shot)" 0 EmptyString (scr_writer false ∅)) in
  ref_expand_scr "1,0,0,2,1,0,0(shot)" 0 EmptyString w1
  = (Ok (19, "<img src=images/scr/shot.png />"%string), w1).
Proof.
  apply (expand_scr_idempotent ref_parse_params ref_get_params ref_parse_ints
           ref_img_element (scr_writer false ∅)).
  - reflexivity.
  - vm_compute. reflexivity.
Defined.

(** ** The delays of a frame composition *)

Lemma set_delay_twice (f : Frame.t) (d1 d2 : Z) :
  Frame.set_delay (Frame.set_delay f d1) d2 = Frame.set_delay f d2.
Proof. reflexivity. Qed.

Lemma set_delay_same (f : Frame.t) : Frame.set_delay f (Frame.delay f) = f.
Proof. by destruct f. Qed.

Lemma set_delays_dom (pairs : list (string * Z)) (cache : gmap string Frame.t) :
  dom (set_delays pairs cache) = dom cache.
Proof.
  revert cache. induction pairs as [|p ps IH]; intros cache; simpl; [done|].
  rewrite IH. destruct (cache !! fst p) as [f|] eqn:Hf; [|done].
  apply dom_insert_lookup_L. eauto.
Qed.

(** A frame of the cache after the delays are set: the frame it was,
    with the last delay that was given to it. *)
Lemma set_delays_lookup (pairs : list (string * Z)) :
  forall (cache : gmap string Frame.t) (id : string),
    set_delays pairs cache !! id
    = (fun f => Frame.set_delay f (last_delay pairs id (Frame.delay f)))
        <$> cache !! id.
Proof.
  induction pairs as [|p ps IH]; intros cache id.
  - cbn [set_delays]. unfold last_delay. cbn [fold_left].
    destruct (cache !! id) as [f|]; cbn [fmap option_fmap option_map]; [|done].
    by rewrite set_delay_same.
  - cbn [set_delays]. rewrite IH.
    assert (forall d0, last_delay (p :: ps) id d0
                       = last_delay ps id (if String.eqb (fst p) id then snd p else d0))
      as Hstep by reflexivity.
    destruct (String.eqb_spec (fst p) id) as [Heq|Hne].
    + subst id. destruct (cache !! fst p) as [f|] eqn:Hf.
      * rewrite lookup_insert_eq. cbn [fmap option_fmap option_map].
        by rewrite set_delay_twice, Hstep.
      * rewrite Hf. done.
    + destruct (cache !! fst p) as [f|] eqn:Hf.
      * rewrite lookup_insert_ne by done.
        destruct (cache !! id) as [g|]; cbn [fmap option_fmap option_map]; [|done].
        by rewrite Hstep.
      * destruct (cache !! id) as [g|]; cbn [fmap option_fmap option_map]; [|done].
        by rewrite Hstep.
Qed.

Section FrameDelays.

Context (parse_params :
         string -> Z -> string -> string -> result (Z * string * option string))
      (parse_int : string -> option Z)
      (img_element : string -> string -> string).

Local Abbreviation fclause := (frame_clause parse_int).

(** One clause that resolves: its frame gets its delay. *)
Lemma frame_clause_sets_delay (text : string) (index end_ : Z) (dflt : Z)
  (collected : list string) (c : string) (w : HtmlWriter) :
clause_resolves parse_int (frames w) c ->
exists id d dflt',
  clause_delays parse_int dflt [c] = [(id, d)] /\
  (forall cs, clause_delays parse_int dflt (c :: cs)
              = (id, d) :: clause_delays parse_int dflt' cs) /\
  fclause text index end_ (dflt, collected) c w
  = (Ok (dflt', collected ++ [id]),
     set_frames w (set_delays [(id, d)] (frames w))).
Proof.
intros (Hdelay & Hid & [f Hf]).
unfold frame_clause, clause_delay_ok, clause_frame_id, clause_delays in *.
destruct (Str.rsplit "," (Some 1%nat) c) as [|a [|b [|]]].
- exists c, dflt, dflt. split; [done|]. split; [done|].
  unfold bindM, ret. rewrite Hid. cbn [negb]. rewrite Hf. simpl. by rewrite Hf.
- exists c, dflt, dflt. split; [done|]. split; [done|].
  unfold bindM, ret. rewrite Hid. cbn [negb]. rewrite Hf. simpl. by rewrite Hf.
- apply bool_decide_eq_true in Hdelay as [d Hd]. rewrite Hd.
  exists a, d, d. split; [done|]. split; [done|].
  unfold bindM, ret. rewrite Hid. cbn [negb]. rewrite Hf. simpl. by rewrite Hf.
- exists c, dflt, dflt. split; [done|]. split; [done|].
  unfold bindM, ret. rewrite Hid. cbn [negb]. rewrite Hf. simpl. by rewrite Hf.
Qed.

Lemma set_frames_same (w : HtmlWriter) : set_frames w (frames w) = w.
Proof. by destruct w. Qed.

Lemma set_frames_twice (w : HtmlWriter) (f g : gmap string Frame.t) :
set_frames (set_frames w f) g = set_frames w g.
Proof. reflexivity. Qed.

(** The loop over clauses that all resolve. *)
Lemma frame_clauses_run (text : string) (index end_ : Z) (cs : list string) :
forall (dflt : Z) (collected : list string) (w : HtmlWriter),
  Forall (clause_resolves parse_int (frames w)) cs ->
  exists dflt',
    for_each (fclause text index end_) cs (dflt, collected) w
    = (Ok (dflt', collected ++ map fst (clause_delays parse_int dflt cs)),
       set_frames w (set_delays (clause_delays parse_int dflt cs) (frames w))).
Proof.
induction cs as [|c cs IH]; intros dflt collected w Hall.
- exists dflt. simpl. unfold ret. by rewrite app_nil_r, set_frames_same.
- inversion Hall as [|? ? Hc Hcs]; subst.
  destruct (frame_clause_sets_delay text index end_ dflt collected c w Hc)
    as (id & d & dflt1 & Hone & Hmore & Hstep).
  set (w1 := set_frames w (set_delays [(id, d)] (frames w))) in *.
  assert (Forall (clause_resolves parse_int (frames w1)) cs) as Hcs1.
  { eapply Forall_impl; [exact Hcs|].
    intros c' (H1 & H2 & H3). repeat split; [done|done|].
    apply elem_of_dom. unfold w1. cbn [frames set_frames].
    rewrite set_delays_dom. by apply elem_of_dom. }
  destruct (IH dflt1 (collected ++ [id]) w1 Hcs1) as (dflt' & Hrest).
  exists dflt'. cbn [for_each]. unfold bindM at 1. rewrite Hstep, Hrest.
  rewrite (Hmore cs). cbn [map fst]. rewrite <- app_assoc. cbn [app].
  reflexivity.
Qed.

(** X26: a frame composition whose clauses all resolve, when its image
  has to be written, makes one encoder call with one frame per clause,
  in order.  A clause without a delay takes the delay of the nearest
  clause before it that has one (32 when there is none).  Each frame
  handed over is the cached frame with the delay of the last clause
  that names it: a frame named by two clauses has, in both places, the
  delay of the second, the two places holding the same object. *)
Theorem udgarray_frames_delays (w : HtmlWriter) (text : string) (index : Z)
  (cwd : string) (end_ : Z) (frame_params : string) (fname : option string)
  (img_path fmt : string) (clauses : list string) :
parse_params text index " (" EmptyString = Ok (end_, frame_params, fname) ->
truthy_str fname = true ->
image_path w (default EmptyString fname) "UDGImagePath" = Ok (Some img_path) ->
need_image w img_path = true ->
_get_image_format img_path = Ok fmt ->
Str.split ";" None (Str.slice frame_params (Some 1) None) = clauses ->
Forall (clause_resolves parse_int (frames w)) clauses ->
exists w' fs,
  _expand_udgarray_with_frames parse_params parse_int img_element text index cwd w
  = (Ok (end_, img_element cwd img_path), w') /\
  encoder_calls w' = encoder_calls w ++ [EncoderCall img_path fs fmt] /\
  Forall2
    (fun p f =>
       exists f0,
         frames w !! fst p = Some f0 /\
         f = Frame.set_delay f0
               (last_delay (clause_delays parse_int 32 clauses) (fst p)
                  (Frame.delay f0)))
    (clause_delays parse_int 32 clauses) fs.
Proof.
intros Hparse Hfname Hpath Hneed Hfmt Hsplit Hall.
destruct (frame_clauses_run text index end_ clauses 32 [] w Hall) as (dflt' & Hloop).
set (pairs := clause_delays parse_int 32 clauses) in *.
unfold _expand_udgarray_with_frames, bindM at 1, lift at 1.
rewrite Hparse, Hfname. cbn [negb].
unfold bindM at 1. rewrite Hpath.
unfold bindM at 1. rewrite Hneed.
unfold bindM at 1, bindM at 1. rewrite Hsplit, Hloop.
unfold bindM at 1. cbn [snd app].
unfold write_animated_image, bindM, lift, open_file, ret. rewrite Hfmt.
eexists _, _. split; [reflexivity|]. cbn [encoder_calls set_encoder_calls set_files
                                            set_frames frames].
split; [reflexivity|].
assert (forall ps : list (string * Z),
           Forall (fun p => is_Some (frames w !! fst p)) ps ->
           Forall2
             (fun p f =>
                exists f0,
                  frames w !! fst p = Some f0 /\
                  f = Frame.set_delay f0 (last_delay pairs (fst p) (Frame.delay f0)))
             ps
             (omap (fun id => set_delays pairs (frames w) !! id) (map fst ps)))
  as Hgen.
{ induction ps as [|p ps IH]; intros Hps; [constructor|].
  inversion Hps as [|? ? [f0 Hf0] Hps']; subst.
  cbn [map omap list_omap]. rewrite set_delays_lookup, Hf0. cbn [fmap option_fmap option_map].
  constructor; [eauto|by apply IH]. }
apply Hgen. clear Hgen Hloop.
unfold pairs. generalize 32. clear -Hall.
induction Hall as [|c cs (Hd & Hid & Hsome) _ IH]; intros dflt; [constructor|].
unfold clause_frame_id in *. cbn [clause_delays].
destruct (Str.rsplit "," (Some 1%nat) c) as [|a [|b [|]]];
  constructor; try done; apply IH.
Qed.

End FrameDelays.

Lemma udgarray_frames_delays_witness :
  exists w' fs,
    _expand_udgarray_with_frames ref_parse_params ref_parse_int ref_img_element
      "*f1,10;f1,20;f1(img)" 0 EmptyString (demo_writer_with_frame true demo_files)
    = (Ok (20, ref_img_element EmptyString "images/udgs/img.png"), w') /\
    encoder_calls w'
    = encoder_calls (demo_writer_with_frame true demo_files)
      ++ [EncoderCall "images/udgs/img.png" fs "png"] /\
    Forall2
      (fun p f =>
         exists f0,
           frames (demo_writer_with_frame true demo_files) !! fst p = Some f0 /\
           f = Frame.set_delay f0
                 (last_delay (clause_delays ref_parse_int 32 ["f1,10"; "f1,20"; "f1"]%string)
                    (fst p) (Frame.delay f0)))
      (clause_delays ref_parse_int 32 ["f1,10"; "f1,20"; "f1"]%string) fs.
Proof.
  apply (udgarray_frames_delays ref_parse_params ref_parse_int ref_img_element
           (demo_writer_with_frame true demo_files) "*f1,10;f1,20;f1(img)" 0 EmptyString
           20 "*f1,10;f1,20;f1" (Some "img"%string) "images/udgs/img.png" "png"
           ["f1,10"; "f1,20"; "f1"]%string);
    try (vm_compute; reflexivity).
  repeat constructor; vm_compute; eauto.
Defined.

(** ** Rotations of a grid *)

Lemma grid_of_ext (r c : nat) (f f' : nat -> nat -> Udg.t) :
  (forall i j, (i < r)%nat -> (j < c)%nat -> f i j = f' i j) ->
  grid_of r c f = grid_of r c f'.
Proof.
  intros Hf. unfold grid_of. apply map_ext_in. intros i Hi%in_seq.
  apply map_ext_in. intros j Hj%in_seq. apply Hf; lia.
Qed.

Lemma grid_of_length (r c : nat) (f : nat -> nat -> Udg.t) :
  length (grid_of r c f) = r.
Proof. unfold grid_of. by rewrite length_map, length_seq. Qed.

Lemma grid_of_lookup (r c : nat) (f : nat -> nat -> Udg.t) (i : nat) :
  (i < r)%nat -> grid_of r c f !! i = Some (map (f i) (seq 0 c)).
Proof.
  intros Hi. unfold grid_of.
  change (map (fun i0 => map (f i0) (seq 0 c)) (seq 0 r))
    with ((fun i0 => map (f i0) (seq 0 c)) <$> seq 0 r).
  rewrite list_lookup_fmap, lookup_seq_lt by done. reflexivity.
Qed.

Lemma nth_map_seq {A} (h : nat -> A) (n i : nat) (d : A) :
  (i < n)%nat -> nth i (map h (seq 0 n)) d = h i.
Proof.
  intros Hi. rewrite (nth_indep _ d (h 0%nat)) by (by rewrite length_map, length_seq).
  rewrite map_nth, seq_nth by done. reflexivity.
Qed.

Lemma rectangular_grid_of (r c : nat) (g : list (list Udg.t)) :
  rectangular r c g -> g = grid_of r c (tile_at g).
Proof.
  intros [Hr Hc]. apply (nth_ext _ _ [] []).
  - by rewrite grid_of_length.
  - intros i Hi. unfold grid_of. rewrite nth_map_seq by lia.
    assert (length (nth i g []) = c) as Hlen.
    { rewrite List.Forall_forall in Hc. apply Hc. by apply nth_In. }
    apply (nth_ext _ _ blank_udg blank_udg).
    + by rewrite length_map, length_seq.
    + intros j Hj. rewrite nth_map_seq by lia. reflexivity.
Qed.

Lemma rev_map_seq {A} (h : nat -> A) (n : nat) :
  rev (map h (seq 0 n)) = map (fun i => h (n - 1 - i)%nat) (seq 0 n).
Proof.
  induction n as [|n IH]; [done|].
  rewrite seq_S at 1. rewrite map_app, rev_app_distr. cbn [map rev app plus].
  rewrite IH. cbn [seq map]. f_equal; [f_equal; lia|].
  rewrite <- seq_shift, map_map. apply map_ext. intros i. f_equal. lia.
Qed.

Lemma rev_grid_of (r c : nat) (f : nat -> nat -> Udg.t) :
  rev (grid_of r c f) = grid_of r c (fun i j => f (r - 1 - i)%nat j).
Proof. unfold grid_of. by rewrite rev_map_seq. Qed.

Lemma map_rev_grid_of (r c : nat) (f : nat -> nat -> Udg.t) :
  map (@rev Udg.t) (grid_of r c f) = grid_of r c (fun i j => f i (c - 1 - j)%nat).
Proof.
  unfold grid_of. rewrite map_map. apply map_ext. intros i. by rewrite rev_map_seq.
Qed.

Lemma turned_tile_wf (n : nat) (u : Udg.t) : Udg.wf u -> Udg.wf (turned_tile n u).
Proof.
  intros (Hlen & Hd & Hmk). unfold Udg.wf, turned_tile. cbn [Udg.data Udg.mask].
  destruct (quarter_turns_wf n _ Hlen Hd) as [H1 H2]. split; [done|]. split; [done|].
  destruct (Udg.mask u) as [mk|]; cbn [fmap option_fmap option_map]; [|done].
  destruct Hmk as [Hl Hb]. by apply quarter_turns_wf.
Qed.

Lemma turned_tile_compose (n m : nat) (u : Udg.t) :
  Udg.wf u -> turned_tile m (turned_tile n u) = turned_tile ((n + m) mod 4) u.
Proof.
  intros (Hlen & Hd & Hmk). unfold turned_tile. cbn [Udg.attr Udg.data Udg.mask].
  f_equal.
  - by rewrite <- quarter_turns_add, (quarter_turns_mod (n + m)).
  - destruct (Udg.mask u) as [mk|]; cbn [fmap option_fmap option_map]; [|done].
    destruct Hmk as [Hl Hb].
    by rewrite <- quarter_turns_add, (quarter_turns_mod (n + m)).
Qed.

Lemma turned_tile_0 (u : Udg.t) : turned_tile 0 u = u.
Proof. destruct u as [a d [mk|]]; reflexivity. Qed.

Lemma rotate_turned (u : Udg.t) (m : Z) :
  Udg.wf u -> Udg.rotate u m = Ok (turned_tile (Z.to_nat (Z.land m 3)) u).
Proof. intros Hwf. unfold Udg.rotate. by rewrite rotate_times_wf. Qed.

Lemma rotate_tiles_grid_of (r c : nat) (f : nat -> nat -> Udg.t) (m : Z) :
  (forall i j, (i < r)%nat -> (j < c)%nat -> Udg.wf (f i j)) ->
  map_result (map_result (fun u => Udg.rotate u m)) (grid_of r c f)
  = Ok (grid_of r c (fun i j => turned_tile (Z.to_nat (Z.land m 3)) (f i j))).
Proof.
  intros Hwf.
  rewrite (map_result_total _ (map (turned_tile (Z.to_nat (Z.land m 3))))).
  - unfold grid_of. rewrite map_map. f_equal. apply map_ext. intros i.
    by rewrite map_map.
  - intros row Hrow. unfold grid_of in Hrow.
    apply in_map_iff in Hrow as (i & <- & Hi%in_seq).
    apply map_result_total. intros u Hu.
    apply in_map_iff in Hu as (j & <- & Hj%in_seq).
    apply rotate_turned. apply Hwf; lia.
Qed.

Lemma grid_item_grid_of (r c : nat) (h : nat -> nat -> Udg.t) (j i : nat) :
  (j < r)%nat -> (i < c)%nat ->
  grid_item (grid_of r c h) (Z.of_nat j) (Z.of_nat i) = Ok (h j i).
Proof.
  intros Hj Hi. unfold grid_item.
  rewrite (getitem_nat _ _ _ (grid_of_lookup r c h j Hj)). cbn [Py.bind].
  apply getitem_nat.
  change (map (h j) (seq 0 c)) with (h j <$> seq 0 c).
  rewrite list_lookup_fmap, lookup_seq_lt by done. reflexivity.
Qed.

Lemma columns_grid_of (r c : nat) (h : nat -> nat -> Udg.t) :
  map_result
    (fun i => map_result (fun j => grid_item (grid_of r c h) j i)
                (range 0 (Z.of_nat r)))
    (range 0 (Z.of_nat c))
  = Ok (grid_of c r (fun i j => h j i)).
Proof.
  rewrite !range_0_nat.
  rewrite (map_result_total _ (fun i => map (fun j => h j (Z.to_nat i)) (seq 0 r))).
  - unfold grid_of. rewrite map_map. f_equal. apply map_ext. intros i.
    by rewrite Nat2Z.id.
  - intros i Hi. apply in_map_iff in Hi as (i' & <- & Hi'%in_seq).
    rewrite (map_result_total _ (fun j => h (Z.to_nat j) i')).
    + rewrite map_map, Nat2Z.id. f_equal. apply map_ext. intros j. by rewrite Nat2Z.id.
    + intros j Hj. apply in_map_iff in Hj as (j' & <- & Hj'%in_seq).
      rewrite Nat2Z.id. apply grid_item_grid_of; lia.
Qed.

Lemma land_3_cases (m : Z) :
  Z.land m 3 = 0 \/ Z.land m 3 = 1 \/ Z.land m 3 = 2 \/ Z.land m 3 = 3.
Proof. rewrite rotate_count. pose proof (Z.mod_pos_bound m 4 ltac:(lia)). lia. Qed.

(** What [rotate_udgs] returns on a grid of tiles of the data model with
    at least one row. *)
Lemma rotate_grid_of (r c : nat) (f : nat -> nat -> Udg.t) (m : Z) :
  (1 <= r)%nat ->
  (forall i j, (i < r)%nat -> (j < c)%nat -> Udg.wf (f i j)) ->
  rotate_udgs (grid_of r c f) m = Ok (rotated_grid (Z.to_nat (Z.land m 3)) r c f).
Proof.
  intros Hr Hwf. unfold rotate_udgs. rewrite rotate_tiles_grid_of by done.
  cbn [Py.bind].
  assert (forall h : nat -> nat -> Udg.t,
             getitem (grid_of r c h) 0 = Ok (map (h 0%nat) (seq 0 c))) as Hrow0.
  { intros h. apply (getitem_nat _ 0%nat). apply grid_of_lookup. lia. }
  assert (forall h : nat -> Udg.t, Py.len (map h (seq 0 c)) = Z.of_nat c) as Hlen0
    by (intros h; unfold Py.len; by rewrite length_map, length_seq).
  assert (forall h, Py.len (grid_of r c h) = Z.of_nat r) as Hlen
    by (intros h; unfold Py.len; by rewrite grid_of_length).
  destruct (land_3_cases m) as [Hm | [Hm | [Hm | Hm]]]; rewrite Hm.
  - change (Z.to_nat 0) with 0%nat. cbn [Z.eqb rotated_grid].
    f_equal. apply grid_of_ext. intros. apply turned_tile_0.
  - change (Z.to_nat 1) with 1%nat. cbn [Z.eqb Pos.eqb rotated_grid].
    rewrite Hrow0. cbn [Py.bind]. rewrite Hlen0, Hlen, map_result_post, columns_grid_of.
    cbn [Py.bind]. by rewrite map_rev_grid_of.
  - change (Z.to_nat 2) with 2%nat. cbn [Z.eqb Pos.eqb rotated_grid].
    by rewrite rev_grid_of, map_rev_grid_of.
  - change (Z.to_nat 3) with 3%nat. cbn [Z.eqb Pos.eqb rotated_grid].
    rewrite Hrow0. cbn [Py.bind]. rewrite Hlen0, Hlen, columns_grid_of.
    cbn [Py.bind]. by rewrite rev_grid_of.
Qed.

Lemma tile_at_wf (r c : nat) (g : list (list Udg.t)) (i j : nat) :
  rectangular r c g -> grid_wf g -> (i < r)%nat -> (j < c)%nat ->
  Udg.wf (tile_at g i j).
Proof.
  intros [Hr Hc] Hwf Hi Hj. unfold tile_at, grid_wf in *.
  rewrite List.Forall_forall in Hwf, Hc.
  assert (In (nth i g []) g) as Hrow by (apply nth_In; lia).
  specialize (Hwf _ Hrow). rewrite List.Forall_forall in Hwf. apply Hwf.
  apply nth_In. rewrite (Hc _ Hrow). done.
Qed.

(** The composition of two rotations of a grid given by its tiles. *)
Lemma rotated_grid_compose (r c : nat) (f : nat -> nat -> Udg.t) (ka kb : nat) (b : Z) :
  (1 <= r)%nat -> (1 <= c)%nat ->
  (forall i j, (i < r)%nat -> (j < c)%nat -> Udg.wf (f i j)) ->
  (ka < 4)%nat -> Z.to_nat (Z.land b 3) = kb ->
  rotate_udgs (rotated_grid ka r c f) b = Ok (rotated_grid ((ka + kb) mod 4) r c f).
Proof.
  intros Hr Hc Hwf Hka Hkb.
  assert (kb < 4)%nat as Hkb4.
  { subst kb. destruct (land_3_cases b) as [-> | [-> | [-> | ->]]]; simpl; lia. }
  assert (forall n i j, (i < r)%nat -> (j < c)%nat -> Udg.wf (turned_tile n (f i j)))
    as Hwf' by (intros; by apply turned_tile_wf, Hwf).
  destruct ka as [|[|[|[|]]]]; [| | | |lia]; unfold rotated_grid at 1;
    rewrite rotate_grid_of by (done || (intros; apply Hwf'; lia));
    rewrite Hkb; f_equal;
    destruct kb as [|[|[|[|]]]]; try lia;
    cbn [Nat.add Nat.modulo Nat.divmod fst snd Nat.sub rotated_grid];
    apply grid_of_ext; intros i j Hi Hj;
    rewrite ?turned_tile_0, ?turned_tile_compose by (apply Hwf; lia);
    cbn [Nat.add Nat.modulo Nat.divmod fst snd Nat.sub];
    rewrite ?turned_tile_0;
    try (f_equal; f_equal; lia).
Qed.

(** X27: rotations of a grid compose.  On a grid of tiles of the data
    model (distinct objects) with [r >= 1] rows of [c >= 1] tiles each,
    [rotate_udgs] by [a] followed by [rotate_udgs] by [b] gives the grid
    that [rotate_udgs] by [a + b] gives, for all integers [a] and [b]; so
    four quarter turns, and a rotation by 3 after a rotation by 1, give
    back the grid, tiles and arrangement. *)
Theorem rotate_udgs_compose (g : list (list Udg.t)) (r c : nat) (a b : Z) :
  rectangular r c g -> (1 <= r)%nat -> (1 <= c)%nat -> grid_wf g ->
  (let* g1 := rotate_udgs g a in rotate_udgs g1 b) = rotate_udgs g (a + b) /\
  (let* g1 := rotate_udgs g 1 in
   let* g2 := rotate_udgs g1 1 in
   let* g3 := rotate_udgs g2 1 in rotate_udgs g3 1) = Ok g.
Proof.
  intros Hrect Hr Hc Hwf.
  pose proof (rectangular_grid_of r c g Hrect) as Hg.
  assert (forall i j, (i < r)%nat -> (j < c)%nat -> Udg.wf (tile_at g i j)) as Htiles
    by (intros; by eapply tile_at_wf).
  set (f := tile_at g) in *. rewrite Hg. clear Hg.
  assert (forall m, (Z.to_nat (Z.land m 3) < 4)%nat) as Hlt.
  { intros m. destruct (land_3_cases m) as [-> | [-> | [-> | ->]]]; simpl; lia. }
  split.
  - rewrite (rotate_grid_of r c f a Hr Htiles). cbn [Py.bind].
    rewrite (rotated_grid_compose r c f _ (Z.to_nat (Z.land b 3)) b) by done.
    rewrite (rotate_grid_of r c f (a + b) Hr Htiles). do 2 f_equal.
    rewrite !rotate_count.
    pose proof (Z.mod_pos_bound a 4 ltac:(lia)).
    pose proof (Z.mod_pos_bound b 4 ltac:(lia)).
    rewrite (Z.add_mod a b) by lia.
    rewrite <- Z2Nat.inj_add by lia.
    change 4%nat with (Z.to_nat 4). rewrite <- Z2Nat.inj_mod by lia. done.
  - rewrite (rotate_grid_of r c f 1 Hr Htiles). cbn [Py.bind].
    change (Z.to_nat (Z.land 1 3)) with 1%nat.
    rewrite (rotated_grid_compose r c f 1 1 1) by (done || lia). cbn [Py.bind].
    change ((1 + 1) mod 4)%nat with 2%nat.
    rewrite (rotated_grid_compose r c f 2 1 1) by (done || lia). cbn [Py.bind].
    change ((2 + 1) mod 4)%nat with 3%nat.
    rewrite (rotated_grid_compose r c f 3 1 1) by (done || lia).
    reflexivity.
Qed.

Lemma rotate_udgs_compose_witness :
  (let* g1 := rotate_udgs [[demo_tile1; demo_tile2]; [demo_tile2; demo_tile1]] 1 in
   rotate_udgs g1 3)
  = rotate_udgs [[demo_tile1; demo_tile2]; [demo_tile2; demo_tile1]] (1 + 3) /\
  (let* g1 := rotate_udgs [[demo_tile1; demo_tile2]; [demo_tile2; demo_tile1]] 1 in
   let* g2 := rotate_udgs g1 1 in
   let* g3 := rotate_udgs g2 1 in rotate_udgs g3 1)
  = Ok [[demo_tile1; demo_tile2]; [demo_tile2; demo_tile1]].
Proof.
  apply (rotate_udgs_compose [[demo_tile1; demo_tile2]; [demo_tile2; demo_tile1]]
           2 2 1 3).
  - split; [reflexivity|]. repeat constructor.
  - lia.
  - lia.
  - apply demo_grid_wf.
Defined.

(** ** What the tile-grid macro hands to the encoder *)


Section FinishFacts.

Context (img_element : string -> string -> string).


End FinishFacts.


(** ** Modes and bits *)

Lemma land_low_bits (m k : Z) : 0 <= k <= 3 -> Z.land (Z.land m 3) k = Z.land m k.
Proof.
  intros Hk. rewrite <- Z.land_assoc. f_equal.
  assert (k = 0 \/ k = 1 \/ k = 2 \/ k = 3) as [-> | [-> | [-> | ->]]] by lia;
    reflexivity.
Qed.

(** X29: the flips and rotations, of a tile and of a grid, look at the
    two low bits of their mode only: a mode [m] acts as [m & 3], whatever
    the tiles hold, so a flip or a rotation by 4 changes nothing and -1
    acts as 3. *)
Theorem modes_use_low_bits (u : Udg.t) (udgs : list (list Udg.t)) (m : Z) :
  Udg.flip u m = Udg.flip u (Z.land m 3) /\
  Udg.rotate u m = Udg.rotate u (Z.land m 3) /\
  flip_udgs udgs m = flip_udgs udgs (Z.land m 3) /\
  rotate_udgs udgs m = rotate_udgs udgs (Z.land m 3) /\
  Udg.flip u 4 = Ok u /\ Udg.rotate u 4 = Ok u.
Proof.
  assert (Udg.flip u m = Udg.flip u (Z.land m 3)) as Hflip.
  { unfold Udg.flip. by rewrite !land_low_bits by lia. }
  assert (forall v, Udg.flip v m = Udg.flip v (Z.land m 3)) as Hflips.
  { intros v. unfold Udg.flip. by rewrite !land_low_bits by lia. }
  assert (forall v, Udg.rotate v m = Udg.rotate v (Z.land m 3)) as Hrots.
  { intros v. unfold Udg.rotate. by rewrite land_low_bits by lia. }
  split; [done|]. split; [apply Hrots|]. split; [|split].
  - unfold flip_udgs. rewrite !land_low_bits by lia.
    assert (map_result (map_result (fun udg => Udg.flip udg m)) udgs
            = map_result (map_result (fun udg => Udg.flip udg (Z.land m 3))) udgs) as ->;
      [|done].
    induction udgs as [|row udgs IH]; [done|]. cbn [map_result]. rewrite IH.
    assert (map_result (fun udg => Udg.flip udg m) row
            = map_result (fun udg => Udg.flip udg (Z.land m 3)) row) as ->; [|done].
    induction row as [|v row IHr]; [done|]. cbn [map_result]. by rewrite IHr, Hflips.
  - unfold rotate_udgs. rewrite !land_low_bits by lia.
    assert (map_result (map_result (fun udg => Udg.rotate udg m)) udgs
            = map_result (map_result (fun udg => Udg.rotate udg (Z.land m 3))) udgs) as ->;
      [|done].
    induction udgs as [|row udgs IH]; [done|]. cbn [map_result]. rewrite IH.
    assert (map_result (fun udg => Udg.rotate udg m) row
            = map_result (fun udg => Udg.rotate udg (Z.land m 3)) row) as ->; [|done].
    induction row as [|v row IHr]; [done|]. cbn [map_result]. by rewrite IHr, Hrots.
  - split; [|reflexivity]. by destruct u as [a d [mk|]].
Qed.

(** ** Writing an image *)

Lemma file_exists_after_write (w : HtmlWriter) (p : string) (calls : list encoder_call) :
  file_exists (set_encoder_calls (set_files w ({[ join [odir w; p] ]} ∪ files w)) calls) p
  = true.
Proof.
  unfold file_exists. cbn [odir files set_encoder_calls set_files].
  apply bool_decide_eq_true_2. set_solver.
Qed.

Lemma need_image_after_write (w : HtmlWriter) (p : string) (calls : list encoder_call) :
  need_image (set_encoder_calls (set_files w ({[ join [odir w; p] ]} ∪ files w)) calls) p
  = replace_images w.
Proof.
  unfold need_image. rewrite file_exists_after_write.
  cbn [negb replace_images set_encoder_calls set_files]. apply orb_false_r.
Qed.

Lemma write_image_returns (p : string) (udgs : list (list Udg.t)) (crop : crop_rect)
    (scale : Z) (mask : Frame.mask_arg) (w : HtmlWriter) (fmt : string) :
  udgs <> [] -> _get_image_format p = Ok fmt ->
  exists f,
    write_image p udgs crop scale mask w
    = (Ok tt,
       set_encoder_calls (set_files w ({[ join [odir w; p] ]} ∪ files w))
         (encoder_calls w ++ [EncoderCall p [f] fmt])) /\
    Frame.udgs f = udgs.
Proof.
  intros Hne Hfmt. destruct udgs as [|row0 rest]; [done|].
  destruct crop as [[[x y] width] height].
  unfold write_image, bindM at 1, lift, Frame.init.
  change (getitem (row0 :: rest) 0) with (Ok (A:=list Udg.t) row0). cbn [Py.bind].
  unfold write_animated_image, bindM, lift, open_file. rewrite Hfmt.
  eexists. split; reflexivity.
Qed.

(** X30: an image whose path comes from [image_path], for a default
    image format of [png] or [gif], is written whenever the grid has a
    first row: [write_image] then returns, having made one encoder call
    with a frame of the grid, and the file exists afterwards, so the image
    is needed again only if images are being rebuilt.  On a grid with no
    rows it raises [IndexError] and leaves the writer as it was. *)
Theorem image_from_path_is_written (w : HtmlWriter) (fname path_id p : string)
    (udgs : list (list Udg.t)) (crop : crop_rect) (scale : Z) (mask : Frame.mask_arg) :
  default_image_format w = "png"%string \/ default_image_format w = "gif"%string ->
  image_path w fname path_id = Ok (Some p) ->
  (udgs <> [] ->
   exists w' f fmt,
     write_image p udgs crop scale mask w = (Ok tt, w') /\
     encoder_calls w' = encoder_calls w ++ [EncoderCall p [f] fmt] /\
     Frame.udgs f = udgs /\
     file_exists w' p = true /\
     need_image w' p = replace_images w) /\
  (udgs = [] -> write_image p udgs crop scale mask w = (Raise IndexError, w)).
Proof.
  intros Hdef Hpath.
  destruct (image_path_format w fname path_id p Hdef Hpath) as (fmt & Hfmt & _).
  split.
  - intros Hne.
    destruct (write_image_returns p udgs crop scale mask w fmt Hne Hfmt) as (f & Hw & Hf).
    eexists _, f, fmt. split; [exact Hw|]. split; [reflexivity|]. split; [done|].
    rewrite need_image_after_write. by rewrite file_exists_after_write.
  - intros ->. destruct crop as [[[x y] width] height].
    unfold write_image, bindM at 1, lift. by rewrite frame_init_empty_grid.
Qed.

Lemma image_from_path_is_written_witness :
  ([[demo_tile1]] <> [] ->
   exists w' f fmt,
     write_image "images/udgs/img.png" [[demo_tile1]] (0, 0, None, None) 2
       (Frame.MaskInt 1) (demo_writer false ∅) = (Ok tt, w') /\
     encoder_calls w'
     = encoder_calls (demo_writer false ∅)
       ++ [EncoderCall "images/udgs/img.png" [f] fmt] /\
     Frame.udgs f = [[demo_tile1]] /\
     file_exists w' "images/udgs/img.png" = true /\
     need_image w' "images/udgs/img.png" = replace_images (demo_writer false ∅)) /\
  ([[demo_tile1]] = [] ->
   write_image "images/udgs/img.png" [[demo_tile1]] (0, 0, None, None) 2
     (Frame.MaskInt 1) (demo_writer false ∅)
   = (Raise IndexError, demo_writer false ∅)).
Proof.
  apply (image_from_path_is_written (demo_writer false ∅) "img" "UDGImagePath").
  - left. reflexivity.
  - vm_compute. reflexivity.
Defined.
